(** * Chatdomi: the realtime voice session, the application shell and the
      chat toggles

    A shallow embedding of the pieces of the front-end that carry state
    worth reasoning about:

    - [LiveView]  : components/LiveView.tsx, the realtime session manager
                    (playback cursor, scheduled sources, teardown), with
                    [LiveViewAsync] for handlers that overlap and
                    [LiveViewRender] for what is shown;
    - [App]       : App.tsx, the credential gate of the shell;
    - [ChatView]  : components/ChatView.tsx, the three tool toggles and the
                    request configuration built by [handleSend];
    - [MediaStudio], [AudioLab], [VideoAnalysis] : the request handlers of
                    the other views.

    Conventions.

    - React state and refs are fields of an explicit [World] record that every
      handler takes and returns.
    - Calls into the browser and the SDK (new AudioContext, close, start,
      stop, ...) are appended, in program order, to the [calls] log of the
      world. Objects created by the code are named by fresh identifiers.
    - [ctx.currentTime] is an input of the handler that reads it: every
      event of a run is stamped with the reading of the output clock at
      which its handler runs.
    - Time is counted in sample frames of the 24 kHz output context, so that
      [AudioBuffer.duration] (length / sampleRate) and [currentTime]
      (rendered frames / sampleRate) are integers; one millisecond is 24
      frames. Statements about time use one addition or one maximum of the
      code at a time, and read the same in double arithmetic; where the
      rounding of a sum of several terms or of a mean is in question,
      [Binary64] evaluates the expressions of the code in IEEE doubles.
    - [decodeAudioData] (utils/audioUtils) is a parameter of the session
      model. [LiveView.onmessage] is the handler whose await settles before
      anything else runs; [LiveViewAsync] splits the handler at its await,
      so that callbacks and other handlers run in between. *)

From Stdlib Require Import ZArith List String Bool Lia QArith Qabs Qpower.
From Stdlib Require Import SpecFloat.
Import ListNotations.
Open Scope Z_scope.

(** JavaScript truthiness of a string: the empty string is falsy. *)
Definition truthy (s : string) : bool :=
  match s with EmptyString => false | String _ _ => true end.

(** [a || b] on strings. *)
Definition orElse (a b : string) : string := if truthy a then a else b.

(* ===================================================================== *)
(** * components/LiveView.tsx *)
(* ===================================================================== *)

Module LiveView.

Definition Time := Z.

(** Frames per millisecond at the output rate of 24000 Hz. *)
Definition ms (n : Z) : Time := 24 * n.

(** An AudioBuffer, reduced to its length in sample frames. *)
Record AudioBuffer := mkAudioBuffer { bufferLength : N }.

(** [audioBuffer.duration], in frames. *)
Definition duration (b : AudioBuffer) : Time := Z.of_N (bufferLength b).

(** ** LiveServerMessage, as far as [onmessage] inspects it *)

Record Blob := mkBlob { data : option string }.
Record Part := mkPart { inlineData : option Blob }.
Record Content := mkContent { parts : option (list Part) }.
Record LiveServerContent := mkServerContent {
  modelTurn : option Content;
  interrupted : option bool
}.
Record LiveServerMessage := mkMessage {
  serverContent : option LiveServerContent
}.

Definition bind {A B} (o : option A) (f : A -> option B) : option B :=
  match o with Some a => f a | None => None end.

(** [msg.serverContent?.modelTurn?.parts?.[0]?.inlineData?.data] *)
Definition base64Audio (msg : LiveServerMessage) : option string :=
  bind (serverContent msg) (fun sc =>
  bind (modelTurn sc) (fun mt =>
  bind (parts mt) (fun ps =>
  bind (nth_error ps 0) (fun p =>
  bind (inlineData p) (fun b => data b))))).

(** [msg.serverContent?.interrupted], as a condition. *)
Definition isInterrupted (msg : LiveServerMessage) : bool :=
  match bind (serverContent msg) interrupted with
  | Some true => true
  | _ => false
  end.

(** Outcome of [navigator.mediaDevices.getUserMedia]: a stream, or a
    rejection with a DOMException (NotAllowedError, NotFoundError, ...). *)
Inductive MicResult :=
| MicGranted
| MicRejected (name message : string).

(** ** Calls into the browser and the SDK *)

Inductive Call :=
| NewAudioContext (ctx : nat) (sampleRate : Z)
| AudioContextClose (ctx : nat)
| GetUserMedia (stream : nat)
| TrackStop (stream : nat)
| LiveConnect (session : nat)
| SessionClose (session : nat)
| CaptureStart
| SendRealtimeInput (session : nat) (frame : list Q)
| SourceStart (source : nat) (when : Time) (buffer : AudioBuffer)
| SourceStop (source : nat)
| ConsoleError
| ClearRect (w h : Q)
| BeginPath
| RadialGradient (x y r0 r1 : Q)
| Arc (x y radius : Q)
| Fill.

Record Canvas := mkCanvas {
  width : Z;
  height : Z;
  context2d : bool   (* whether getContext('2d') returns a context *)
}.

(** ** State of one mounted LiveView *)

Record World := mkWorld {
  (* useState *)
  isActive : bool;
  status : string;
  error : option string;
  (* useRef *)
  audioContextRef : option nat;
  inputAudioContextRef : option nat;
  nextStartTimeRef : Time;
  sourcesRef : list nat;          (* Set<AudioBufferSourceNode>, insertion order *)
  sessionPromiseRef : option nat;
  streamRef : option nat;
  canvasRef : option Canvas;
  (* bookkeeping of the embedding *)
  nextId : nat;
  calls : list Call
}.

Definition setIsActive (b : bool) (w : World) : World :=
  mkWorld b (status w) (error w) (audioContextRef w) (inputAudioContextRef w)
    (nextStartTimeRef w) (sourcesRef w) (sessionPromiseRef w) (streamRef w)
    (canvasRef w) (nextId w) (calls w).

Definition setStatus (s : string) (w : World) : World :=
  mkWorld (isActive w) s (error w) (audioContextRef w) (inputAudioContextRef w)
    (nextStartTimeRef w) (sourcesRef w) (sessionPromiseRef w) (streamRef w)
    (canvasRef w) (nextId w) (calls w).

Definition setError (e : option string) (w : World) : World :=
  mkWorld (isActive w) (status w) e (audioContextRef w) (inputAudioContextRef w)
    (nextStartTimeRef w) (sourcesRef w) (sessionPromiseRef w) (streamRef w)
    (canvasRef w) (nextId w) (calls w).

Definition setAudioContextRef (c : option nat) (w : World) : World :=
  mkWorld (isActive w) (status w) (error w) c (inputAudioContextRef w)
    (nextStartTimeRef w) (sourcesRef w) (sessionPromiseRef w) (streamRef w)
    (canvasRef w) (nextId w) (calls w).

Definition setInputAudioContextRef (c : option nat) (w : World) : World :=
  mkWorld (isActive w) (status w) (error w) (audioContextRef w) c
    (nextStartTimeRef w) (sourcesRef w) (sessionPromiseRef w) (streamRef w)
    (canvasRef w) (nextId w) (calls w).

Definition setNextStartTime (t : Time) (w : World) : World :=
  mkWorld (isActive w) (status w) (error w) (audioContextRef w)
    (inputAudioContextRef w) t (sourcesRef w) (sessionPromiseRef w)
    (streamRef w) (canvasRef w) (nextId w) (calls w).

Definition setSources (s : list nat) (w : World) : World :=
  mkWorld (isActive w) (status w) (error w) (audioContextRef w)
    (inputAudioContextRef w) (nextStartTimeRef w) s (sessionPromiseRef w)
    (streamRef w) (canvasRef w) (nextId w) (calls w).

Definition setSessionPromiseRef (p : option nat) (w : World) : World :=
  mkWorld (isActive w) (status w) (error w) (audioContextRef w)
    (inputAudioContextRef w) (nextStartTimeRef w) (sourcesRef w) p
    (streamRef w) (canvasRef w) (nextId w) (calls w).

Definition setStreamRef (s : option nat) (w : World) : World :=
  mkWorld (isActive w) (status w) (error w) (audioContextRef w)
    (inputAudioContextRef w) (nextStartTimeRef w) (sourcesRef w)
    (sessionPromiseRef w) s (canvasRef w) (nextId w) (calls w).

Definition setCanvasRef (c : option Canvas) (w : World) : World :=
  mkWorld (isActive w) (status w) (error w) (audioContextRef w)
    (inputAudioContextRef w) (nextStartTimeRef w) (sourcesRef w)
    (sessionPromiseRef w) (streamRef w) c (nextId w) (calls w).

(** Append calls to the log. *)
Definition emit (cs : list Call) (w : World) : World :=
  mkWorld (isActive w) (status w) (error w) (audioContextRef w)
    (inputAudioContextRef w) (nextStartTimeRef w) (sourcesRef w)
    (sessionPromiseRef w) (streamRef w) (canvasRef w) (nextId w)
    (calls w ++ cs).

(** Allocate a fresh object identifier. *)
Definition fresh (w : World) : nat * World :=
  (nextId w,
   mkWorld (isActive w) (status w) (error w) (audioContextRef w)
     (inputAudioContextRef w) (nextStartTimeRef w) (sourcesRef w)
     (sessionPromiseRef w) (streamRef w) (canvasRef w) (S (nextId w))
     (calls w)).

(** [Set.prototype.add] and [Set.prototype.delete] on object identities. *)
Definition setAdd (x : nat) (s : list nat) : list nat :=
  if existsb (Nat.eqb x) s then s else s ++ [x].

Definition setDelete (x : nat) (s : list nat) : list nat :=
  filter (fun y => negb (Nat.eqb x y)) s.

(** The component as first rendered: the canvas of the JSX is 320 x 320. *)
Definition initialWorld : World :=
  mkWorld false "Ready to connect" None None None 0 [] None None
    (Some (mkCanvas 320 320 true)) 0 [].

Section Session.

(** [decodeAudioData(decode(base64), ctx, 24000, 1)] of utils/audioUtils. *)
Variable decodeAudioData : string -> AudioBuffer.

(** ** startSession *)

(** Lines 165-177: everything before [await getUserMedia]. [t0] is the
    reading of [outputCtx.currentTime] on line 177. *)
Definition startSession_begin (t0 : Time) (w : World) : World :=
  let w := setError None w in
  let w := setStatus "Initializing..." w in
  let '(inputCtx, w) := fresh w in
  let w := emit [NewAudioContext inputCtx 16000] w in
  let '(outputCtx, w) := fresh w in
  let w := emit [NewAudioContext outputCtx 24000] w in
  let w := setInputAudioContextRef (Some inputCtx) w in
  let w := setAudioContextRef (Some outputCtx) w in
  setNextStartTime t0 w.

(** Lines 180-273: the continuation after [await getUserMedia], with the
    [catch] block for a rejection. *)
Definition startSession_resume (r : MicResult) (w : World) : World :=
  match r with
  | MicGranted =>
      let '(stream, w) := fresh w in
      let w := emit [GetUserMedia stream] w in
      let w := setStreamRef (Some stream) w in
      let '(sessionPromise, w) := fresh w in
      let w := emit [LiveConnect sessionPromise] w in
      setSessionPromiseRef (Some sessionPromise) w
  | MicRejected _ message =>
      let w := emit [ConsoleError] w in
      let w := setError (Some (orElse message "Failed to start session")) w in
      setIsActive false w
  end.

(** The whole of [startSession] when nothing else runs during the await. *)
Definition startSession (t0 : Time) (r : MicResult) (w : World) : World :=
  startSession_resume r (startSession_begin t0 w).

(** ** stopSession (lines 276-288) *)

(** [session.close()] is called in a [then] callback of the connect
    promise (line 278), which runs once the rest of [stopSession] is done:
    it is logged last. *)
Definition stopSession (w : World) : World :=
  let sessionPromise := sessionPromiseRef w in
  let w := match streamRef w with
           | Some st => emit [TrackStop st] w
           | None => w
           end in
  let w := match inputAudioContextRef w with
           | Some c => emit [AudioContextClose c] w
           | None => w
           end in
  let w := match audioContextRef w with
           | Some c => emit [AudioContextClose c] w
           | None => w
           end in
  let w := setIsActive false w in
  let w := setStatus "Ready to connect" w in
  let w := setSessionPromiseRef None w in
  match sessionPromise with
  | Some s => emit [SessionClose s] w
  | None => w
  end.

(** ** updateVisualizer (lines 291-316) *)

(** The [for] loop of line 303, from index 0 upwards, in exact arithmetic:
    what the loop computes when no addition rounds. [Binary64.sumAbs] is
    the loop in doubles. *)
Definition sumAbs (data : list Q) : Q :=
  fold_left (fun sum x => (sum + Qabs x)%Q) data 0%Q.

(** Line 304, for a frame that is not empty (on an empty frame the code
    divides 0 by 0). *)
Definition avgOf (data : list Q) : Q :=
  (sumAbs data / inject_Z (Z.of_nat (List.length data)))%Q.

Definition radiusOf (data : list Q) : Q :=
  (50 + avgOf data * 500)%Q.

Definition updateVisualizer (data : list Q) (w : World) : World :=
  match canvasRef w with
  | None => w
  | Some cv =>
      if negb (context2d cv) then w
      else
        let width := inject_Z (width cv) in
        let height := inject_Z (height cv) in
        let radius := radiusOf data in
        emit [ClearRect width height;
              BeginPath;
              RadialGradient (width / 2) (height / 2) (radius * (2 # 10)) radius;
              Arc (width / 2) (height / 2) radius;
              Fill]%Q w
  end.

(** ** Callbacks of the live connection *)

(** Lines 194-218. *)
Definition onopen (w : World) : World :=
  let w := setStatus "Connected" w in
  let w := setIsActive true w in
  emit [CaptureStart] w.

(** Lines 202-214. The frame is sent in a [then] callback of the connect
    promise, which is fulfilled once [onopen] has run; capture starts in
    [onopen], so the send is logged where it is requested. *)
Definition onaudioprocess (inputData : list Q) (w : World) : World :=
  let w := match sessionPromiseRef w with
           | Some s => emit [SendRealtimeInput s inputData] w
           | None => w
           end in
  updateVisualizer inputData w.

(** Lines 223-244 when the decode awaited on line 227 settles before
    anything else runs: one chunk is clamped, decoded, started and
    recorded. [LiveViewAsync] has the two halves. *)
Definition scheduleChunk (now : Time) (payload : string) (w : World) : World :=
  let w := setNextStartTime (Z.max (nextStartTimeRef w) now) w in
  let audioBuffer := decodeAudioData payload in
  let '(source, w) := fresh w in
  let w := emit [SourceStart source (nextStartTimeRef w) audioBuffer] w in
  let w := setNextStartTime (nextStartTimeRef w + duration audioBuffer) w in
  setSources (setAdd source (sourcesRef w)) w.

(** Lines 247-253. *)
Definition interrupt (now : Time) (w : World) : World :=
  let w := emit (map SourceStop (sourcesRef w)) w in
  let w := setSources [] w in
  match audioContextRef w with
  | Some _ => setNextStartTime now w
  | None => w
  end.

(** Lines 219-254, for a handler that nothing overlaps: its await settles
    at once, at one reading [now] of the clock
    ([LiveViewAsyncFacts.onmessage_split]). *)
Definition onmessage (now : Time) (msg : LiveServerMessage) (w : World) : World :=
  let w :=
    match base64Audio msg, audioContextRef w with
    | Some payload, Some _ =>
        if truthy payload then scheduleChunk now payload w else w
    | _, _ => w
    end in
  if isInterrupted msg then interrupt now w else w.

(** Lines 242-244: natural completion of a source. *)
Definition onended (source : nat) (w : World) : World :=
  setSources (setDelete source (sourcesRef w)) w.

(** Lines 255-258. *)
Definition onclose (w : World) : World :=
  let w := setStatus "Disconnected" w in
  setIsActive false w.

(** Lines 259-263. *)
Definition onerror (w : World) : World :=
  let w := emit [ConsoleError] w in
  let w := setError (Some "Connection error occurred."%string) w in
  stopSession w.

(** ** Events and runs *)

Inductive Event :=
| StartSession                      (* startSession, up to its await *)
| MicSettled (r : MicResult)        (* getUserMedia settles *)
| OnOpen
| OnMessage (msg : LiveServerMessage)
| OnEnded (source : nat)
| OnAudioProcess (inputData : list Q)
| OnClose
| OnError
| StopSession                       (* the DISCONNECT button *)
| Unmount.                          (* React detaches the canvas ref, then
                                       the cleanup of the effect, line 320 *)

Definition step (now : Time) (e : Event) (w : World) : World :=
  match e with
  | StartSession => startSession_begin now w
  | MicSettled r => startSession_resume r w
  | OnOpen => onopen w
  | OnMessage msg => onmessage now msg w
  | OnEnded s => onended s w
  | OnAudioProcess d => onaudioprocess d w
  | OnClose => onclose w
  | OnError => onerror w
  | StopSession => stopSession w
  | Unmount => stopSession (setCanvasRef None w)
  end.

Fixpoint run (tr : list (Time * Event)) (w : World) : World :=
  match tr with
  | [] => w
  | (now, e) :: tr' => run tr' (step now e w)
  end.

End Session.

(** ** Reading the call log *)

(** Calls made between two worlds of one run. *)
Definition since (w w' : World) : list Call :=
  skipn (List.length (calls w)) (calls w').

(** The (start, duration) pairs of the sources started, in program order. *)
Fixpoint scheduled (cs : list Call) : list (Time * Time) :=
  match cs with
  | [] => []
  | SourceStart _ when buffer :: cs' => (when, duration buffer) :: scheduled cs'
  | _ :: cs' => scheduled cs'
  end.

Definition isClose (ctx : nat) (c : Call) : bool :=
  match c with AudioContextClose c' => Nat.eqb ctx c' | _ => false end.

Definition isTrackStop (stream : nat) (c : Call) : bool :=
  match c with TrackStop s => Nat.eqb stream s | _ => false end.

Definition isSourceStop (source : nat) (c : Call) : bool :=
  match c with SourceStop s => Nat.eqb source s | _ => false end.

Definition isNewContext (ctx : nat) (c : Call) : bool :=
  match c with NewAudioContext c' _ => Nat.eqb ctx c' | _ => false end.

(** How many times [close()] was called on a context, [stop()] on the track
    of a stream, [stop()] on a source. *)
Definition closeCount (ctx : nat) (cs : list Call) : nat :=
  List.length (filter (isClose ctx) cs).

Definition trackStopCount (stream : nat) (cs : list Call) : nat :=
  List.length (filter (isTrackStop stream) cs).

Definition sourceStopCount (source : nat) (cs : list Call) : nat :=
  List.length (filter (isSourceStop source) cs).

(** A context that was created and never closed. *)
Definition contextOpen (ctx : nat) (cs : list Call) : bool :=
  existsb (isNewContext ctx) cs && Nat.eqb (closeCount ctx cs) 0.

(** The state the claims call session state. *)
Definition sessionState (w : World)
  : bool * option nat * option nat * Time * list nat * option nat * option nat :=
  (isActive w, audioContextRef w, inputAudioContextRef w, nextStartTimeRef w,
   sourcesRef w, sessionPromiseRef w, streamRef w).

(** The audio payload [onmessage] schedules, when the message has one:
    the optional chain yields a non-empty string. *)
Definition chunkOf (msg : LiveServerMessage) : option string :=
  match base64Audio msg with
  | Some payload => if truthy payload then Some payload else None
  | None => None
  end.

(** The arrival of an audio chunk with no interruption signal. *)
Definition isChunkEvent (e : Event) : bool :=
  match e with
  | OnMessage msg =>
      match chunkOf msg with
      | Some _ => negb (isInterrupted msg)
      | None => false
      end
  | _ => false
  end.

(** A message that signals an interruption. *)
Definition isInterruption (e : Event) : bool :=
  match e with OnMessage msg => isInterrupted msg | _ => false end.

Definition isStartSession (e : Event) : bool :=
  match e with StartSession => true | _ => false end.

(** An event that neither starts a new session nor signals an
    interruption. *)
Definition isQuietEvent (e : Event) : bool :=
  negb (isStartSession e) && negb (isInterruption e).

(** The chunk arrivals of a trace, in order. *)
Definition chunkEvents (tr : list (Time * Event)) : list (Time * Event) :=
  filter (fun te => isChunkEvent (snd te)) tr.

(** A message with one audio part and nothing else. *)
Definition audioMessage (payload : string) : LiveServerMessage :=
  mkMessage (Some (mkServerContent
    (Some (mkContent (Some [mkPart (Some (mkBlob (Some payload)))]))) None)).

(** A message that only signals an interruption. *)
Definition interruptedMessage : LiveServerMessage :=
  mkMessage (Some (mkServerContent None (Some true))).

(** Mean absolute amplitude, as the words say: the sum of the absolute
    sample values divided by the number of samples. *)
Fixpoint sumOfAbsoluteValues (data : list Q) : Q :=
  match data with
  | [] => 0%Q
  | x :: rest => (Qabs x + sumOfAbsoluteValues rest)%Q
  end.

Definition meanAbsoluteAmplitude (data : list Q) : Q :=
  (sumOfAbsoluteValues data / inject_Z (Z.of_nat (List.length data)))%Q.

(** The schedule the chunk events of a trace produce from a given cursor:
    each chunk starts at the later of the cursor and its arrival, and moves
    the cursor to its end. *)
Fixpoint planFrom (decodeAudioData : string -> AudioBuffer) (cursor : Time)
    (tr : list (Time * Event)) : list (Time * Time) :=
  match tr with
  | [] => []
  | (now, OnMessage msg) :: tr' =>
      match chunkOf msg with
      | Some payload =>
          let start := Z.max cursor now in
          let d := duration (decodeAudioData payload) in
          (start, d) :: planFrom decodeAudioData (start + d) tr'
      | None => planFrom decodeAudioData cursor tr'
      end
  | _ :: tr' => planFrom decodeAudioData cursor tr'
  end.

(** Start times that follow one another without a gap. *)
Definition backToBack (sched : list (Time * Time)) : Prop :=
  forall n s d s' d',
    nth_error sched n = Some (s, d) ->
    nth_error sched (S n) = Some (s', d') ->
    s' = s + d.

(** Stamps of a trace read off a clock that never runs backwards. *)
Fixpoint stampsFrom (t : Time) (tr : list (Time * Event)) : bool :=
  match tr with
  | [] => true
  | (now, _) :: tr' => (t <=? now) && stampsFrom now tr'
  end.

(** A decoder for closed examples: 1200 frames (50 ms) per character. *)
Definition exampleDecoder (payload : string) : AudioBuffer :=
  mkAudioBuffer (1200 * N.of_nat (String.length payload)).

(** A session that was started at clock 0, got its microphone and was
    acknowledged by the remote end: input context 0, output context 1,
    stream 2, session 3. *)
Definition activeWorld : World :=
  run exampleDecoder
    [(0, StartSession); (0, MicSettled MicGranted); (0, OnOpen)] initialWorld.

(** The same session with one 200 ms chunk scheduled (source 4). *)
Definition playingWorld : World :=
  onmessage exampleDecoder 0 (audioMessage "AAAA") activeWorld.

End LiveView.

(* ===================================================================== *)
(** * App.tsx *)
(* ===================================================================== *)

Module App.

Inductive AppView := DASHBOARD | LIVE | STUDIO | AUDIO_LAB | ANALYSIS.

Definition AppView_eqb (a b : AppView) : bool :=
  match a, b with
  | DASHBOARD, DASHBOARD | LIVE, LIVE | STUDIO, STUDIO
  | AUDIO_LAB, AUDIO_LAB | ANALYSIS, ANALYSIS => true
  | _, _ => false
  end.

(** The views, each receiving the credential as a prop. *)
Inductive Component :=
| ChatView (apiKey : string)
| LiveView (apiKey : string)
| MediaStudio (apiKey : string)
| AudioLab (apiKey : string)
| VideoAnalysis (apiKey : string).

(** What [App] returns. *)
Inductive Element :=
| ErrorScreen (text : string)
| Shell (nav : list AppView) (main : list Component).

(** [cond && <X />] as a child. *)
Definition when (cond : bool) (c : Component) : list Component :=
  if cond then [c] else [].

(** Lines 9-56. [API_KEY] is [process.env.API_KEY], possibly undefined. *)
Definition App (API_KEY : option string) (currentView : AppView) : Element :=
  let apiKey := match API_KEY with
                | Some k => orElse k ""
                | None => ""%string
                end in
  if negb (truthy apiKey) then ErrorScreen "Error: API_KEY missing."
  else
    Shell [DASHBOARD; LIVE; STUDIO; AUDIO_LAB; ANALYSIS]
      (when (AppView_eqb currentView DASHBOARD) (ChatView apiKey) ++
       when (AppView_eqb currentView LIVE) (LiveView apiKey) ++
       when (AppView_eqb currentView STUDIO) (MediaStudio apiKey) ++
       when (AppView_eqb currentView AUDIO_LAB) (AudioLab apiKey) ++
       when (AppView_eqb currentView ANALYSIS) (VideoAnalysis apiKey)).

(** The views mounted by an element; every remote call of the application
    is made by one of them, with the key it was given. *)
Definition mounted (e : Element) : list Component :=
  match e with
  | ErrorScreen _ => []
  | Shell _ main => main
  end.

Definition viewOf (v : AppView) (apiKey : string) : Component :=
  match v with
  | DASHBOARD => ChatView apiKey
  | LIVE => LiveView apiKey
  | STUDIO => MediaStudio apiKey
  | AUDIO_LAB => AudioLab apiKey
  | ANALYSIS => VideoAnalysis apiKey
  end.

End App.

(* ===================================================================== *)
(** * components/ChatView.tsx *)
(* ===================================================================== *)

Module ChatView.

Inductive ModelType :=
| PRO | FLASH | FLASH_LITE | MAPS_MODEL | IMAGE_GEN | IMAGE_EDIT
| VIDEO_FAST | TTS | AUDIO_REALTIME.

(** The part of the component state that configures a request. *)
Record State := mkState {
  selectedMode : ModelType;
  useThinking : bool;
  useSearch : bool;
  useMaps : bool
}.

(** Lines 13-16. *)
Definition initialState : State := mkState PRO false false false.

(** Lines 123-129 and 139-141: the four handlers of the header. *)
Inductive Action :=
| SelectModel (m : ModelType)
| ClickThinking
| ClickSearch
| ClickMaps.

Definition reduce (a : Action) (s : State) : State :=
  match a with
  | SelectModel m => mkState m false false false
  | ClickThinking => mkState (selectedMode s) (negb (useThinking s)) false false
  | ClickSearch => mkState (selectedMode s) false (negb (useSearch s)) false
  | ClickMaps => mkState (selectedMode s) false false (negb (useMaps s))
  end.

Fixpoint reduceAll (acts : list Action) (s : State) : State :=
  match acts with
  | [] => s
  | a :: rest => reduceAll rest (reduce a s)
  end.

Inductive Tool := googleSearch | googleMaps.

Record LatLng := mkLatLng { latitude : Q; longitude : Q }.

(** The [model] and [config] passed to [generateContent]. *)
Record Request := mkRequest {
  model : ModelType;
  tools : option (list Tool);
  thinkingConfig : option Z;       (* thinkingBudget *)
  toolConfig : option LatLng
}.

(** Lines 36-75 of [handleSend]. [position] is what the geolocation
    lookup yields: [None] when the API is absent or the lookup fails. *)
Definition buildRequest (position : option LatLng) (s : State) : Request :=
  let '(modelToUse, tools, thinkingConfig) :=
    if useThinking s then (PRO, [], Some 32768)
    else if useSearch s then (FLASH, [googleSearch], None)
    else if useMaps s then (MAPS_MODEL, [googleMaps], None)
    else (selectedMode s, [], None) in
  mkRequest modelToUse
    (match tools with [] => None | _ => Some tools end)
    thinkingConfig
    (if useMaps s then position else None).

(** How many of the three toggles are on. *)
Definition togglesOn (s : State) : nat :=
  (if useThinking s then 1 else 0) + (if useSearch s then 1 else 0)
  + (if useMaps s then 1 else 0).

Definition hasTool (t : Tool) (r : Request) : bool :=
  match tools r with
  | Some ts => existsb (fun t' => match t, t' with
                                  | googleSearch, googleSearch
                                  | googleMaps, googleMaps => true
                                  | _, _ => false
                                  end) ts
  | None => false
  end.

(** How many of: thinking budget, search tool, maps tool a request has. *)
Definition augmentations (r : Request) : nat :=
  (match thinkingConfig r with Some _ => 1 | None => 0 end)
  + (if hasTool googleSearch r then 1 else 0)
  + (if hasTool googleMaps r then 1 else 0).

End ChatView.

(* ===================================================================== *)
(** * components/LiveView.tsx: further readings of the call log *)
(* ===================================================================== *)

Module LiveViewLog.
Import LiveView.

(** The frames handed to [session.sendRealtimeInput], with the session
    they were sent to, in program order. *)
Fixpoint sentFrames (cs : list Call) : list (nat * list Q) :=
  match cs with
  | [] => []
  | SendRealtimeInput session frame :: cs' => (session, frame) :: sentFrames cs'
  | _ :: cs' => sentFrames cs'
  end.



(** Events that store no session handle: all but a granted microphone. *)
Definition opensNoSession (e : Event) : bool :=
  match e with
  | MicSettled MicGranted => false
  | _ => true
  end.

Definition isOnOpen (e : Event) : bool :=
  match e with OnOpen => true | _ => false end.

Definition isSessionClose (session : nat) (c : Call) : bool :=
  match c with SessionClose s => Nat.eqb session s | _ => false end.

(** How many times [session.close()] was requested for a session. *)
Definition sessionCloseCount (session : nat) (cs : list Call) : nat :=
  List.length (filter (isSessionClose session) cs).

Definition isSourceStart (source : nat) (c : Call) : bool :=
  match c with SourceStart s _ _ => Nat.eqb source s | _ => false end.

(** How many times [start()] was called on a source. *)
Definition sourceStartCount (source : nat) (cs : list Call) : nat :=
  List.length (filter (isSourceStart source) cs).

(** The identifier of the source a call starts or stops, if it does. *)
Definition sourceOf (c : Call) : option nat :=
  match c with
  | SourceStart s _ _ => Some s
  | SourceStop s => Some s
  | _ => None
  end.

(** A message whose parts are given, with no interruption flag. *)
Definition partsMessage (ps : list Part) : LiveServerMessage :=
  mkMessage (Some (mkServerContent (Some (mkContent (Some ps))) None)).

(** A context created earlier that neither context ref holds any more. *)
Definition contextUnreachable (c : nat) (w : World) : Prop :=
  (c < nextId w)%nat /\
  audioContextRef w <> Some c /\ inputAudioContextRef w <> Some c.

(** The bookkeeping of sources a world is expected to satisfy: the set has
    no duplicates, its members were started once and never force-stopped,
    no source was started or force-stopped twice, and identifiers not yet
    handed out occur in no call. *)
Definition sourcesInv (w : World) : Prop :=
  NoDup (sourcesRef w) /\
  (forall s, In s (sourcesRef w) ->
             sourceStartCount s (calls w) = 1%nat /\
             sourceStopCount s (calls w) = 0%nat) /\
  (forall s, (sourceStartCount s (calls w) <= 1)%nat /\
             (sourceStopCount s (calls w) <= 1)%nat) /\
  (forall s, (nextId w <= s)%nat ->
             sourceStartCount s (calls w) = 0%nat /\
             sourceStopCount s (calls w) = 0%nat).

End LiveViewLog.

(* ===================================================================== *)
(** * components/ChatView.tsx: sending a message *)
(* ===================================================================== *)

Module ChatMessages.
Import ChatView.

(** A JavaScript string as its UTF-16 code units. *)
Definition Text := list N.

(** An ASCII literal of the source as code units. *)
Definition lit (s : string) : Text :=
  map Ascii.N_of_ascii (list_ascii_of_string s).

(** The code units [String.prototype.trim] strips: ECMAScript WhiteSpace
    (TAB, VT, FF, ZWNBSP and the space separators) and LineTerminator
    (LF, CR, LS, PS). *)
Definition isWhiteSpace (u : N) : bool :=
  ((u =? 9) || (u =? 10) || (u =? 11) || (u =? 12) || (u =? 13)
   || (u =? 32) || (u =? 160) || (u =? 5760)
   || ((8192 <=? u) && (u <=? 8202))
   || (u =? 8232) || (u =? 8233) || (u =? 8239) || (u =? 8287)
   || (u =? 12288) || (u =? 65279))%N.

Fixpoint trimStart (t : Text) : Text :=
  match t with
  | [] => []
  | u :: t' => if isWhiteSpace u then trimStart t' else t
  end.

Definition trimEnd (t : Text) : Text := rev (trimStart (rev t)).

(** [String.prototype.trim]. *)
Definition trim (t : Text) : Text := trimEnd (trimStart t).

(** Truthiness of a string: non-empty. *)
Definition nonEmpty (t : Text) : bool :=
  match t with [] => false | _ :: _ => true end.

(** [a || b] on possibly undefined strings. *)
Definition textOr (a : option Text) (b : Text) : Text :=
  match a with
  | Some t => if nonEmpty t then t else b
  | None => b
  end.

(** [`${x}`] for a possibly undefined string. *)
Definition interpolate (a : option Text) : Text :=
  match a with Some t => t | None => lit "undefined" end.

Inductive Role := user | model | system.

Record Link := mkLink { uri : option string; title : option string }.

Module GroundingChunk.
Record t := mk { web : option Link; maps : option Link }.
End GroundingChunk.

Record Grounding := mkGrounding {
  search : option (list Link);
  maps : option (list Link)
}.

(** The Message of types.ts, with the fields the chat view fills in. The
    identifier is [Date.now()] (plus one for a reply) before [toString]. *)
Record Message := mkMessage {
  id : Z;
  role : Role;
  text : option Text;
  grounding : option Grounding;
  isThinking : option bool
}.

(** The state of the component: lines 10-16. *)
Record Chat := mkChat {
  messages : list Message;
  input : Text;
  isLoading : bool;
  switches : State
}.

Definition initialChat : Chat := mkChat [] [] false initialState.

(** What a suspended [handleSend] holds on to across its awaits: the
    request it issued and the value of [useThinking] it closed over. *)
Record Pending := mkPending {
  request : Request;
  contents : list (Role * Text);
  thinking : bool
}.

(** How [generateContent] settles: a response with its [text] and
    grounding chunks, or an exception with its [message]. *)
Inductive Outcome :=
| Replied (responseText : option Text)
          (groundingChunks : option (list GroundingChunk.t))
| Threw (message : option Text).

(** Lines 26-84: the guard, the user message, and the request. [now] is
    [Date.now()]; [position] is what the geolocation lookup yields. *)
Definition handleSend_begin (now : Z) (position : option LatLng) (c : Chat)
    : option (Chat * Pending) :=
  if negb (nonEmpty (trim (input c))) || isLoading c then None
  else
    let userMsg := mkMessage now user (Some (input c)) None None in
    Some (mkChat (messages c ++ [userMsg]) [] true (switches c),
          mkPending
            (buildRequest position (switches c))
            (map (fun m => (role m, textOr (text m) []))
                 (messages c ++ [userMsg]))
            (useThinking (switches c))).

(** [chunks?.filter(c => c.web).map(c => ({uri, title}))], lines 90-91. *)
Fixpoint webLinks (chunks : list GroundingChunk.t) : list Link :=
  match chunks with
  | [] => []
  | c :: rest =>
      match GroundingChunk.web c with
      | Some l => mkLink (uri l) (title l) :: webLinks rest
      | None => webLinks rest
      end
  end.

Fixpoint mapLinks (chunks : list GroundingChunk.t) : list Link :=
  match chunks with
  | [] => []
  | c :: rest =>
      match GroundingChunk.maps c with
      | Some l => mkLink (uri l) (title l) :: mapLinks rest
      | None => mapLinks rest
      end
  end.

(** Lines 86-108: the reply, or the error message of the [catch]. *)
Definition replyMessage (p : Pending) (now : Z) (o : Outcome) : Message :=
  match o with
  | Replied responseText chunks =>
      mkMessage (now + 1) model
        (Some (textOr responseText
                 (lit "I couldn't generate a text response.")))
        (Some (mkGrounding (option_map webLinks chunks)
                           (option_map mapLinks chunks)))
        (Some (thinking p))
  | Threw message =>
      mkMessage now model
        (Some (lit "Error: " ++ interpolate message)) None None
  end.

(** Lines 104-111: the message is appended, then [finally]. *)
Definition handleSend_settle (p : Pending) (now : Z) (o : Outcome) (c : Chat)
    : Chat :=
  mkChat (messages c ++ [replyMessage p now o]) (input c) false (switches c).

(** What the header and the input box can do to the state. *)
Inductive ChatEvent :=
| Typed (value : Text)                       (* onChange of the input *)
| Header (a : Action)                        (* a toggle or the select *)
| Send (now : Z) (position : option LatLng)  (* Enter or the button *)
| Settled (now : Z) (o : Outcome).           (* generateContent settles *)

(** The component with at most one suspended [handleSend]. *)
Definition chatStep (e : ChatEvent) (s : Chat * option Pending)
    : Chat * option Pending :=
  let '(c, pending) := s in
  match e with
  | Typed v => (mkChat (messages c) v (isLoading c) (switches c), pending)
  | Header a =>
      (mkChat (messages c) (input c) (isLoading c) (reduce a (switches c)),
       pending)
  | Send now position =>
      match handleSend_begin now position c with
      | Some (c', p) => (c', Some p)
      | None => (c, pending)
      end
  | Settled now o =>
      match pending with
      | Some p => (handleSend_settle p now o c, None)
      | None => (c, None)
      end
  end.

Fixpoint chatRun (es : list ChatEvent) (s : Chat * option Pending)
    : Chat * option Pending :=
  match es with
  | [] => s
  | e :: es' => chatRun es' (chatStep e s)
  end.

(** Roles that alternate, beginning with the given one. *)
Fixpoint alternates (next : Role) (rs : list Role) : bool :=
  match rs, next with
  | [], _ => true
  | user :: rs', user => alternates model rs'
  | model :: rs', model => alternates user rs'
  | _, _ => false
  end.

(** Lines 169 and 182: whether the SOURCES and LOCATIONS sections of a
    message are rendered. *)
Definition showsSources (m : Message) : bool :=
  match grounding m with
  | Some g => match search g with
              | Some l => (0 <? List.length l)%nat
              | None => false
              end
  | None => false
  end.

Definition showsLocations (m : Message) : bool :=
  match grounding m with
  | Some g => match maps g with
              | Some l => (0 <? List.length l)%nat
              | None => false
              end
  | None => false
  end.

(** Line 161: the "Deep Thinking Applied" badge. *)
Definition showsThinking (m : Message) : bool :=
  match isThinking m with Some true => true | _ => false end.

(** The other speaker. *)
Definition flip (r : Role) : Role :=
  match r with user => model | model => user | system => system end.

(** What holds of the component and its suspended send at all times. *)
Definition chatInv (s : Chat * option Pending) : Prop :=
  alternates user (map role (messages (fst s))) = true /\
  isLoading (fst s) = Nat.odd (List.length (messages (fst s))) /\
  (isLoading (fst s) = true <-> snd s <> None).

End ChatMessages.

(* ===================================================================== *)
(** * What the request handlers share *)
(* ===================================================================== *)

Module Js.

(** How an awaited call settles: with a value, or by throwing an error
    whose [message] may be undefined. *)
Inductive Outcome (R : Type) :=
| Ok (r : R)
| Threw (message : option string).
Arguments Ok {R} r.
Arguments Threw {R} message.

(** [`${x}`] for a possibly undefined string. *)
Definition interpolate (a : option string) : string :=
  match a with Some s => s | None => "undefined"%string end.

(** [a || b] for a possibly undefined string [a]. *)
Definition orElseOpt (a : option string) (b : string) : string :=
  match a with Some s => orElse s b | None => b end.

(** [s.includes(sub)]. *)
Fixpoint includes (s sub : string) : bool :=
  prefix sub s
  || match s with
     | EmptyString => false
     | String _ s' => includes s' sub
     end.

End Js.

(* ===================================================================== *)
(** * components/MediaStudio.tsx *)
(* ===================================================================== *)

Module MediaStudio.
Import Js.

Inductive Tab := GENERATE_IMG | EDIT_IMG | VEO_VIDEO | ANIMATE_IMG.

(** The string a tab is in the source. *)
Definition tabName (t : Tab) : string :=
  match t with
  | GENERATE_IMG => "GENERATE_IMG"
  | EDIT_IMG => "EDIT_IMG"
  | VEO_VIDEO => "VEO_VIDEO"
  | ANIMATE_IMG => "ANIMATE_IMG"
  end.

(** A selected file: its [type] and what [blobToBase64] yields for it. *)
Record File := mkFile { fileType : string; base64 : string }.

(** [window.aistudio], when present, with the answer of
    [hasSelectedApiKey]. Its two calls are taken not to throw. *)
Record Aistudio := mkAistudio { hasSelectedApiKey : bool }.

Record Env := mkEnv {
  aistudio : option Aistudio;
  API_KEY : option string;        (* process.env.API_KEY *)
  apiKey : string                 (* the prop *)
}.

(** The argument of [generateVideos], lines 199-214. *)
Record VideoRequest := mkVideoRequest {
  videoModel : ChatView.ModelType;
  numberOfVideos : Z;
  resolution : string;
  videoAspectRatio : string;
  image : option File;
  videoPrompt : string
}.

(** A video operation, as far as the handler reads it: [done],
    [metadata?.state] and [response?.generatedVideos?.[0]?.video?.uri]. *)
Record Operation := mkOperation {
  done : bool;
  state : option string;
  uri : option string
}.

Inductive Call :=
| HasSelectedApiKey
| OpenSelectKey
| GenerateImage (prompt aspectRatio imageSize : string)
| EditImage (file : File) (prompt : string)
| GenerateVideos (payload : VideoRequest)
| Wait (milliseconds : Z)
| GetVideosOperation
| Fetch (url : string).

(** The state of the component (lines 84-93) and the calls it made. *)
Record Studio := mkStudio {
  tab : Tab;
  prompt : string;
  resultUrl : option string;
  isLoading : bool;
  status : string;
  imgSize : string;
  aspectRatio : string;
  selectedFile : option File;
  calls : list Call
}.

Definition initialStudio : Studio :=
  mkStudio GENERATE_IMG EmptyString None false EmptyString "1K" "1:1" None [].

Definition setTab (t : Tab) (s : Studio) : Studio :=
  mkStudio t (prompt s) (resultUrl s) (isLoading s) (status s) (imgSize s)
    (aspectRatio s) (selectedFile s) (calls s).

Definition setResultUrl (u : option string) (s : Studio) : Studio :=
  mkStudio (tab s) (prompt s) u (isLoading s) (status s) (imgSize s)
    (aspectRatio s) (selectedFile s) (calls s).

Definition setIsLoading (b : bool) (s : Studio) : Studio :=
  mkStudio (tab s) (prompt s) (resultUrl s) b (status s) (imgSize s)
    (aspectRatio s) (selectedFile s) (calls s).

Definition setStatus (t : string) (s : Studio) : Studio :=
  mkStudio (tab s) (prompt s) (resultUrl s) (isLoading s) t (imgSize s)
    (aspectRatio s) (selectedFile s) (calls s).

Definition emit (cs : list Call) (s : Studio) : Studio :=
  mkStudio (tab s) (prompt s) (resultUrl s) (isLoading s) (status s)
    (imgSize s) (aspectRatio s) (selectedFile s) (calls s ++ cs).

(** Lines 96-103. *)
Definition ensureVeoKey (env : Env) (s : Studio) : Studio :=
  match aistudio env with
  | Some a =>
      let s := emit [HasSelectedApiKey] s in
      if negb (hasSelectedApiKey a) then emit [OpenSelectKey] s else s
  | None => s
  end.

(** [`data:image/png;base64,${part.inlineData.data}`] *)
Definition dataUrl (b : LiveView.Blob) : string :=
  ("data:image/png;base64," ++ interpolate (LiveView.data b))%string.

(** The loop of lines 129-136 and 164-171: the first part with inline
    data sets the result and ends the loop. The flag is [found]. *)
Fixpoint scanParts (parts : list LiveView.Part) (s : Studio)
    : Studio * bool :=
  match parts with
  | [] => (s, false)
  | part :: rest =>
      match LiveView.inlineData part with
      | Some b => (setResultUrl (Some (dataUrl b)) s, true)
      | None => scanParts rest s
      end
  end.

(** What follows the awaited [generateContent] in both image handlers:
    the loop, the text shown when nothing was found, [catch], [finally].
    The response is given by [candidates?.[0]?.content?.parts]. *)
Definition settleImage (nothingFound : string)
    (o : Outcome (option (list LiveView.Part))) (s : Studio) : Studio :=
  let s :=
    match o with
    | Ok parts =>
        let '(s, found) :=
          scanParts (match parts with Some ps => ps | None => [] end) s in
        if negb found then setStatus nothingFound s else s
    | Threw message => setStatus ("Error: " ++ interpolate message) s
    end in
  setIsLoading false s.

(** Lines 105-126: [handleGenerateImage] up to its request. *)
Definition handleGenerateImage_begin (env : Env) (s : Studio) : Studio :=
  let s := setIsLoading true s in
  let s := setStatus "Generating Image..." s in
  let s := setResultUrl None s in
  let s := if negb (String.eqb (imgSize s) "1K") then ensureVeoKey env s
           else s in
  emit [GenerateImage (prompt s) (aspectRatio s) (imgSize s)] s.

(** Lines 128-143. *)
Definition handleGenerateImage_settle
    (o : Outcome (option (list LiveView.Part))) (s : Studio) : Studio :=
  settleImage "No image generated. Check prompt." o s.

(** Lines 146-162: [handleEditImage] up to its request; [None] when it
    returns at once. *)
Definition handleEditImage_begin (s : Studio) : option Studio :=
  match selectedFile s with
  | None => None
  | Some f =>
      let s := setIsLoading true s in
      let s := setStatus "Editing Image..." s in
      Some (emit [EditImage f (prompt s)] s)
  end.

(** Lines 164-179. *)
Definition handleEditImage_settle
    (o : Outcome (option (list LiveView.Part))) (s : Studio) : Studio :=
  settleImage "No image returned." o s.

(** Lines 199-214. *)
Definition videoRequest (isAnimation : bool) (s : Studio) : VideoRequest :=
  match isAnimation, selectedFile s with
  | true, Some f =>
      mkVideoRequest ChatView.VIDEO_FAST 1 "720p" "16:9" (Some f)
        (orElse (prompt s) "Animate this image")
  | _, _ =>
      mkVideoRequest ChatView.VIDEO_FAST 1 "720p" "16:9" None (prompt s)
  end.

(** The loop of lines 219-223, over the answers of
    [getVideosOperation] that have arrived. [None] means the handler is
    still waiting for the next one. *)
Fixpoint pollLoop (operation : Operation)
    (answers : list (Outcome Operation)) (s : Studio)
    : Studio * option (Outcome Operation) :=
  if done operation then (s, Some (Ok operation))
  else
    let s := emit [Wait 5000; GetVideosOperation] s in
    match answers with
    | [] => (s, None)
    | Ok operation' :: rest =>
        pollLoop operation' rest
          (setStatus ("Rendering... "
                      ++ orElseOpt (state operation') "processing") s)
    | Threw message :: _ => (s, Some (Threw message))
    end.

(** Lines 236-245: the [catch] of [handleVeo]. *)
Definition handleVeo_catch (env : Env) (message : option string)
    (s : Studio) : Studio :=
  if match message with
     | Some m => includes m "Requested entity was not found"
     | None => false
     end
  then
    match aistudio env with
    | Some _ => setStatus "Key reset. Please try again."
                  (emit [OpenSelectKey] s)
    | None => s
    end
  else setStatus ("Error: " ++ interpolate message) s.

(** Where a run of [handleVeo] stands: it has returned, or it is still
    suspended in its polling loop. *)
Inductive Progress :=
| Returned (s : Studio)
| Polling (s : Studio).

(** Lines 181-248. [submitted] is how [generateVideos] settles,
    [answers] the answers of the polls so far, [download] how fetching the
    video and making an object URL of it settles. *)
Definition handleVeo (env : Env) (isAnimation : bool)
    (submitted : Outcome Operation) (answers : list (Outcome Operation))
    (download : Outcome string) (s : Studio) : Progress :=
  let s := ensureVeoKey env s in
  let s := setIsLoading true s in
  let s := setStatus (if isAnimation
                      then "Animating (this takes minutes)..."
                      else "Generating Video (this takes minutes)...") s in
  let s := setResultUrl None s in
  let s := emit [GenerateVideos (videoRequest isAnimation s)] s in
  match submitted with
  | Threw message =>
      Returned (setIsLoading false (handleVeo_catch env message s))
  | Ok operation =>
      match pollLoop operation answers s with
      | (s, None) => Polling s
      | (s, Some (Threw message)) =>
          Returned (setIsLoading false (handleVeo_catch env message s))
      | (s, Some (Ok operation)) =>
          match uri operation with
          | Some u =>
              if truthy u then
                let s := emit [Fetch (u ++ "&key="
                                      ++ orElseOpt (API_KEY env) (apiKey env))]
                           s in
                match download with
                | Ok objectUrl =>
                    Returned (setIsLoading false
                                (setStatus "Complete"
                                   (setResultUrl (Some objectUrl) s)))
                | Threw message =>
                    Returned (setIsLoading false
                                (handleVeo_catch env message s))
                end
              else
                Returned (setIsLoading false
                            (setStatus "Failed to generate video." s))
          | None =>
              Returned (setIsLoading false
                          (setStatus "Failed to generate video." s))
          end
      end
  end.

(** How many polls a run made. *)
Definition pollCount (cs : list Call) : nat :=
  List.length (filter (fun c => match c with
                                | GetVideosOperation => true
                                | _ => false
                                end) cs).

(** [tab.includes('VIDEO') || tab === 'ANIMATE_IMG'], line 328. *)
Definition rendersVideo (s : Studio) : bool :=
  includes (tabName (tab s)) "VIDEO"
  || match tab s with ANIMATE_IMG => true | _ => false end.

Inductive Element := Video (src : string) | Img (src : string).

(** Lines 326-334: the result area. *)
Definition resultElement (s : Studio) : option Element :=
  match resultUrl s with
  | Some u => if truthy u
              then Some (if rendersVideo s then Video u else Img u)
              else None
  | None => None
  end.

(** A part without inline data. *)
Definition noInline (p : LiveView.Part) : Prop := LiveView.inlineData p = None.

(** An outcome that brings no image: no part with inline data, no parts
    at all, or an exception. *)
Definition bringsNoImage (o : Outcome (option (list LiveView.Part))) : Prop :=
  match o with
  | Ok (Some parts) => Forall noInline parts
  | Ok None => True
  | Threw _ => True
  end.

(** What the loop leaves alone. *)
Definition sameButStatus (s s' : Studio) : Prop :=
  tab s' = tab s /\ prompt s' = prompt s /\ resultUrl s' = resultUrl s /\
  isLoading s' = isLoading s /\ selectedFile s' = selectedFile s.

(** The state in which [handleVeo] enters its [try] block. *)
Definition submittedState (env : Env) (isAnimation : bool) (s : Studio)
    : Studio :=
  let s := ensureVeoKey env s in
  let s := setIsLoading true s in
  let s := setStatus (if isAnimation
                      then "Animating (this takes minutes)..."
                      else "Generating Video (this takes minutes)...") s in
  let s := setResultUrl None s in
  emit [GenerateVideos (videoRequest isAnimation s)] s.

(** What [handleVeo] does once the operation is done: lines 225-247. *)
Definition finishVeo (env : Env) (download : Outcome string)
    (operation : Operation) (s : Studio) : Studio :=
  match uri operation with
  | Some u =>
      if truthy u then
        let s := emit [Fetch (u ++ "&key="
                              ++ orElseOpt (API_KEY env) (apiKey env))] s in
        match download with
        | Ok objectUrl =>
            setIsLoading false
              (setStatus "Complete" (setResultUrl (Some objectUrl) s))
        | Threw message =>
            setIsLoading false (handleVeo_catch env message s)
        end
      else setIsLoading false (setStatus "Failed to generate video." s)
  | None => setIsLoading false (setStatus "Failed to generate video." s)
  end.

End MediaStudio.

(* ===================================================================== *)
(** * components/AudioLab.tsx *)
(* ===================================================================== *)

Module AudioLab.
Import Js.

(** The state of the component (lines 11-14), the objects it created and
    the calls it made on them. *)
Record Lab := mkLab {
  text : string;
  transcription : string;
  isProcessing : bool;
  status : string;
  nextId : nat;
  calls : list LiveView.Call
}.

Definition initialLab : Lab := mkLab EmptyString EmptyString false EmptyString 0 [].

(** [response.candidates?.[0]?.content?.parts?.[0]?.inlineData?.data],
    the response given by [candidates?.[0]?.content]. *)
Definition audioOf (content : option LiveView.Content) : option string :=
  LiveView.bind content (fun c =>
  LiveView.bind (LiveView.parts c) (fun ps =>
  LiveView.bind (nth_error ps 0) (fun p =>
  LiveView.bind (LiveView.inlineData p) (fun b => LiveView.data b)))).

(** Lines 16-31: [handleTTS] up to its request, [None] when it returns at
    once. The request text is the second component. *)
Definition handleTTS_begin (l : Lab) : option (Lab * string) :=
  if negb (truthy (text l)) then None
  else
    Some (mkLab (text l) (transcription l) true "Generating Speech..."
            (nextId l) (calls l),
          ("Say cheerfully: " ++ text l)%string).

(** Lines 33-50. [source.start()] starts at once, which is [start(0)]. *)
Definition handleTTS_settle (decodeAudioData : string -> LiveView.AudioBuffer)
    (o : Outcome (option LiveView.Content)) (l : Lab) : Lab :=
  match o with
  | Ok content =>
      match audioOf content with
      | Some base64 =>
          if truthy base64 then
            let ctx := nextId l in
            let source := S (nextId l) in
            mkLab (text l) (transcription l) false "Playing audio..."
              (S (S (nextId l)))
              (calls l ++ [LiveView.NewAudioContext ctx 24000;
                           LiveView.SourceStart source 0
                             (decodeAudioData base64)])
          else
            mkLab (text l) (transcription l) false "No audio generated."
              (nextId l) (calls l)
      | None =>
          mkLab (text l) (transcription l) false "No audio generated."
            (nextId l) (calls l)
      end
  | Threw message =>
      mkLab (text l) (transcription l) false
        ("Error: " ++ interpolate message) (nextId l) (calls l)
  end.

(** Lines 53-68: [handleTranscribe] up to its request. *)
Definition handleTranscribe_begin (l : Lab) : Lab :=
  mkLab (text l) (transcription l) true "Transcribing..." (nextId l) (calls l).

(** Lines 69-75, the response given by its [text]. *)
Definition handleTranscribe_settle (o : Outcome (option string)) (l : Lab)
    : Lab :=
  match o with
  | Ok responseText =>
      mkLab (text l) (orElseOpt responseText "No transcription.") false
        "Done." (nextId l) (calls l)
  | Threw message =>
      mkLab (text l) (transcription l) false
        ("Error: " ++ interpolate message) (nextId l) (calls l)
  end.

(** Line 127: whether the RESULT panel is rendered. *)
Definition showsResult (l : Lab) : bool := truthy (transcription l).

(** Several speech requests settled one after the other. *)
Fixpoint settleAll (decodeAudioData : string -> LiveView.AudioBuffer)
    (os : list (Outcome (option LiveView.Content))) (l : Lab) : Lab :=
  match os with
  | [] => l
  | o :: os' =>
      settleAll decodeAudioData os' (handleTTS_settle decodeAudioData o l)
  end.

(** A response that carries audio to play. *)
Definition audible (o : Outcome (option LiveView.Content)) : bool :=
  match o with
  | Ok content =>
      match audioOf content with
      | Some base64 => truthy base64
      | None => false
      end
  | Threw _ => false
  end.

Definition isNewAudioContext (c : LiveView.Call) : bool :=
  match c with LiveView.NewAudioContext _ _ => true | _ => false end.

(** How many audio contexts were created. *)
Definition contextCount (cs : list LiveView.Call) : nat :=
  List.length (filter isNewAudioContext cs).

End AudioLab.

(* ===================================================================== *)
(** * components/VideoAnalysis.tsx *)
(* ===================================================================== *)

Module VideoAnalysis.
Import Js.

(** The state of the component (lines 361-363); a file is given by its
    [type] and what [blobToBase64] yields for it. *)
Record Analysis := mkAnalysis {
  file : option MediaStudio.File;
  analysis : string;
  isLoading : bool
}.

(** Lines 365-380: [analyze] up to its request, [None] when it returns at
    once; the second component is the file sent. *)
Definition analyze_begin (a : Analysis)
    : option (Analysis * MediaStudio.File) :=
  match file a with
  | None => None
  | Some f => Some (mkAnalysis (file a) (analysis a) true, f)
  end.

(** Lines 381-386, the response given by its [text]. *)
Definition analyze_settle (o : Outcome (option string)) (a : Analysis)
    : Analysis :=
  match o with
  | Ok responseText =>
      mkAnalysis (file a) (orElseOpt responseText "No analysis generated.")
        false
  | Threw message =>
      mkAnalysis (file a) ("Error: " ++ interpolate message) false
  end.

(** Line 417: whether the Analysis Report panel is rendered. *)
Definition showsReport (a : Analysis) : bool := truthy (analysis a).

(** Line 411: whether the button is disabled. *)
Definition buttonDisabled (a : Analysis) : bool :=
  match file a with None => true | Some _ => isLoading a end.

End VideoAnalysis.

(* ===================================================================== *)
(** * components/LiveView.tsx: [onmessage] and its await *)
(* ===================================================================== *)

(** [onmessage] is an async function: between the clamp of line 225 and the
    start of line 237 it awaits [decodeAudioData] (line 227), and until that
    settles any other callback may run, another [onmessage] included. Here
    the handler is split at its await, and a run is a sequence of tasks:
    callbacks, and suspended handlers that resume. [LiveView.onmessage] is
    the handler whose await settles before anything else runs. *)
Module LiveViewAsync.
Import LiveView.

(** An invocation of [onmessage] suspended at line 227: the variables its
    closure holds, and the clock reading it took on line 225. *)
Record Suspended := mkSuspended {
  suspendedMsg : LiveServerMessage;   (* msg *)
  suspendedAudio : string;            (* base64Audio *)
  suspendedCtx : nat;                 (* ctx *)
  arrivedAt : Time                    (* bookkeeping: the reading of line 225 *)
}.

(** The page: the component and the handlers waiting for their decode, in
    the order they were suspended. *)
Record Live := mkLive {
  world : World;
  awaiting : list Suspended
}.

(** A task of the event loop. *)
Inductive Task :=
| Callback (e : Event)    (* a callback runs, [onmessage] up to its await *)
| Decoded (i : nat).      (* the decode awaited by handler [i] settles *)

Section Handler.

(** [decodeAudioData(decode(base64), ctx, 24000, 1)] of utils/audioUtils,
    which is not among the sources: a function of the payload that always
    yields a buffer. How long it takes is left open: the task that resumes
    a handler may come at any later point of a run. *)
Variable decodeAudioData : string -> AudioBuffer.

(** Lines 247-253: the second [if] of the handler. *)
Definition interruptBlock (now : Time) (msg : LiveServerMessage) (w : World)
  : World :=
  if isInterrupted msg then interrupt now w else w.

(** Lines 221-227: the handler up to its await. Without a chunk to decode
    there is no await and the handler runs to its end. *)
Definition onmessage_begin (now : Time) (msg : LiveServerMessage) (w : World)
  : World * option Suspended :=
  match base64Audio msg, audioContextRef w with
  | Some payload, Some ctx =>
      if truthy payload
      then (setNextStartTime (Z.max (nextStartTimeRef w) now) w,
            Some (mkSuspended msg payload ctx now))
      else (interruptBlock now msg w, None)
  | _, _ => (interruptBlock now msg w, None)
  end.

(** Lines 234-244: the decoded chunk is started at the cursor as it is now,
    the cursor is advanced and the source recorded. *)
Definition playDecoded (audioBuffer : AudioBuffer) (w : World) : World :=
  let '(source, w) := fresh w in
  let w := emit [SourceStart source (nextStartTimeRef w) audioBuffer] w in
  let w := setNextStartTime (nextStartTimeRef w + duration audioBuffer) w in
  setSources (setAdd source (sourcesRef w)) w.

(** Lines 227-253: the continuation of a suspended handler. [now] is the
    clock reading of line 251. *)
Definition onmessage_resume (now : Time) (k : Suspended) (w : World) : World :=
  let audioBuffer := decodeAudioData (suspendedAudio k) in
  let w := playDecoded audioBuffer w in
  interruptBlock now (suspendedMsg k) w.

(** [q] without its element of index [i]. *)
Definition dropAt {A} (i : nat) (q : list A) : list A :=
  firstn i q ++ skipn (S i) q.

Definition perform (now : Time) (t : Task) (s : Live) : Live :=
  match t with
  | Callback (OnMessage msg) =>
      let '(w, k) := onmessage_begin now msg (world s) in
      mkLive w (awaiting s ++ match k with Some k => [k] | None => [] end)
  | Callback e => mkLive (step decodeAudioData now e (world s)) (awaiting s)
  | Decoded i =>
      match nth_error (awaiting s) i with
      | Some k => mkLive (onmessage_resume now k (world s))
                    (dropAt i (awaiting s))
      | None => s
      end
  end.

Fixpoint performAll (tr : list (Time * Task)) (s : Live) : Live :=
  match tr with
  | [] => s
  | (now, t) :: tr' => performAll tr' (perform now t s)
  end.

End Handler.

(** A run of callbacks in which every [onmessage] resumes before the next
    task: its decode is the next thing to settle, at the same reading of
    the clock. *)
Fixpoint sequential (tr : list (Time * Event)) : list (Time * Task) :=
  match tr with
  | [] => []
  | (now, OnMessage msg) :: tr' =>
      (now, Callback (OnMessage msg)) :: (now, Decoded 0) :: sequential tr'
  | (now, e) :: tr' => (now, Callback e) :: sequential tr'
  end.

(** A task that neither starts a new session nor is the arrival of an
    interruption signal. *)
Definition isQuietTask (t : Task) : bool :=
  match t with
  | Callback e => isQuietEvent e
  | Decoded _ => true
  end.

Definition isDecoded (t : Task) : bool :=
  match t with
  | Decoded _ => true
  | Callback _ => false
  end.

Definition isRestart (t : Task) : bool :=
  match t with
  | Callback StartSession => true
  | _ => false
  end.

(** Suspended handlers whose message carries no interruption signal. *)
Definition quietSuspended (q : list Suspended) : bool :=
  forallb (fun k => negb (isInterrupted (suspendedMsg k))) q.

(** The arrival of a message with an audio chunk. *)
Definition isArrival (t : Task) : bool :=
  match t with
  | Callback (OnMessage msg) =>
      match chunkOf msg with Some _ => true | None => false end
  | _ => false
  end.

(** The clock readings at which the chunks of a trace arrive. *)
Definition arrivalStamps (tr : list (Time * Task)) : list Time :=
  map fst (filter (fun tt => isArrival (snd tt)) tr).

(** The payloads of the chunks of a trace, in arrival order. *)
Fixpoint arrivals (tr : list (Time * Task)) : list string :=
  match tr with
  | [] => []
  | (_, Callback (OnMessage msg)) :: tr' =>
      match chunkOf msg with
      | Some p => p :: arrivals tr'
      | None => arrivals tr'
      end
  | _ :: tr' => arrivals tr'
  end.

(** Decodes settle in the order they were started. *)
Definition isFifo (tr : list (Time * Task)) : bool :=
  forallb (fun tt => match snd tt with
                     | Decoded i => Nat.eqb i 0
                     | Callback _ => true
                     end) tr.

(** Stamps of a trace read off a clock that never runs backwards. *)
Fixpoint clockFrom (t : Time) (tr : list (Time * Task)) : bool :=
  match tr with
  | [] => true
  | (now, _) :: tr' => (t <=? now) && clockFrom now tr'
  end.

(** Every suspended handler arrived no later than [t] and no later than
    the cursor. *)
Definition arrivedBy (t : Time) (s : Live) : Prop :=
  forall k, In k (awaiting s) ->
            arrivedAt k <= t /\ arrivedAt k <= nextStartTimeRef (world s).

(** The end of the last entry of a schedule, [c] for an empty one. *)
Definition lastEnd (c : Time) (sched : list (Time * Time)) : Time :=
  fold_left (fun _ sd => fst sd + snd sd) sched c.

(** A schedule in which every start is the end of the entry before it
    ([c] for the first entry), or else a later clock reading among [late]. *)
Fixpoint chainFrom (late : list Time) (c : Time) (sched : list (Time * Time))
  : Prop :=
  match sched with
  | [] => True
  | (s, d) :: rest =>
      (s = c \/ (c < s /\ In s late)) /\ chainFrom late (s + d) rest
  end.

(** The cursor stands at the end of the schedule, or at a later reading
    among [late]. *)
Definition cursorFollows (late : list Time) (c0 : Time)
    (sched : list (Time * Time)) (cursor : Time) : Prop :=
  cursor = lastEnd c0 sched \/ (lastEnd c0 sched < cursor /\ In cursor late).

(** The decoded duration of the chunk a suspended handler waits for. *)
Definition pendingDuration (decodeAudioData : string -> AudioBuffer)
    (k : Suspended) : Time :=
  duration (decodeAudioData (suspendedAudio k)).

End LiveViewAsync.

(* ===================================================================== *)
(** * The numbers of the page: IEEE 754 binary64 *)
(* ===================================================================== *)

(** Every number of the component is a JavaScript number. [LiveView] counts
    time in frames and takes samples as rationals, which is exact as long
    as a statement uses one addition or one maximum of the code at a time;
    this module evaluates the same expressions in double precision, by the
    executable specification of the Standard Library, where the rounding of
    a sum of several terms or of a mean is in question. *)
Module Binary64.

Definition double := spec_float.

Definition prec : Z := 53.
Definition emax : Z := 1024.

Definition add (x y : double) : double := SFadd prec emax x y.
Definition mul (x y : double) : double := SFmul prec emax x y.
Definition div (x y : double) : double := SFdiv prec emax x y.

(** [Math.abs]. *)
Definition abs (x : double) : double := SFabs x.

(** An integer literal, or an integer such as [data.length]. *)
Definition ofZ (n : Z) : double := binary_normalize prec emax n 0 false.

(** The rational a finite double stands for; NaN and the infinities stand
    for none. *)
Definition value (x : double) : option Q :=
  match x with
  | S754_zero _ => Some 0%Q
  | S754_finite s m e =>
      Some (inject_Z (if s then Z.neg m else Z.pos m) * Qpower 2 e)%Q
  | S754_infinity _ | S754_nan => None
  end.


(** ** updateVisualizer (lines 291-316) in doubles *)

(** Lines 302-303: [let sum = 0; for (...) sum += Math.abs(data[i])]. *)
Definition sumAbs (data : list double) : double :=
  fold_left (fun sum x => add sum (abs x)) data (ofZ 0).

(** Line 304. *)
Definition avgOf (data : list double) : double :=
  div (sumAbs data) (ofZ (Z.of_nat (List.length data))).

(** Line 307. *)
Definition radiusOf (data : list double) : double :=
  add (ofZ 50) (mul (avgOf data) (ofZ 500)).

(** The calls on the 2d context. *)
Inductive Draw :=
| ClearRect (w h : double)
| BeginPath
| RadialGradient (x y r0 r1 : double)
| Arc (x y radius : double)
| Fill.

(** The literal 0.2 of line 309. *)
Definition oneFifth : double := div (ofZ 2) (ofZ 10).

Definition updateVisualizer (canvas : option LiveView.Canvas)
    (data : list double) : list Draw :=
  match canvas with
  | None => []
  | Some cv =>
      if negb (LiveView.context2d cv) then []
      else
        let width := ofZ (LiveView.width cv) in
        let height := ofZ (LiveView.height cv) in
        let radius := radiusOf data in
        [ClearRect width height;
         BeginPath;
         RadialGradient (div width (ofZ 2)) (div height (ofZ 2))
           (mul radius oneFifth) radius;
         Arc (div width (ofZ 2)) (div height (ofZ 2)) radius;
         Fill]
  end.

(** ** Operations that do not round *)








(** ** The cursor (lines 225-239) in doubles *)

(** [AudioBuffer.duration] and [currentTime] at 24 kHz: a number of frames
    divided by the sample rate. *)
Definition seconds (frames : Z) : double := div (ofZ frames) (ofZ 24000).

(** The starts of chunks played one after the other from [cursor]: each
    source starts at the cursor (line 237), which line 239 then advances by
    the duration of the chunk. *)
Fixpoint startsFrom (cursor : double) (durations : list double)
  : list double :=
  match durations with
  | [] => []
  | d :: rest => cursor :: startsFrom (add cursor d) rest
  end.

End Binary64.

(* ===================================================================== *)
(** * components/LiveView.tsx: what is rendered *)
(* ===================================================================== *)

Module LiveViewRender.
Import LiveView.

(** The parts of the JSX (lines 324-368) that depend on the state. *)
Record View := mkView {
  micIcon : bool;              (* line 344: the idle microphone icon *)
  statusText : string;         (* line 351: the status, before toUpperCase *)
  errorText : option string;   (* line 353: the error paragraph, if shown *)
  buttonLabel : string;        (* line 363 *)
  onClick : Event              (* line 356 *)
}.

Definition render (w : World) : View :=
  mkView
    (negb (isActive w))
    (status w)
    (match error w with
     | Some e => if truthy e then Some e else None
     | None => None
     end)
    (if isActive w then "DISCONNECT" else "INITIALIZE CONNECTION")
    (if isActive w then StopSession else StartSession).

End LiveViewRender.

(* ===================================================================== *)
(** * The realtime session: scheduling, interruption, teardown *)
(* ===================================================================== *)

Module LiveViewFacts.
Import LiveView LiveViewLog LiveViewRender.

(** Evaluates the handlers on a world given by its fields. Reduction is
    by value, so that the copies of the world a setter makes are made of an
    evaluated world. *)
Ltac eval_world :=
  cbv beta iota zeta delta
    [step startSession startSession_begin startSession_resume stopSession
     onopen onclose onerror onended onaudioprocess updateVisualizer
     scheduleChunk interrupt
     setIsActive setStatus setError setAudioContextRef
     setInputAudioContextRef setNextStartTime setSources
     setSessionPromiseRef setStreamRef setCanvasRef emit fresh
     isActive status error audioContextRef inputAudioContextRef
     nextStartTimeRef sourcesRef sessionPromiseRef streamRef canvasRef
     nextId calls context2d width height sessionState since fst snd negb] in *.

(** Splits a world into its fields and the refs into null and non-null. *)
Ltac destruct_world w :=
  destruct w as [active st err [outCtx|] [inCtx|] cursor srcs [sess|]
                   [stream|] [[cw ch [|]]|] next log];
  eval_world.

Section Facts.

Variable dec : string -> AudioBuffer.

(** ** Messages in general *)

(** [onmessage] in terms of [chunkOf]: an optional chunk, then an optional
    interruption. *)
Lemma onmessage_unfold (now : Time) (msg : LiveServerMessage) (w : World) :
  onmessage dec now msg w
  = let w1 := match chunkOf msg, audioContextRef w with
              | Some p, Some _ => scheduleChunk dec now p w
              | _, _ => w
              end in
    if isInterrupted msg then interrupt now w1 else w1.
Proof.
  unfold onmessage, chunkOf.
  destruct (base64Audio msg) as [payload|]; [|reflexivity].
  destruct (truthy payload); destruct (audioContextRef w); reflexivity.
Qed.

(** ** The log only grows *)

Lemma skipn_length_app (A : Type) (l l' : list A) :
  skipn (List.length l) (l ++ l') = l'.
Proof. induction l as [|a l IH]; simpl; auto. Qed.

Lemma step_calls (now : Time) (e : Event) (w : World) :
  exists new, calls (step dec now e w) = calls w ++ new.
Proof.
  destruct e.
  all: try (destruct r).
  all: try (destruct_world w; repeat rewrite <- app_assoc;
            solve [eexists; reflexivity
                  | exists []; symmetry; apply app_nil_r]).
  cbn [step]. rewrite onmessage_unfold. cbv zeta.
  destruct (chunkOf msg) as [p|]; destruct (isInterrupted msg);
    destruct_world w; repeat rewrite <- app_assoc;
    solve [eexists; reflexivity | exists []; symmetry; apply app_nil_r].
Qed.

Lemma run_calls (tr : list (Time * Event)) (w : World) :
  exists new, calls (run dec tr w) = calls w ++ new.
Proof.
  revert w; induction tr as [|[now e] tr IH]; intros w; simpl.
  - exists []. symmetry. apply app_nil_r.
  - destruct (IH (step dec now e w)) as [n2 H2].
    destruct (step_calls now e w) as [n1 H1].
    exists (n1 ++ n2). rewrite H2, H1. apply eq_sym, app_assoc.
Qed.

Lemma calls_since (w w' : World) (new : list Call) :
  calls w' = calls w ++ new -> since w w' = new.
Proof. intros H. unfold since. rewrite H. apply skipn_length_app. Qed.

Lemma scheduled_app (l l' : list Call) :
  scheduled (l ++ l') = scheduled l ++ scheduled l'.
Proof.
  induction l as [|c l IH]; simpl; auto.
  destruct c; simpl; auto. now rewrite IH.
Qed.

Lemma scheduled_stops (l : list nat) : scheduled (map SourceStop l) = [].
Proof. induction l; simpl; auto. Qed.

Lemma duration_nonneg (b : AudioBuffer) : 0 <= duration b.
Proof. unfold duration. lia. Qed.

Lemma scheduled_nonneg (cs : list Call) (s d : Time) :
  In (s, d) (scheduled cs) -> 0 <= d.
Proof.
  induction cs as [|c cs IH]; simpl; [tauto|].
  destruct c; simpl; auto.
  intros [H|H]; auto. inversion H; subst. apply duration_nonneg.
Qed.

(** ** One chunk *)

Lemma onmessage_chunk (now : Time) (msg : LiveServerMessage) (p : string)
    (w : World) :
  chunkOf msg = Some p -> isInterrupted msg = false ->
  audioContextRef w <> None ->
  onmessage dec now msg w = scheduleChunk dec now p w.
Proof.
  unfold chunkOf, onmessage. intros Hc Hi Hctx. rewrite Hi.
  destruct (base64Audio msg) as [payload|]; [|discriminate].
  destruct (truthy payload) eqn:Ht; [|discriminate].
  inversion Hc; subst. destruct (audioContextRef w); [reflexivity|congruence].
Qed.

Lemma scheduleChunk_calls (now : Time) (p : string) (w : World) :
  calls (scheduleChunk dec now p w)
  = calls w ++ [SourceStart (nextId w) (Z.max (nextStartTimeRef w) now) (dec p)].
Proof. reflexivity. Qed.

Lemma scheduleChunk_cursor (now : Time) (p : string) (w : World) :
  nextStartTimeRef (scheduleChunk dec now p w)
  = Z.max (nextStartTimeRef w) now + duration (dec p).
Proof. reflexivity. Qed.

Lemma scheduleChunk_context (now : Time) (p : string) (w : World) :
  audioContextRef (scheduleChunk dec now p w) = audioContextRef w.
Proof. reflexivity. Qed.

Lemma scheduleChunk_sources (now : Time) (p : string) (w : World) :
  sourcesRef (scheduleChunk dec now p w) = setAdd (nextId w) (sourcesRef w).
Proof. reflexivity. Qed.

(** ** A run of chunks follows [planFrom] *)

Lemma chunk_event_inv (e : Event) :
  isChunkEvent e = true ->
  exists msg p, e = OnMessage msg /\ chunkOf msg = Some p
                /\ isInterrupted msg = false.
Proof.
  destruct e; simpl; try discriminate.
  destruct (chunkOf msg) as [p|] eqn:Hc; [|discriminate].
  intros H. exists msg, p. repeat split; auto.
  now destruct (isInterrupted msg).
Qed.

Lemma scheduleChunk_scheduled (now : Time) (p : string) (w : World) :
  scheduled (calls (scheduleChunk dec now p w))
  = scheduled (calls w)
    ++ [(Z.max (nextStartTimeRef w) now, duration (dec p))].
Proof. rewrite scheduleChunk_calls, scheduled_app. reflexivity. Qed.

(** Any other quiet event leaves the cursor, the output context ref and the
    list of started sources as they were. *)
Lemma step_quiet_other (now : Time) (e : Event) (w : World) :
  isQuietEvent e = true -> isChunkEvent e = false ->
  nextStartTimeRef (step dec now e w) = nextStartTimeRef w /\
  audioContextRef (step dec now e w) = audioContextRef w /\
  scheduled (calls (step dec now e w)) = scheduled (calls w).
Proof.
  unfold isQuietEvent. destruct e; cbn [isStartSession isInterruption negb andb];
    intros Hq Hc; try discriminate.
  3: { cbn [step]. rewrite onmessage_unfold. cbv zeta.
       cbn [isChunkEvent] in Hc.
       destruct (isInterrupted msg); [discriminate|].
       destruct (chunkOf msg); [discriminate|]. auto. }
  all: try (destruct r).
  all: destruct_world w; repeat rewrite scheduled_app;
    cbn [scheduled]; repeat rewrite app_nil_r; auto.
Qed.

Lemma run_quiet_scheduled_calls (tr : list (Time * Event)) (w : World) :
  audioContextRef w <> None ->
  forallb (fun te => isQuietEvent (snd te)) tr = true ->
  scheduled (calls (run dec tr w))
  = scheduled (calls w) ++ planFrom dec (nextStartTimeRef w) (chunkEvents tr).
Proof.
  revert w; induction tr as [|[now e] tr IH]; intros w Hctx Hall.
  - cbn. now rewrite app_nil_r.
  - cbn [forallb snd] in Hall. apply andb_prop in Hall as [Hq Hall].
    cbn [run chunkEvents filter snd]. fold (chunkEvents tr).
    destruct (isChunkEvent e) eqn:Hc.
    + destruct (chunk_event_inv e Hc) as (msg & p & -> & Hp & Hi).
      cbn [step planFrom]. rewrite Hp.
      rewrite (onmessage_chunk now msg p w Hp Hi Hctx).
      rewrite IH; [|exact Hctx|exact Hall].
      rewrite scheduleChunk_scheduled, scheduleChunk_cursor, <- app_assoc.
      reflexivity.
    + destruct (step_quiet_other now e w Hq Hc) as (Hn & Ha & Hs).
      rewrite IH; [|now rewrite Ha|exact Hall].
      now rewrite Hn, Hs.
Qed.

Lemma run_quiet_scheduled (tr : list (Time * Event)) (w : World) :
  audioContextRef w <> None ->
  forallb (fun te => isQuietEvent (snd te)) tr = true ->
  scheduled (since w (run dec tr w))
  = planFrom dec (nextStartTimeRef w) (chunkEvents tr).
Proof.
  intros Hctx Hall.
  destruct (run_calls tr w) as [new Hnew].
  pose proof (run_quiet_scheduled_calls tr w Hctx Hall) as H.
  rewrite Hnew, scheduled_app in H. apply app_inv_head in H.
  now rewrite (calls_since _ _ _ Hnew).
Qed.

Lemma chunkEvents_chunks (tr : list (Time * Event)) :
  forallb (fun te => isChunkEvent (snd te)) (chunkEvents tr) = true.
Proof.
  apply forallb_forall. intros x Hx.
  apply filter_In in Hx. tauto.
Qed.

Lemma planFrom_length (tr : list (Time * Event)) (c : Time) :
  forallb (fun te => isChunkEvent (snd te)) tr = true ->
  List.length (planFrom dec c tr) = List.length tr.
Proof.
  revert c; induction tr as [|[now e] tr IH]; intros c Hall; [reflexivity|].
  simpl in Hall. apply andb_prop in Hall as [He Hall].
  destruct (chunk_event_inv e He) as (msg & p & -> & Hc & Hi).
  simpl. rewrite Hc. simpl. now rewrite IH.
Qed.

Lemma planFrom_head (tr : list (Time * Event)) (c now s d : Time) (e : Event) :
  forallb (fun te => isChunkEvent (snd te)) tr = true ->
  nth_error tr 0 = Some (now, e) ->
  nth_error (planFrom dec c tr) 0 = Some (s, d) ->
  s = Z.max c now.
Proof.
  destruct tr as [|[now0 e0] tr]; simpl; [discriminate|].
  intros Hall Ht. apply andb_prop in Hall as [He Hall].
  destruct (chunk_event_inv e0 He) as (msg & p & -> & Hc & Hi).
  rewrite Hc. simpl. intros Hs. inversion Ht; inversion Hs; subst. reflexivity.
Qed.

Lemma planFrom_next (tr : list (Time * Event)) (c : Time) (n : nat)
    (s d now' s' d' : Time) (e' : Event) :
  forallb (fun te => isChunkEvent (snd te)) tr = true ->
  nth_error (planFrom dec c tr) n = Some (s, d) ->
  nth_error tr (S n) = Some (now', e') ->
  nth_error (planFrom dec c tr) (S n) = Some (s', d') ->
  s' = Z.max (s + d) now'.
Proof.
  revert c n; induction tr as [|[now e] tr IH]; intros c n Hall.
  - destruct n; discriminate.
  - simpl in Hall. apply andb_prop in Hall as [He Hall].
    destruct (chunk_event_inv e He) as (msg & p & -> & Hc & Hi).
    simpl. rewrite Hc. destruct n as [|n]; simpl.
    + intros Hs Ht Hs'. inversion Hs; subst.
      eapply planFrom_head; eauto.
    + intros Hs Ht Hs'. eapply IH; eauto.
Qed.

Lemma planFrom_scheduled_nonneg (tr : list (Time * Event)) (w : World)
    (n : nat) (s d : Time) :
  nth_error (scheduled (since w (run dec tr w))) n = Some (s, d) -> 0 <= d.
Proof. intros H. eapply scheduled_nonneg, nth_error_In, H. Qed.

Lemma chunkOf_audioMessage (p : string) :
  truthy p = true -> chunkOf (audioMessage p) = Some p.
Proof. intros H. unfold chunkOf. simpl. now rewrite H. Qed.

Lemma audioMessage_chunk_event (p : string) :
  truthy p = true -> isChunkEvent (OnMessage (audioMessage p)) = true.
Proof. intros H. simpl. now rewrite (chunkOf_audioMessage p H). Qed.

Lemma setAdd_keeps (x y : nat) (s : list nat) : In y s -> In y (setAdd x s).
Proof.
  unfold setAdd. destruct (existsb (Nat.eqb x) s); auto.
  intros H. apply in_or_app. now left.
Qed.

Lemma setAdd_has (x : nat) (s : list nat) : In x (setAdd x s).
Proof.
  unfold setAdd. destruct (existsb (Nat.eqb x) s) eqn:E.
  - apply existsb_exists in E as (y & Hy & Hxy).
    apply Nat.eqb_eq in Hxy. now subst.
  - apply in_or_app. right. now left.
Qed.

Lemma interrupt_spec (now : Time) (w : World) :
  audioContextRef w <> None ->
  sourcesRef (interrupt now w) = [] /\
  nextStartTimeRef (interrupt now w) = now /\
  calls (interrupt now w) = calls w ++ map SourceStop (sourcesRef w).
Proof.
  intros H. destruct_world w; try congruence; auto.
Qed.

(** C3. In every state of a started session, whatever the number of pending
    sources, handling a message that signals an interruption leaves the set
    of scheduled sources empty and the cursor equal to the clock reading of
    the handler, and [stop()] has been called on every source that was
    pending, and on the one the same message scheduled, if any. *)
Theorem interruption_clears_schedule (w : World) (now : Time)
    (msg : LiveServerMessage) :
  audioContextRef w <> None ->
  isInterrupted msg = true ->
  let w' := onmessage dec now msg w in
  sourcesRef w' = [] /\
  nextStartTimeRef w' = now /\
  (forall s, In s (sourcesRef w) -> In (SourceStop s) (since w w')) /\
  (forall p, chunkOf msg = Some p -> In (SourceStop (nextId w)) (since w w')).
Proof.
  intros Hctx Hi w'. subst w'. rewrite onmessage_unfold, Hi. cbv zeta.
  destruct (audioContextRef w) as [c|] eqn:Ec; [|congruence].
  destruct (chunkOf msg) as [p|].
  - destruct (interrupt_spec now (scheduleChunk dec now p w)) as (Hs & Hn & Hl).
    { rewrite scheduleChunk_context, Ec. discriminate. }
    rewrite scheduleChunk_calls, <- app_assoc in Hl.
    rewrite (calls_since _ _ _ Hl), Hs, Hn, scheduleChunk_sources.
    repeat split.
    + intros s Hin. apply in_or_app. right.
      apply in_map. now apply setAdd_keeps.
    + intros _ _. apply in_or_app. right. apply in_map, setAdd_has.
  - destruct (interrupt_spec now w) as (Hs & Hn & Hl).
    { rewrite Ec. discriminate. }
    rewrite (calls_since _ _ _ Hl), Hs, Hn. repeat split.
    + intros s Hin. now apply in_map.
    + discriminate.
Qed.

(** ** Pending sources belong to a started session *)

Lemma step_sources_need_context (now : Time) (e : Event) (w : World) :
  (audioContextRef w = None -> sourcesRef w = []) ->
  audioContextRef (step dec now e w) = None ->
  sourcesRef (step dec now e w) = [].
Proof.
  destruct e.
  4: { cbn [step]. rewrite onmessage_unfold. cbv zeta.
       destruct (chunkOf msg) as [p|]; destruct (isInterrupted msg);
         destruct_world w; intros H H'; try discriminate; auto. }
  all: try (destruct r).
  all: destruct_world w; intros H H'; try discriminate; auto.
  all: rewrite (H eq_refl); reflexivity.
Qed.

Lemma run_sources_need_context (tr : list (Time * Event)) (w : World) :
  (audioContextRef w = None -> sourcesRef w = []) ->
  audioContextRef (run dec tr w) = None ->
  sourcesRef (run dec tr w) = [].
Proof.
  revert w; induction tr as [|[now e] tr IH]; intros w H; simpl; auto.
  apply IH. now apply step_sources_need_context.
Qed.

(** In every state reached from the first render, pending sources imply
    that a session was started, which is what the interruption and
    scheduling theorems assume. *)
Lemma pending_sources_imply_started (tr : list (Time * Event)) :
  sourcesRef (run dec tr initialWorld) <> [] ->
  audioContextRef (run dec tr initialWorld) <> None.
Proof.
  intros Hs Hc. apply Hs.
  apply run_sources_need_context; auto.
Qed.

(** ** The cursor along a run *)

Lemma onmessage_cursor (now : Time) (msg : LiveServerMessage) (w : World) :
  nextStartTimeRef w <= nextStartTimeRef (onmessage dec now msg w) \/
  (isInterrupted msg = true /\
   nextStartTimeRef (onmessage dec now msg w) = now).
Proof.
  rewrite onmessage_unfold. cbv zeta.
  set (w1 := match chunkOf msg, audioContextRef w with
             | Some p, Some _ => scheduleChunk dec now p w
             | _, _ => w
             end).
  assert (H1 : nextStartTimeRef w <= nextStartTimeRef w1).
  { subst w1. destruct (chunkOf msg) as [p|]; [|lia].
    destruct (audioContextRef w); [|lia].
    rewrite scheduleChunk_cursor. pose proof (duration_nonneg (dec p)). lia. }
  destruct (isInterrupted msg); [|now left].
  clearbody w1. destruct_world w1; (right; split; reflexivity) || now left.
Qed.

Lemma step_cursor (now : Time) (e : Event) (w : World) :
  isStartSession e = false ->
  nextStartTimeRef w <= nextStartTimeRef (step dec now e w) \/
  (isInterruption e = true /\ nextStartTimeRef (step dec now e w) = now).
Proof.
  destruct e; simpl; intros Hs; try discriminate;
    try apply onmessage_cursor; left.
  all: try (destruct r).
  all: destruct_world w; lia.
Qed.

(** C4. Along every run of session events (chunk arrivals, interruptions,
    and every other callback short of starting a new session), each step
    either leaves the cursor where it was or moves it forward, or else is
    the handling of an interruption signal that sets it exactly to the clock
    reading of the handler. *)
Theorem cursor_monotone_except_interruption (tr : list (Time * Event))
    (w : World) :
  forallb (fun te => negb (isStartSession (snd te))) tr = true ->
  forall pre now e post,
    tr = pre ++ (now, e) :: post ->
    let w1 := run dec pre w in
    let w2 := step dec now e w1 in
    nextStartTimeRef w1 <= nextStartTimeRef w2 \/
    (isInterruption e = true /\ nextStartTimeRef w2 = now).
Proof.
  intros Hall pre now e post ->. cbv zeta. apply step_cursor.
  rewrite forallb_app in Hall. apply andb_prop in Hall as [_ Hall].
  simpl in Hall. apply andb_prop in Hall as [He _].
  now destruct (isStartSession e).
Qed.

(** ** Teardown *)

Lemma stopSession_sources (w : World) :
  sourcesRef (stopSession w) = sourcesRef w.
Proof.
  destruct_world w; reflexivity.
Qed.

End Facts.

Lemma interruption_clears_schedule_witness :
  audioContextRef playingWorld <> None /\
  isInterrupted interruptedMessage = true /\
  sourcesRef (onmessage exampleDecoder (ms 50) interruptedMessage playingWorld)
  = [] /\
  nextStartTimeRef
    (onmessage exampleDecoder (ms 50) interruptedMessage playingWorld)
  = ms 50.
Proof.
  assert (Hctx : audioContextRef playingWorld <> None)
    by (vm_compute; discriminate).
  split; [exact Hctx|]. split; [reflexivity|].
  destruct (interruption_clears_schedule exampleDecoder playingWorld (ms 50)
              interruptedMessage Hctx eq_refl) as (A & B & _).
  split; [exact A | exact B].
Defined.

Lemma cursor_monotone_except_interruption_witness :
  forallb (fun te => negb (isStartSession (snd te)))
    [(0, OnMessage (audioMessage "AAAA"));
     (ms 50, OnMessage interruptedMessage)] = true /\
  (let w1 := run exampleDecoder [(0, OnMessage (audioMessage "AAAA"))]
               activeWorld in
   let w2 := step exampleDecoder (ms 50) (OnMessage interruptedMessage) w1 in
   nextStartTimeRef w1 <= nextStartTimeRef w2 \/
   (isInterruption (OnMessage interruptedMessage) = true /\
    nextStartTimeRef w2 = ms 50)).
Proof.
  split; [reflexivity|].
  exact (cursor_monotone_except_interruption exampleDecoder
           [(0, OnMessage (audioMessage "AAAA"));
            (ms 50, OnMessage interruptedMessage)]
           activeWorld eq_refl
           [(0, OnMessage (audioMessage "AAAA"))] (ms 50)
           (OnMessage interruptedMessage) [] eq_refl).
Defined.

(** ** Teardown on the three stop triggers, and on a failed start *)

(** C5, evaluated. The user's stop and a transport error release the
    microphone track and close both contexts, each once; the remote close
    callback makes no call at all, so after it the session is inactive with
    the microphone and both contexts still open. No stop path calls
    [stop()] on a scheduled source or empties the set. *)
Theorem remote_close_releases_nothing :
  (forall w, calls (onclose w) = calls w /\
             isActive (onclose w) = false /\
             streamRef (onclose w) = streamRef w /\
             audioContextRef (onclose w) = audioContextRef w /\
             inputAudioContextRef (onclose w) = inputAudioContextRef w) /\
  (forall w, sourcesRef (stopSession w) = sourcesRef w) /\
  isActive playingWorld = true /\
  (let w := stopSession playingWorld in
   isActive w = false /\
   closeCount 0 (calls w) = 1%nat /\ closeCount 1 (calls w) = 1%nat /\
   trackStopCount 2 (calls w) = 1%nat /\
   sourcesRef w = [4%nat] /\ sourceStopCount 4 (calls w) = 0%nat) /\
  (let w := onerror playingWorld in
   isActive w = false /\
   closeCount 0 (calls w) = 1%nat /\ closeCount 1 (calls w) = 1%nat /\
   trackStopCount 2 (calls w) = 1%nat /\
   sourcesRef w = [4%nat] /\ sourceStopCount 4 (calls w) = 0%nat) /\
  (let w := onclose playingWorld in
   isActive w = false /\
   closeCount 0 (calls w) = 0%nat /\ closeCount 1 (calls w) = 0%nat /\
   trackStopCount 2 (calls w) = 0%nat /\
   contextOpen 0 (calls w) = true /\ contextOpen 1 (calls w) = true /\
   sourcesRef w = [4%nat] /\ sourceStopCount 4 (calls w) = 0%nat).
Proof.
  split; [intros w; repeat split|].
  split; [apply stopSession_sources|].
  vm_compute. repeat split.
Qed.

(** C6, evaluated. When [getUserMedia] rejects, the [catch] block of
    [startSession] reports the error and clears the active flag, and makes
    no other call: the two audio contexts created before the await are still
    referenced and were never closed. The [onerror] callback, in contrast,
    runs [stopSession]. *)
Theorem failed_start_leaves_contexts_open :
  (forall t0 name message w,
     let w' := startSession t0 (MicRejected name message) w in
     error w' = Some (orElse message "Failed to start session") /\
     isActive w' = false /\
     inputAudioContextRef w' = Some (nextId w) /\
     audioContextRef w' = Some (S (nextId w)) /\
     since w w' = [NewAudioContext (nextId w) 16000;
                   NewAudioContext (S (nextId w)) 24000;
                   ConsoleError]) /\
  (let w' := startSession 0 (MicRejected "NotAllowedError" "Permission denied")
               initialWorld in
   error w' = Some "Permission denied"%string /\
   contextOpen 0 (calls w') = true /\ contextOpen 1 (calls w') = true /\
   closeCount 0 (calls w') = 0%nat /\ closeCount 1 (calls w') = 0%nat) /\
  (let w' := onerror activeWorld in
   error w' = Some "Connection error occurred."%string /\
   contextOpen 0 (calls w') = false /\ contextOpen 1 (calls w') = false /\
   closeCount 0 (calls w') = 1%nat /\ closeCount 1 (calls w') = 1%nat /\
   trackStopCount 2 (calls w') = 1%nat).
Proof.
  split.
  - intros t0 name message w.
    assert (Hc : calls (startSession t0 (MicRejected name message) w)
                 = calls w ++ [NewAudioContext (nextId w) 16000;
                               NewAudioContext (S (nextId w)) 24000;
                               ConsoleError]).
    { destruct_world w; repeat rewrite <- app_assoc; reflexivity. }
    cbv zeta. rewrite (calls_since _ _ _ Hc).
    destruct_world w; repeat split.
  - vm_compute. repeat split.
Qed.

(** C7. Whenever [getUserMedia] rejects, whatever ran during the await,
    the continuation of [startSession] makes the error paragraph appear
    with a text that is not empty: the message of the rejection, or
    "Failed to start session" when the rejection has an empty message. The
    session is left inactive: the button offers INITIALIZE CONNECTION and is
    bound to [startSession], no stream is acquired, no connection is opened
    and no session handle is stored, so that without a session handle
    before the attempt there is none after it and no input frame is sent;
    and a new attempt with the microphone granted reaches the active state
    with the error cleared. The status line keeps the text it had (the
    attempt itself had set it to "Initializing..."). *)
Theorem mic_rejection_reported_and_inactive :
  (forall name message w,
     let w' := startSession_resume (MicRejected name message) w in
     errorText (render w')
     = Some (if truthy message then message
             else "Failed to start session"%string) /\
     (exists text, errorText (render w') = Some text /\ truthy text = true) /\
     isActive w' = false /\
     micIcon (render w') = true /\
     buttonLabel (render w') = "INITIALIZE CONNECTION"%string /\
     onClick (render w') = StartSession /\
     sessionPromiseRef w' = sessionPromiseRef w /\
     streamRef w' = streamRef w /\
     status w' = status w /\
     since w w' = [ConsoleError]) /\
  (forall t0 name message w,
     sessionPromiseRef w = None ->
     let w' := startSession t0 (MicRejected name message) w in
     isActive w' = false /\
     sessionPromiseRef w' = None /\
     streamRef w' = streamRef w /\
     (forall frame, sentFrames (since w' (onaudioprocess frame w')) = [])) /\
  (forall t0 t1 name message w,
     let w' := startSession t0 (MicRejected name message) w in
     let w'' := onopen (startSession t1 MicGranted w') in
     isActive w'' = true /\
     errorText (render w'') = None /\
     status w'' = "Connected"%string /\
     sessionPromiseRef w'' <> None /\
     buttonLabel (render w'') = "DISCONNECT"%string).
Proof.
  split; [|split].
  - intros name message w.
    assert (Hc : calls (startSession_resume (MicRejected name message) w)
                 = calls w ++ [ConsoleError])
      by (destruct_world w; reflexivity).
    cbv zeta. rewrite (calls_since _ _ _ Hc).
    assert (He : errorText (render (startSession_resume
                                      (MicRejected name message) w))
                 = Some (if truthy message then message
                         else "Failed to start session"%string)).
    { destruct w; unfold render, startSession_resume, orElse.
      cbn. destruct (truthy message) eqn:E; [now rewrite E | reflexivity]. }
    split; [exact He|]. split.
    { rewrite He. eexists. split; [reflexivity|].
      destruct (truthy message) eqn:E; [exact E | reflexivity]. }
    destruct_world w; repeat split.
  - intros t0 name message w Hs. cbv zeta.
    assert (Hn : sessionPromiseRef (startSession t0 (MicRejected name message) w)
                 = None).
    { destruct_world w; cbn in Hs; congruence. }
    split; [destruct_world w; reflexivity|]. split; [exact Hn|].
    split; [destruct_world w; reflexivity|].
    intros frame.
    set (w' := startSession t0 (MicRejected name message) w) in *.
    clearbody w'.
    assert (Hc : exists new, calls (onaudioprocess frame w') = calls w' ++ new
                             /\ sentFrames new = []).
    { destruct_world w'; cbn in Hn; try discriminate;
        first [ exists []; split; [symmetry; apply app_nil_r | reflexivity]
              | eexists; split; [reflexivity | reflexivity] ]. }
    destruct Hc as (new & Hc & Hsent).
    now rewrite (calls_since _ _ _ Hc).
  - intros t0 t1 name message w. cbv zeta.
    destruct_world w; repeat split; discriminate.
Qed.

Lemma mic_rejection_reported_and_inactive_witness :
  sessionPromiseRef initialWorld = None /\
  (let w' := startSession 0 (MicRejected "NotAllowedError" "") initialWorld in
   errorText (render w') = Some "Failed to start session"%string /\
   isActive w' = false /\
   sessionPromiseRef w' = None).
Proof.
  split; [reflexivity|].
  destruct (proj1 (proj2 mic_rejection_reported_and_inactive) 0
              "NotAllowedError"%string EmptyString initialWorld eq_refl)
    as (A & B & _).
  split; [vm_compute; reflexivity|]. split; [exact A | exact B].
Defined.

(** ** The visualizer *)

Lemma fold_sumAbs (data : list Q) (acc : Q) :
  (fold_left (fun sum x => sum + Qabs x) data acc
   == acc + sumOfAbsoluteValues data)%Q.
Proof.
  revert acc; induction data as [|x data IH]; intros acc;
    cbn [fold_left sumOfAbsoluteValues].
  - ring.
  - rewrite IH. ring.
Qed.

Lemma avgOf_mean (data : list Q) :
  (avgOf data == meanAbsoluteAmplitude data)%Q.
Proof.
  unfold avgOf, meanAbsoluteAmplitude, sumAbs.
  rewrite fold_sumAbs. now rewrite Qplus_0_l.
Qed.










End LiveViewFacts.

(* ===================================================================== *)
(** * The credential gate of the shell *)
(* ===================================================================== *)

Module AppFacts.

Lemma orElse_empty (k : string) : orElse k "" = k.
Proof. destruct k; reflexivity. Qed.

Lemma mounted_view (v : App.AppView) (k : string) :
  App.when (App.AppView_eqb v App.DASHBOARD) (App.ChatView k) ++
  App.when (App.AppView_eqb v App.LIVE) (App.LiveView k) ++
  App.when (App.AppView_eqb v App.STUDIO) (App.MediaStudio k) ++
  App.when (App.AppView_eqb v App.AUDIO_LAB) (App.AudioLab k) ++
  App.when (App.AppView_eqb v App.ANALYSIS) (App.VideoAnalysis k)
  = [App.viewOf v k].
Proof. destruct v; reflexivity. Qed.

(** C8. When the API key is undefined or empty, [App] returns the error
    screen with the text "Error: API_KEY missing." and mounts no view, for
    every current view; when it is a non-empty string, [App] returns the
    shell with the five navigation entries and mounts exactly the view
    selected, handing it that key. *)
Theorem missing_api_key_blocks_the_app (currentView : App.AppView) :
  App.App None currentView = App.ErrorScreen "Error: API_KEY missing." /\
  App.App (Some ""%string) currentView
  = App.ErrorScreen "Error: API_KEY missing." /\
  App.mounted (App.App None currentView) = [] /\
  App.mounted (App.App (Some ""%string) currentView) = [] /\
  (forall k : string,
     k <> ""%string ->
     App.App (Some k) currentView
     = App.Shell [App.DASHBOARD; App.LIVE; App.STUDIO; App.AUDIO_LAB;
                  App.ANALYSIS]
                 [App.viewOf currentView k] /\
     App.mounted (App.App (Some k) currentView) = [App.viewOf currentView k]).
Proof.
  repeat split; try reflexivity.
  - unfold App.App. rewrite orElse_empty.
    destruct k as [|c k]; [congruence|]. cbn [truthy negb].
    now rewrite mounted_view.
  - unfold App.App. rewrite orElse_empty.
    destruct k as [|c k]; [congruence|]. cbn [truthy negb App.mounted].
    apply mounted_view.
Qed.

Lemma missing_api_key_blocks_the_app_witness :
  "k3y"%string <> ""%string /\
  App.mounted (App.App (Some "k3y"%string) App.LIVE)
  = [App.LiveView "k3y"].
Proof.
  split; [discriminate|].
  exact (proj2 (proj2 (proj2 (proj2 (proj2
           (missing_api_key_blocks_the_app App.LIVE))))
           "k3y"%string ltac:(discriminate))).
Defined.

End AppFacts.

(* ===================================================================== *)
(** * The tool toggles of the chat view *)
(* ===================================================================== *)

Module ChatViewFacts.
Import ChatView.

Lemma reduce_togglesOn (a : Action) (s : State) :
  (togglesOn (reduce a s) <= 1)%nat.
Proof.
  destruct a as [m'| | |], s as [m [|] [|] [|]]; cbv; repeat constructor.
Qed.

Lemma buildRequest_augmentations (position : option LatLng) (s : State) :
  (augmentations (buildRequest position s) <= togglesOn s)%nat /\
  (augmentations (buildRequest position s) <= 1)%nat.
Proof.
  destruct s as [m [|] [|] [|]]; cbv; repeat constructor.
Qed.

(** C10. After any click on one of the three toggles and after any manual
    model selection, whatever the state before, at most one of useThinking,
    useSearch and useMaps is true; the same holds after every sequence of
    such actions from the initial state; and the request [handleSend] builds
    carries at most one of the thinking budget, the search tool and the
    maps tool. *)
Theorem toggles_mutually_exclusive :
  (forall a s, (togglesOn (reduce a s) <= 1)%nat) /\
  (forall acts, (togglesOn (reduceAll acts initialState) <= 1)%nat) /\
  (forall position s,
     (augmentations (buildRequest position s) <= 1)%nat) /\
  (forall position a s,
     (augmentations (buildRequest position (reduce a s)) <= 1)%nat).
Proof.
  split; [exact reduce_togglesOn|]. split.
  - intros acts.
    assert (H : forall s, (togglesOn s <= 1)%nat ->
                          (togglesOn (reduceAll acts s) <= 1)%nat).
    { induction acts as [|a acts IH]; intros s Hs; simpl; auto.
      apply IH, reduce_togglesOn. }
    apply H. cbv. repeat constructor.
  - split; intros; apply buildRequest_augmentations.
Qed.

End ChatViewFacts.

(* ===================================================================== *)
(** * The realtime session: further properties of the handlers *)
(* ===================================================================== *)

Module LiveViewExtra.
Import LiveView LiveViewLog LiveViewFacts.

Section Extra.

Variable dec : string -> AudioBuffer.

(** ** Messages that schedule nothing *)

Lemma chunkOf_none (msg : LiveServerMessage) :
  base64Audio msg = None \/ base64Audio msg = Some EmptyString ->
  chunkOf msg = None.
Proof. unfold chunkOf. intros [-> | ->]; reflexivity. Qed.

Lemma onmessage_no_chunk (now : Time) (msg : LiveServerMessage) (w : World) :
  isInterrupted msg = false ->
  chunkOf msg = None \/ audioContextRef w = None ->
  onmessage dec now msg w = w.
Proof.
  intros Hi H. rewrite onmessage_unfold, Hi. cbv zeta.
  destruct H as [-> | ->]; [reflexivity|].
  now destruct (chunkOf msg).
Qed.

(** X1. A message that signals no interruption and whose audio payload is
    missing or is the empty string, or that arrives while no output context
    exists, changes nothing at all; and only the first part of a message is
    looked at: audio carried by a later part is never scheduled. *)
Theorem message_without_first_part_audio_is_ignored :
  (forall now msg w,
     isInterrupted msg = false ->
     base64Audio msg = None \/ base64Audio msg = Some EmptyString
     \/ audioContextRef w = None ->
     onmessage dec now msg w = w) /\
  (forall now p0 rest w,
     inlineData p0 = None ->
     onmessage dec now (partsMessage (p0 :: rest)) w = w) /\
  (forall now w, onmessage dec now (partsMessage []) w = w).
Proof.
  split; [|split].
  - intros now msg w Hi H. apply onmessage_no_chunk; [exact Hi|].
    destruct H as [H | [H | H]]; [left | left | right; exact H];
      apply chunkOf_none; tauto.
  - intros now p0 rest w Hp. apply onmessage_no_chunk; [reflexivity|].
    left. apply chunkOf_none. left.
    unfold base64Audio, partsMessage. cbn. now rewrite Hp.
  - intros now w. apply onmessage_no_chunk; [reflexivity|].
    left. reflexivity.
Qed.


(** ** The chunk that follows an interruption *)

Lemma onmessage_chunk_scheduled (now : Time) (msg : LiveServerMessage)
    (p : string) (w : World) :
  chunkOf msg = Some p ->
  audioContextRef w <> None ->
  scheduled (since w (onmessage dec now msg w))
  = [(Z.max (nextStartTimeRef w) now, duration (dec p))].
Proof.
  intros Hc Hctx. rewrite onmessage_unfold, Hc.
  destruct (audioContextRef w) as [c|] eqn:Ec; [|congruence]. cbv zeta.
  destruct (isInterrupted msg).
  - destruct (interrupt_spec now (scheduleChunk dec now p w)) as (_ & _ & Hl).
    { rewrite scheduleChunk_context, Ec. discriminate. }
    rewrite scheduleChunk_calls, <- app_assoc in Hl.
    rewrite (calls_since _ _ _ Hl). cbn [app scheduled].
    now rewrite scheduled_stops.
  - rewrite (calls_since _ _ _ (scheduleChunk_calls dec now p w)).
    reflexivity.
Qed.

Lemma interrupt_context (now : Time) (w : World) :
  audioContextRef (interrupt now w) = audioContextRef w.
Proof. destruct_world w; reflexivity. Qed.

Lemma onmessage_interrupted (now : Time) (msg : LiveServerMessage)
    (w : World) :
  audioContextRef w <> None ->
  isInterrupted msg = true ->
  nextStartTimeRef (onmessage dec now msg w) = now /\
  sourcesRef (onmessage dec now msg w) = [] /\
  audioContextRef (onmessage dec now msg w) = audioContextRef w.
Proof.
  intros Hctx Hi. rewrite onmessage_unfold, Hi. cbv zeta.
  destruct (audioContextRef w) as [c|] eqn:Ec; [|congruence].
  destruct (chunkOf msg) as [p|].
  - destruct (interrupt_spec now (scheduleChunk dec now p w)) as (Hs & Hn & _).
    { rewrite scheduleChunk_context, Ec. discriminate. }
    rewrite interrupt_context, scheduleChunk_context. auto.
  - destruct (interrupt_spec now w) as (Hs & Hn & _).
    { rewrite Ec. discriminate. }
    rewrite interrupt_context. auto.
Qed.


(** ** The outbound stream *)

Lemma sentFrames_app (l l' : list Call) :
  sentFrames (l ++ l') = sentFrames l ++ sentFrames l'.
Proof.
  induction l as [|c l IH]; [reflexivity|].
  destruct c; cbn [app sentFrames]; auto. now rewrite IH.
Qed.

Lemma sentFrames_stops (l : list nat) : sentFrames (map SourceStop l) = [].
Proof. induction l; cbn; auto. Qed.

(** [onmessage] only ever starts and stops sources. *)
Lemma onmessage_calls (now : Time) (msg : LiveServerMessage) (w : World) :
  exists extra,
    calls (onmessage dec now msg w) = calls w ++ extra /\
    Forall (fun c => sourceOf c <> None) extra.
Proof.
  rewrite onmessage_unfold. cbv zeta.
  assert (Hstops : forall l, Forall (fun c => sourceOf c <> None)
                               (map SourceStop l)).
  { induction l; cbn; constructor; auto. discriminate. }
  destruct (chunkOf msg) as [p|]; destruct (isInterrupted msg);
    destruct_world w; repeat rewrite <- app_assoc.
  all: try (eexists; split; [reflexivity|]).
  all: try (exists []; split; [now rewrite app_nil_r | constructor]).
  all: cbn [app]; try (constructor; [discriminate|]); auto.
Qed.

Lemma sentFrames_sources (extra : list Call) :
  Forall (fun c => sourceOf c <> None) extra -> sentFrames extra = [].
Proof.
  induction 1 as [|c l Hc _ IH]; [reflexivity|].
  destruct c; cbn in *; auto; congruence.
Qed.

(** What a frame is sent to, given the session handle. *)
Lemma step_sentFrames (now : Time) (e : Event) (w : World) :
  sentFrames (calls (step dec now e w))
  = sentFrames (calls w)
    ++ match e, sessionPromiseRef w with
       | OnAudioProcess d, Some s => [(s, d)]
       | _, _ => []
       end.
Proof.
  destruct e.
  4: { cbn [step]. destruct (onmessage_calls now msg w) as (extra & -> & H).
       now rewrite sentFrames_app, (sentFrames_sources extra H). }
  all: try (destruct r).
  all: destruct_world w; repeat rewrite sentFrames_app; cbn [sentFrames app];
    repeat rewrite app_nil_r; reflexivity.
Qed.


Lemma step_opens_no_session (now : Time) (e : Event) (w : World) :
  opensNoSession e = true ->
  sessionPromiseRef w = None ->
  sessionPromiseRef (step dec now e w) = None.
Proof.
  destruct e; cbn [opensNoSession]; try discriminate.
  4: { intros _. cbn [step]. rewrite onmessage_unfold. cbv zeta.
       destruct (chunkOf msg); destruct (isInterrupted msg);
         destruct_world w; auto. }
  all: try (destruct r; try discriminate).
  all: intros _; destruct_world w; auto.
Qed.


Lemma run_sentFrames_none (tr : list (Time * Event)) (w : World) :
  sessionPromiseRef w = None ->
  forallb (fun te => opensNoSession (snd te)) tr = true ->
  sentFrames (calls (run dec tr w)) = sentFrames (calls w).
Proof.
  revert w; induction tr as [|[now e] tr IH]; intros w Hs Hall.
  - reflexivity.
  - cbn [forallb snd] in Hall. apply andb_prop in Hall as [He Hall].
    cbn [run]. rewrite IH; [|now apply step_opens_no_session|exact Hall].
    rewrite step_sentFrames, Hs. destruct e; now rewrite app_nil_r.
Qed.

Lemma sentFrames_since (tr : list (Time * Event)) (w : World)
    (l : list (nat * list Q)) :
  sentFrames (calls (run dec tr w)) = sentFrames (calls w) ++ l ->
  sentFrames (since w (run dec tr w)) = l.
Proof.
  intros H. destruct (run_calls dec tr w) as [new Hnew].
  rewrite Hnew, sentFrames_app in H. apply app_inv_head in H.
  now rewrite (calls_since _ _ _ Hnew).
Qed.


(** X4. With no session handle nothing is sent: the frames produced are
    dropped. In particular after [stopSession], and after [onerror], no
    frame is sent along any run in which no microphone is granted anew. *)
Theorem no_frame_sent_without_handle (tr : list (Time * Event)) :
  forallb (fun te => opensNoSession (snd te)) tr = true ->
  (forall w, sessionPromiseRef w = None ->
             sentFrames (since w (run dec tr w)) = []) /\
  (forall w, sentFrames (since (stopSession w) (run dec tr (stopSession w)))
             = []) /\
  (forall w, sentFrames (since (onerror w) (run dec tr (onerror w))) = []).
Proof.
  intros Hall.
  assert (H : forall w, sessionPromiseRef w = None ->
                        sentFrames (since w (run dec tr w)) = []).
  { intros w Hs. apply sentFrames_since.
    rewrite app_nil_r. now apply run_sentFrames_none. }
  split; [exact H|]. split; intros w; apply H; destruct_world w; reflexivity.
Qed.


(** ** Stopping twice, and starting again *)

Lemma stopSession_refs (w : World) :
  inputAudioContextRef (stopSession w) = inputAudioContextRef w /\
  audioContextRef (stopSession w) = audioContextRef w /\
  streamRef (stopSession w) = streamRef w /\
  sessionPromiseRef (stopSession w) = None.
Proof. destruct_world w; repeat split. Qed.

Lemma stopSession_calls_again (w : World) (cin cout mic : nat) :
  inputAudioContextRef w = Some cin ->
  audioContextRef w = Some cout ->
  streamRef w = Some mic ->
  sessionPromiseRef w = None ->
  calls (stopSession w)
  = calls w ++ [TrackStop mic; AudioContextClose cin; AudioContextClose cout]
  /\
  calls (onerror w)
  = calls w ++ [ConsoleError; TrackStop mic; AudioContextClose cin;
                AudioContextClose cout].
Proof.
  intros Hin Hout Hst Hs.
  destruct_world w; try discriminate;
    inversion Hin; inversion Hout; inversion Hst; subst;
    repeat rewrite <- app_assoc; split; reflexivity.
Qed.

(** X5. [stopSession] leaves the stream ref and both context refs set, so
    a second call (the DISCONNECT button followed by the cleanup on unmount,
    or a transport error followed by either) stops the same microphone
    track again and calls [close()] again on both contexts, which are
    already closed; only the session is not closed twice. *)
Theorem second_stop_releases_again (w : World) (cin cout mic : nat) :
  inputAudioContextRef w = Some cin ->
  audioContextRef w = Some cout ->
  streamRef w = Some mic ->
  let w1 := stopSession w in
  let w2 := step dec 0 Unmount w1 in
  inputAudioContextRef w1 = Some cin /\
  audioContextRef w1 = Some cout /\
  streamRef w1 = Some mic /\
  since w1 w2
  = [TrackStop mic; AudioContextClose cin; AudioContextClose cout] /\
  since w1 (stopSession w1) = since w1 w2 /\
  since w1 (onerror w1)
  = [ConsoleError; TrackStop mic; AudioContextClose cin;
     AudioContextClose cout].
Proof.
  intros Hin Hout Hst w1 w2.
  destruct (stopSession_refs w) as (E1 & E2 & E3 & E4). fold w1 in E1, E2, E3, E4.
  rewrite Hin in E1. rewrite Hout in E2. rewrite Hst in E3.
  destruct (stopSession_calls_again w1 cin cout mic E1 E2 E3 E4) as (C1 & C2).
  unfold w2. cbn [step].
  assert (C0 : calls (stopSession (setCanvasRef None w1))
               = calls (stopSession w1))
    by (destruct_world w1; reflexivity).
  pose proof C1 as C1'. rewrite <- C0 in C1'.
  rewrite (calls_since _ _ _ C1'), (calls_since _ _ _ C1),
    (calls_since _ _ _ C2).
  repeat split; assumption.
Qed.

Lemma closeCount_app (c : nat) (l l' : list Call) :
  closeCount c (l ++ l') = (closeCount c l + closeCount c l')%nat.
Proof. unfold closeCount. now rewrite filter_app, length_app. Qed.

Lemma trackStopCount_app (s : nat) (l l' : list Call) :
  trackStopCount s (l ++ l')
  = (trackStopCount s l + trackStopCount s l')%nat.
Proof. unfold trackStopCount. now rewrite filter_app, length_app. Qed.

Lemma closeCount_sources (c : nat) (extra : list Call) :
  Forall (fun x => sourceOf x <> None) extra -> closeCount c extra = 0%nat.
Proof.
  induction 1 as [|x l Hx _ IH]; [reflexivity|].
  destruct x; cbn in *; auto; congruence.
Qed.

Lemma trackStopCount_sources (s : nat) (extra : list Call) :
  Forall (fun x => sourceOf x <> None) extra -> trackStopCount s extra = 0%nat.
Proof.
  induction 1 as [|x l Hx _ IH]; [reflexivity|].
  destruct x; cbn in *; auto; congruence.
Qed.

Lemma onmessage_refs (now : Time) (msg : LiveServerMessage) (w : World) :
  audioContextRef (onmessage dec now msg w) = audioContextRef w /\
  inputAudioContextRef (onmessage dec now msg w) = inputAudioContextRef w /\
  streamRef (onmessage dec now msg w) = streamRef w /\
  (nextId w <= nextId (onmessage dec now msg w))%nat.
Proof.
  rewrite onmessage_unfold. cbv zeta.
  destruct (chunkOf msg); destruct (isInterrupted msg);
    destruct_world w; repeat split; auto.
Qed.

Lemma isClose_other (c c' : nat) : c' <> c -> Nat.eqb c c' = false.
Proof. intros H. apply Nat.eqb_neq. congruence. Qed.

Lemma step_context_unreachable (now : Time) (e : Event) (w : World)
    (c : nat) :
  contextUnreachable c w ->
  contextUnreachable c (step dec now e w) /\
  closeCount c (calls (step dec now e w)) = closeCount c (calls w).
Proof.
  unfold contextUnreachable. destruct e.
  4: { cbn [step]. intros (Hlt & Ha & Hi).
       destruct (onmessage_refs now msg w) as (E1 & E2 & _ & Hn).
       destruct (onmessage_calls now msg w) as (extra & Hc & Hx).
       rewrite E1, E2, Hc, closeCount_app, (closeCount_sources c extra Hx).
       repeat split; auto; lia. }
  all: try (destruct r).
  all: destruct_world w; intros (Hlt & Ha & Hi);
    repeat rewrite closeCount_app;
    cbn [closeCount filter isClose List.length].
  all: repeat match goal with
         | H : Some ?x <> Some ?y |- context [Nat.eqb ?y ?x] =>
             rewrite (isClose_other y x) by congruence
         end; cbn [List.length].
  all: repeat split; try lia; try congruence; try discriminate.
  all: try (intros E; inversion E; lia).
Qed.

Lemma run_context_unreachable (tr : list (Time * Event)) (w : World)
    (c : nat) :
  contextUnreachable c w ->
  closeCount c (calls (run dec tr w)) = closeCount c (calls w).
Proof.
  revert w; induction tr as [|[now e] tr IH]; intros w H; [reflexivity|].
  destruct (step_context_unreachable now e w c H) as (H' & E).
  cbn [run]. now rewrite IH, E.
Qed.

(** X6. Starting a session again overwrites both context refs without
    closing what they held: whatever happens afterwards, [close()] is never
    called on a context that existed before the restart. A context left
    open by a remote close or by a failed start is therefore never closed
    once the user starts again. *)
Theorem restart_orphans_previous_contexts (w : World) (c : nat) (t0 : Time)
    (tr : list (Time * Event)) :
  (c < nextId w)%nat ->
  closeCount c (calls (run dec tr (startSession_begin t0 w)))
  = closeCount c (calls w).
Proof.
  intros Hlt. rewrite run_context_unreachable.
  - destruct_world w; repeat rewrite closeCount_app;
      cbn [closeCount filter isClose List.length]; lia.
  - unfold contextUnreachable.
    destruct_world w; repeat split; try lia;
      intros E; inversion E; lia.
Qed.


(** ** The set of scheduled sources *)

Lemma sourceStartCount_app (s : nat) (l l' : list Call) :
  sourceStartCount s (l ++ l')
  = (sourceStartCount s l + sourceStartCount s l')%nat.
Proof. unfold sourceStartCount. now rewrite filter_app, length_app. Qed.

Lemma sourceStopCount_app (s : nat) (l l' : list Call) :
  sourceStopCount s (l ++ l')
  = (sourceStopCount s l + sourceStopCount s l')%nat.
Proof. unfold sourceStopCount. now rewrite filter_app, length_app. Qed.

Lemma counts_no_source (s : nat) (extra : list Call) :
  Forall (fun c => sourceOf c = None) extra ->
  sourceStartCount s extra = 0%nat /\ sourceStopCount s extra = 0%nat.
Proof.
  induction 1 as [|c l Hc _ IH]; [split; reflexivity|].
  destruct c; cbn in *; auto; discriminate.
Qed.

Lemma sourceStartCount_stops (s : nat) (l : list nat) :
  sourceStartCount s (map SourceStop l) = 0%nat.
Proof. induction l; cbn; auto. Qed.

Lemma sourceStopCount_stops (s : nat) (l : list nat) :
  sourceStopCount s (map SourceStop l)
  = List.length (filter (Nat.eqb s) l).
Proof.
  induction l as [|x l IH]; [reflexivity|].
  cbn [map]. unfold sourceStopCount in *. cbn [filter isSourceStop].
  destruct (Nat.eqb s x); cbn [List.length]; now rewrite IH.
Qed.

Lemma NoDup_filter_eqb (s : nat) (l : list nat) :
  NoDup l ->
  (List.length (filter (Nat.eqb s) l) <= 1)%nat /\
  (~ In s l -> List.length (filter (Nat.eqb s) l) = 0%nat).
Proof.
  induction 1 as [|x l Hx Hnd IH]; [split; auto|].
  cbn [filter]. destruct (Nat.eqb s x) eqn:E.
  - apply Nat.eqb_eq in E. subst x.
    destruct IH as (_ & IH). cbn [List.length]. rewrite (IH Hx).
    split; [lia|]. intros H. exfalso. apply H. now left.
  - destruct IH as (IH1 & IH2). split; [exact IH1|].
    intros H. apply IH2. intros Hin. apply H. now right.
Qed.

(** A step that keeps the set and makes no call on a source. *)
Lemma sourcesInv_other (w w' : World) (extra : list Call) :
  sourcesRef w' = sourcesRef w ->
  (nextId w <= nextId w')%nat ->
  calls w' = calls w ++ extra ->
  Forall (fun c => sourceOf c = None) extra ->
  sourcesInv w -> sourcesInv w'.
Proof.
  intros Hs Hn Hc Hx (I1 & I2 & I3 & I4).
  assert (E : forall s,
             sourceStartCount s (calls w') = sourceStartCount s (calls w) /\
             sourceStopCount s (calls w') = sourceStopCount s (calls w)).
  { intros s. rewrite Hc, sourceStartCount_app, sourceStopCount_app.
    destruct (counts_no_source s extra Hx) as (-> & ->). lia. }
  unfold sourcesInv. rewrite Hs. split; [exact I1|]. split; [|split].
  - intros s Hin. destruct (E s) as (-> & ->). now apply I2.
  - intros s. destruct (E s) as (-> & ->). apply I3.
  - intros s Hle. destruct (E s) as (-> & ->). apply I4. lia.
Qed.

Lemma step_other_shape (now : Time) (e : Event) (w : World) :
  match e with OnMessage _ | OnEnded _ => False | _ => True end ->
  sourcesRef (step dec now e w) = sourcesRef w /\
  (nextId w <= nextId (step dec now e w))%nat /\
  exists extra, calls (step dec now e w) = calls w ++ extra /\
                Forall (fun c => sourceOf c = None) extra.
Proof.
  destruct e; try tauto; intros _.
  all: try (destruct r).
  all: destruct_world w; repeat rewrite <- app_assoc;
    (split; [reflexivity|]); (split; [lia|]).
  all: try (eexists; split; [reflexivity|]; repeat constructor).
  all: exists []; split; [now rewrite app_nil_r | constructor].
Qed.

Lemma sourcesInv_onended (s : nat) (w : World) :
  sourcesInv w -> sourcesInv (onended s w).
Proof.
  intros (I1 & I2 & I3 & I4).
  assert (Hs : sourcesRef (onended s w) = setDelete s (sourcesRef w))
    by (destruct_world w; reflexivity).
  assert (Hc : calls (onended s w) = calls w)
    by (destruct_world w; reflexivity).
  assert (Hn : nextId (onended s w) = nextId w)
    by (destruct_world w; reflexivity).
  unfold sourcesInv. rewrite Hs, Hc, Hn. unfold setDelete.
  split; [now apply NoDup_filter|]. split; [|split; assumption].
  intros x Hin. apply filter_In in Hin. apply I2. tauto.
Qed.

Lemma sourcesInv_scheduleChunk (now : Time) (p : string) (w : World) :
  sourcesInv w -> sourcesInv (scheduleChunk dec now p w).
Proof.
  intros (I1 & I2 & I3 & I4).
  assert (Hfresh : ~ In (nextId w) (sourcesRef w)).
  { intros Hin. destruct (I2 _ Hin) as (H1 & _).
    destruct (I4 (nextId w) (Nat.le_refl _)) as (H0 & _). lia. }
  assert (Hadd : setAdd (nextId w) (sourcesRef w)
                 = sourcesRef w ++ [nextId w]).
  { unfold setAdd. destruct (existsb (Nat.eqb (nextId w)) (sourcesRef w)) eqn:E;
      [|reflexivity].
    apply existsb_exists in E as (y & Hy & Hxy).
    apply Nat.eqb_eq in Hxy. subst y. contradiction. }
  assert (Hn : nextId (scheduleChunk dec now p w) = S (nextId w))
    by reflexivity.
  assert (Hcount : forall s,
             sourceStartCount s (calls (scheduleChunk dec now p w))
             = (sourceStartCount s (calls w)
                + if Nat.eqb s (nextId w) then 1 else 0)%nat /\
             sourceStopCount s (calls (scheduleChunk dec now p w))
             = sourceStopCount s (calls w)).
  { intros s. rewrite scheduleChunk_calls, sourceStartCount_app,
      sourceStopCount_app.
    unfold sourceStartCount at 2. unfold sourceStopCount at 2.
    cbn [filter isSourceStart isSourceStop].
    destruct (Nat.eqb s (nextId w)); cbn [List.length]; lia. }
  unfold sourcesInv. rewrite scheduleChunk_sources, Hadd, Hn.
  split; [|split; [|split]].
  - apply NoDup_app; [exact I1 | repeat constructor; intros [] |].
    intros x Hx [<- | []]. contradiction.
  - intros s Hin. destruct (Hcount s) as (-> & ->).
    apply in_app_or in Hin as [Hin | [<- | []]].
    + destruct (I2 _ Hin) as (H1 & H2).
      destruct (Nat.eqb s (nextId w)) eqn:E; [|lia].
      apply Nat.eqb_eq in E. subst s. contradiction.
    + rewrite Nat.eqb_refl.
      destruct (I4 (nextId w) (Nat.le_refl _)) as (H0 & H0'). lia.
  - intros s. destruct (Hcount s) as (-> & ->).
    destruct (I3 s) as (H1 & H2). split; [|exact H2].
    destruct (Nat.eqb s (nextId w)) eqn:E; [|lia].
    apply Nat.eqb_eq in E. subst s.
    destruct (I4 (nextId w) (Nat.le_refl _)) as (H0 & _). lia.
  - intros s Hle. destruct (Hcount s) as (-> & ->).
    destruct (I4 s ltac:(lia)) as (H0 & H0').
    destruct (Nat.eqb s (nextId w)) eqn:E; [|lia].
    apply Nat.eqb_eq in E. lia.
Qed.

Lemma sourcesInv_interrupt (now : Time) (w : World) :
  sourcesInv w -> sourcesInv (interrupt now w).
Proof.
  intros (I1 & I2 & I3 & I4).
  assert (Hs : sourcesRef (interrupt now w) = [])
    by (destruct_world w; reflexivity).
  assert (Hc : calls (interrupt now w)
               = calls w ++ map SourceStop (sourcesRef w))
    by (destruct_world w; reflexivity).
  assert (Hn : nextId (interrupt now w) = nextId w)
    by (destruct_world w; reflexivity).
  assert (Hcount : forall s,
             sourceStartCount s (calls (interrupt now w))
             = sourceStartCount s (calls w) /\
             sourceStopCount s (calls (interrupt now w))
             = (sourceStopCount s (calls w)
                + List.length (filter (Nat.eqb s) (sourcesRef w)))%nat).
  { intros s. rewrite Hc, sourceStartCount_app, sourceStopCount_app,
      sourceStartCount_stops, sourceStopCount_stops. lia. }
  unfold sourcesInv. rewrite Hs, Hn.
  split; [constructor|]. split; [intros s []|]. split.
  - intros s. destruct (Hcount s) as (-> & ->).
    destruct (I3 s) as (H1 & H2). split; [exact H1|].
    destruct (NoDup_filter_eqb s _ I1) as (Hle & Hnot).
    destruct (in_dec Nat.eq_dec s (sourcesRef w)) as [Hin | Hin].
    + destruct (I2 _ Hin) as (_ & ->). lia.
    + rewrite (Hnot Hin). lia.
  - intros s Hle. destruct (Hcount s) as (-> & ->).
    destruct (I4 s Hle) as (H0 & H0'). split; [exact H0|].
    destruct (NoDup_filter_eqb s _ I1) as (_ & Hnot).
    rewrite Hnot; [lia|].
    intros Hin. destruct (I2 _ Hin) as (H1 & _). lia.
Qed.

Lemma sourcesInv_step_other (now : Time) (e : Event) (w : World) :
  match e with OnMessage _ | OnEnded _ => False | _ => True end ->
  sourcesInv w -> sourcesInv (step dec now e w).
Proof.
  intros He Hinv.
  destruct (step_other_shape now e w He) as (Hs & Hn & extra & Hc & Hx).
  exact (sourcesInv_other w _ extra Hs Hn Hc Hx Hinv).
Qed.

Lemma sourcesInv_step (now : Time) (e : Event) (w : World) :
  sourcesInv w -> sourcesInv (step dec now e w).
Proof.
  intros Hinv.
  destruct e.
  4: { cbn [step]. rewrite onmessage_unfold. cbv zeta.
       assert (I1 : sourcesInv
                      match chunkOf msg, audioContextRef w with
                      | Some p, Some _ => scheduleChunk dec now p w
                      | _, _ => w
                      end).
       { destruct (chunkOf msg); [|exact Hinv].
         destruct (audioContextRef w); [|exact Hinv].
         now apply sourcesInv_scheduleChunk. }
       destruct (isInterrupted msg); [|exact I1].
       now apply sourcesInv_interrupt. }
  4: { cbn [step]. now apply sourcesInv_onended. }
  all: apply sourcesInv_step_other; [exact Logic.I | assumption].
Qed.

(** X7. In every state reached from the first render, the set of
    scheduled sources has no duplicates and holds only sources on which
    [start()] was called once and [stop()] never; and along the whole run
    no source is started twice or force-stopped twice. *)
Theorem scheduled_sources_are_live (tr : list (Time * Event)) :
  let w := run dec tr initialWorld in
  NoDup (sourcesRef w) /\
  (forall s, In s (sourcesRef w) ->
             sourceStartCount s (calls w) = 1%nat /\
             sourceStopCount s (calls w) = 0%nat) /\
  (forall s, (sourceStartCount s (calls w) <= 1)%nat /\
             (sourceStopCount s (calls w) <= 1)%nat).
Proof.
  assert (H : forall tr w, sourcesInv w -> sourcesInv (run dec tr w)).
  { clear tr. induction tr as [|[now e] tr IH]; intros w I; [exact I|].
    cbn [run]. apply IH. now apply sourcesInv_step. }
  assert (I0 : sourcesInv initialWorld).
  { unfold sourcesInv. cbn. repeat split; auto; try constructor; tauto. }
  destruct (H tr initialWorld I0) as (I1 & I2 & I3 & _).
  cbv zeta. auto.
Qed.

(** ** The active flag *)

Lemma step_stays_inactive (now : Time) (e : Event) (w : World) :
  isOnOpen e = false ->
  isActive w = false ->
  isActive (step dec now e w) = false.
Proof.
  destruct e; cbn [isOnOpen]; try discriminate; intros _.
  3: { cbn [step]. rewrite onmessage_unfold. cbv zeta.
       destruct (chunkOf msg); destruct (isInterrupted msg);
         destruct_world w; auto. }
  all: try (destruct r).
  all: destruct_world w; auto.
Qed.

(** X8. The session is shown as active only through [onopen]: from an
    inactive state, along any run in which the remote end has not
    acknowledged the connection, [isActive] stays false, whatever else is
    handled (start, microphone grant, messages, errors). *)
Theorem active_only_after_open (tr : list (Time * Event)) (w : World) :
  isActive w = false ->
  forallb (fun te => negb (isOnOpen (snd te))) tr = true ->
  isActive (run dec tr w) = false.
Proof.
  revert w; induction tr as [|[now e] tr IH]; intros w Hw Hall; [exact Hw|].
  cbn [forallb snd] in Hall. apply andb_prop in Hall as [He Hall].
  cbn [run]. apply IH; [|exact Hall].
  apply step_stays_inactive; [|exact Hw].
  now destruct (isOnOpen e).
Qed.


(** ** The size of the circle *)

Lemma sumOfAbsoluteValues_nonneg (data : list Q) :
  (0 <= sumOfAbsoluteValues data)%Q.
Proof.
  induction data as [|x data IH]; cbn [sumOfAbsoluteValues].
  - apply Qle_refl.
  - pose proof (Qabs_nonneg x) as Hx.
    replace 0%Q with (0 + 0)%Q by reflexivity.
    now apply Qplus_le_compat.
Qed.

Lemma inject_length_succ (A : Type) (x : A) (l : list A) :
  (inject_Z (Z.of_nat (List.length (x :: l)))
   == 1 + inject_Z (Z.of_nat (List.length l)))%Q.
Proof.
  cbn [List.length]. rewrite Nat2Z.inj_succ, <- Z.add_1_l, inject_Z_plus.
  reflexivity.
Qed.

Lemma sumOfAbsoluteValues_bounded (data : list Q) :
  (forall x, In x data -> (Qabs x <= 1)%Q) ->
  (sumOfAbsoluteValues data <= inject_Z (Z.of_nat (List.length data)))%Q.
Proof.
  induction data as [|x data IH]; intros H.
  - apply Qle_refl.
  - rewrite inject_length_succ. cbn [sumOfAbsoluteValues].
    apply Qplus_le_compat.
    + apply H. now left.
    + apply IH. intros y Hy. apply H. now right.
Qed.

Lemma length_pos (data : list Q) :
  data <> [] -> (0 < inject_Z (Z.of_nat (List.length data)))%Q.
Proof.
  destruct data as [|x data]; [congruence|]. intros _.
  unfold Qlt. cbn [Qnum Qden inject_Z List.length]. lia.
Qed.

(** X9. For every non-empty frame the circle has radius at least 50, and
    when every sample lies in [-1, 1] (the nominal range of audio samples)
    at most 550: the average that drives it lies between 0 and 1. *)
Theorem visualizer_radius_bounds (data : list Q) :
  data <> [] ->
  (50 <= radiusOf data)%Q /\
  ((forall x, In x data -> (Qabs x <= 1)%Q) ->
   (avgOf data <= 1)%Q /\ (radiusOf data <= 550)%Q).
Proof.
  intros Hne. pose proof (length_pos data Hne) as Hpos.
  assert (H0 : (0 <= avgOf data)%Q).
  { rewrite avgOf_mean. unfold meanAbsoluteAmplitude.
    apply Qle_shift_div_l; [exact Hpos|].
    rewrite Qmult_0_l. apply sumOfAbsoluteValues_nonneg. }
  split.
  - unfold radiusOf.
    replace 50%Q with (50 + 0 * 500)%Q at 1 by reflexivity.
    apply Qplus_le_compat; [apply Qle_refl|].
    apply Qmult_le_compat_r; [exact H0 | discriminate].
  - intros Hb.
    assert (H1 : (avgOf data <= 1)%Q).
    { rewrite avgOf_mean. unfold meanAbsoluteAmplitude.
      apply Qle_shift_div_r; [exact Hpos|].
      rewrite Qmult_1_l. now apply sumOfAbsoluteValues_bounded. }
    split; [exact H1|]. unfold radiusOf.
    replace 550%Q with (50 + 1 * 500)%Q by reflexivity.
    apply Qplus_le_compat; [apply Qle_refl|].
    apply Qmult_le_compat_r; [exact H1 | discriminate].
Qed.


(** ** After the stop *)

Lemma step_stream_unreachable (now : Time) (e : Event) (w : World)
    (mic : nat) :
  (mic < nextId w)%nat /\ streamRef w <> Some mic ->
  ((mic < nextId (step dec now e w))%nat /\
   streamRef (step dec now e w) <> Some mic) /\
  trackStopCount mic (calls (step dec now e w))
  = trackStopCount mic (calls w).
Proof.
  destruct e.
  4: { cbn [step]. intros (Hlt & Hs).
       destruct (onmessage_refs now msg w) as (_ & _ & E3 & Hn).
       destruct (onmessage_calls now msg w) as (extra & Hc & Hx).
       rewrite E3, Hc, trackStopCount_app, (trackStopCount_sources mic extra Hx).
       repeat split; auto; lia. }
  all: try (destruct r).
  all: destruct_world w; intros (Hlt & Hs);
    repeat rewrite trackStopCount_app;
    cbn [trackStopCount filter isTrackStop List.length].
  all: repeat match goal with
         | H : Some ?x <> Some ?y |- context [Nat.eqb ?y ?x] =>
             rewrite (isClose_other y x) by congruence
         end; cbn [List.length].
  all: repeat split; try lia; try congruence; try discriminate.
  all: try (intros E; inversion E; lia).
Qed.

Lemma run_stream_unreachable (tr : list (Time * Event)) (w : World)
    (mic : nat) :
  (mic < nextId w)%nat /\ streamRef w <> Some mic ->
  trackStopCount mic (calls (run dec tr w)) = trackStopCount mic (calls w).
Proof.
  revert w; induction tr as [|[now e] tr IH]; intros w H; [reflexivity|].
  destruct (step_stream_unreachable now e w mic H) as (H' & E).
  cbn [run]. now rewrite IH, E.
Qed.

(** X10. A granted microphone overwrites the stream ref without stopping
    the stream it held: whatever happens afterwards, the track of a stream
    acquired before is never stopped. After a remote close, starting again
    therefore leaves the first microphone stream live for good. *)
Theorem new_grant_orphans_previous_stream (w : World) (mic : nat)
    (tr : list (Time * Event)) :
  (mic < nextId w)%nat ->
  trackStopCount mic (calls (run dec tr (startSession_resume MicGranted w)))
  = trackStopCount mic (calls w).
Proof.
  intros Hlt. rewrite run_stream_unreachable.
  - destruct_world w; repeat rewrite trackStopCount_app;
      cbn [trackStopCount filter isTrackStop List.length]; lia.
  - destruct_world w; repeat split; try lia;
      intros E; inversion E; lia.
Qed.

End Extra.

Lemma message_without_first_part_audio_is_ignored_witness :
  inlineData (mkPart None) = None /\
  onmessage exampleDecoder (ms 5)
    (partsMessage [mkPart None; mkPart (Some (mkBlob (Some "AAAA"%string)))])
    activeWorld = activeWorld.
Proof.
  split; [reflexivity|].
  exact (proj1 (proj2 (message_without_first_part_audio_is_ignored exampleDecoder))
           (ms 5) (mkPart None)
           [mkPart (Some (mkBlob (Some "AAAA"%string)))] activeWorld eq_refl).
Defined.



Lemma no_frame_sent_without_handle_witness :
  forallb (fun te => opensNoSession (snd te))
    [(0, OnAudioProcess [1 # 2]%Q); (ms 10, OnOpen);
     (ms 20, OnAudioProcess [1 # 3]%Q)] = true /\
  sentFrames
    (since (stopSession activeWorld)
       (run exampleDecoder
          [(0, OnAudioProcess [1 # 2]%Q); (ms 10, OnOpen);
           (ms 20, OnAudioProcess [1 # 3]%Q)] (stopSession activeWorld)))
  = [].
Proof.
  split; [reflexivity|].
  exact (proj1 (proj2 (no_frame_sent_without_handle exampleDecoder
           [(0, OnAudioProcess [1 # 2]%Q); (ms 10, OnOpen);
            (ms 20, OnAudioProcess [1 # 3]%Q)] eq_refl)) activeWorld).
Defined.

Lemma second_stop_releases_again_witness :
  inputAudioContextRef playingWorld = Some 0%nat /\
  audioContextRef playingWorld = Some 1%nat /\
  streamRef playingWorld = Some 2%nat /\
  since (stopSession playingWorld)
    (step exampleDecoder 0 Unmount (stopSession playingWorld))
  = [TrackStop 2; AudioContextClose 0; AudioContextClose 1].
Proof.
  split; [reflexivity|]. split; [reflexivity|]. split; [reflexivity|].
  destruct (second_stop_releases_again exampleDecoder playingWorld 0 1 2
              eq_refl eq_refl eq_refl) as (_ & _ & _ & H & _).
  exact H.
Defined.

Lemma restart_orphans_previous_contexts_witness :
  (1 < nextId (onclose playingWorld))%nat /\
  contextOpen 1 (calls (onclose playingWorld)) = true /\
  closeCount 1
    (calls (run exampleDecoder
              [(0, MicSettled MicGranted); (ms 10, OnOpen);
               (ms 900, StopSession); (ms 950, Unmount)]
              (startSession_begin 0 (onclose playingWorld))))
  = 0%nat.
Proof.
  assert (H : (1 < nextId (onclose playingWorld))%nat)
    by (vm_compute; repeat constructor).
  split; [exact H|]. split; [reflexivity|].
  rewrite (restart_orphans_previous_contexts exampleDecoder
             (onclose playingWorld) 1 0
             [(0, MicSettled MicGranted); (ms 10, OnOpen);
              (ms 900, StopSession); (ms 950, Unmount)] H).
  reflexivity.
Defined.

Lemma active_only_after_open_witness :
  isActive initialWorld = false /\
  isActive
    (run exampleDecoder
       [(0, StartSession); (ms 100, MicSettled MicGranted);
        (ms 150, OnMessage (audioMessage "AAAA"))] initialWorld)
  = false.
Proof.
  split; [reflexivity|].
  exact (active_only_after_open exampleDecoder
           [(0, StartSession); (ms 100, MicSettled MicGranted);
            (ms 150, OnMessage (audioMessage "AAAA"))] initialWorld
           eq_refl eq_refl).
Defined.

Lemma visualizer_radius_bounds_witness :
  [1 # 2; - (1 # 4)]%Q <> [] /\
  (50 <= radiusOf [1 # 2; - (1 # 4)])%Q.
Proof.
  split; [discriminate|].
  exact (proj1 (visualizer_radius_bounds [1 # 2; - (1 # 4)]%Q
                  ltac:(discriminate))).
Defined.

Lemma new_grant_orphans_previous_stream_witness :
  (2 < nextId (startSession_begin 0%Z (onclose playingWorld)))%nat /\
  trackStopCount 2
    (calls (run exampleDecoder
              [(ms 10, OnOpen); (ms 900, StopSession); (ms 950, Unmount)]
              (startSession_resume MicGranted
                 (startSession_begin 0 (onclose playingWorld)))))
  = 0%nat.
Proof.
  assert (H : (2 < nextId (startSession_begin 0%Z (onclose playingWorld)))%nat)
    by (vm_compute; repeat constructor).
  split; [exact H|].
  rewrite (new_grant_orphans_previous_stream exampleDecoder
             (startSession_begin 0 (onclose playingWorld)) 2
             [(ms 10, OnOpen); (ms 900, StopSession); (ms 950, Unmount)] H).
  reflexivity.
Defined.

Lemma scheduled_sources_are_live_witness :
  In 4%nat
    (sourcesRef
       (run exampleDecoder
          [(0, StartSession); (0, MicSettled MicGranted); (0, OnOpen);
           (0, OnMessage (audioMessage "AAAA"))] initialWorld)) /\
  sourceStopCount 4
    (calls
       (run exampleDecoder
          [(0, StartSession); (0, MicSettled MicGranted); (0, OnOpen);
           (0, OnMessage (audioMessage "AAAA"))] initialWorld))
  = 0%nat.
Proof.
  assert (H : In 4%nat
                (sourcesRef
                   (run exampleDecoder
                      [(0, StartSession); (0, MicSettled MicGranted);
                       (0, OnOpen); (0, OnMessage (audioMessage "AAAA"))]
                      initialWorld))) by (vm_compute; left; reflexivity).
  split; [exact H|].
  destruct (scheduled_sources_are_live exampleDecoder
              [(0, StartSession); (0, MicSettled MicGranted); (0, OnOpen);
               (0, OnMessage (audioMessage "AAAA"))]) as (_ & Hlive & _).
  exact (proj2 (Hlive 4%nat H)).
Defined.

End LiveViewExtra.

(* ===================================================================== *)
(** * The chat view: sending, replies and the request built *)
(* ===================================================================== *)

Module ChatViewExtra.
Import ChatView ChatMessages.

(** ** Blank input *)

Lemma trimStart_head (t : Text) (u : N) (r : Text) :
  trimStart t = u :: r -> isWhiteSpace u = false.
Proof.
  induction t as [|v t IH]; cbn [trimStart]; [discriminate|].
  destruct (isWhiteSpace v) eqn:E; [exact IH|].
  intros H. inversion H; subst. exact E.
Qed.

Lemma trimStart_blank (t : Text) :
  trimStart t = [] <-> forallb isWhiteSpace t = true.
Proof.
  induction t as [|v t IH]; cbn [trimStart forallb]; [tauto|].
  destruct (isWhiteSpace v); cbn [andb]; [exact IH|].
  split; discriminate.
Qed.

Lemma forallb_rev (A : Type) (f : A -> bool) (l : list A) :
  forallb f (rev l) = forallb f l.
Proof.
  induction l as [|x l IH]; [reflexivity|].
  cbn [rev forallb]. rewrite forallb_app, IH. cbn [forallb].
  now rewrite andb_true_r, andb_comm.
Qed.

Lemma trim_blank (t : Text) :
  nonEmpty (trim t) = false <-> forallb isWhiteSpace t = true.
Proof.
  unfold trim, trimEnd. split.
  - intros H.
    destruct (rev (trimStart (rev (trimStart t)))) as [|x l] eqn:E;
      [|discriminate].
    apply (f_equal (@rev N)) in E. rewrite rev_involutive in E. cbn in E.
    apply trimStart_blank in E. rewrite forallb_rev in E.
    destruct (trimStart t) as [|u r] eqn:Et.
    + now apply trimStart_blank.
    + apply trimStart_head in Et. cbn [forallb] in E.
      rewrite Et in E. discriminate.
  - intros H. apply trimStart_blank in H. rewrite H. reflexivity.
Qed.

Lemma textOr_empty (t : option Text) :
  textOr t [] = match t with Some s => s | None => [] end.
Proof. destruct t as [[|u r]|]; reflexivity. Qed.

Lemma handleSend_begin_none (now : Z) (position : option LatLng) (c : Chat) :
  handleSend_begin now position c = None <->
  forallb isWhiteSpace (input c) = true \/ isLoading c = true.
Proof.
  unfold handleSend_begin.
  destruct (nonEmpty (trim (input c))) eqn:Et; cbn [negb orb].
  - assert (Hnb : forallb isWhiteSpace (input c) <> true).
    { intros H. apply trim_blank in H. congruence. }
    destruct (isLoading c) eqn:El.
    + split; auto.
    + split; [discriminate|]. intros [H | H]; [contradiction|discriminate].
  - apply trim_blank in Et. split; auto.
Qed.

Lemma handleSend_begin_sent (now : Z) (position : option LatLng)
    (c c' : Chat) (p : Pending) :
  handleSend_begin now position c = Some (c', p) ->
  messages c'
  = messages c ++ [mkMessage now user (Some (input c)) None None] /\
  input c' = [] /\
  isLoading c' = true /\
  switches c' = switches c /\
  request p = buildRequest position (switches c) /\
  thinking p = useThinking (switches c) /\
  contents p
  = map (fun m => (role m, match text m with Some t => t | None => [] end))
      (messages c)
    ++ [(user, input c)].
Proof.
  unfold handleSend_begin.
  destruct (negb (nonEmpty (trim (input c))) || isLoading c); [discriminate|].
  intros H. inversion H; subst; clear H. cbn.
  repeat split; auto.
  rewrite map_app. cbn [map role text]. rewrite !textOr_empty.
  f_equal. apply map_ext. intros m. now rewrite textOr_empty.
Qed.

(** X12. [handleSend] returns at once, sending nothing and changing
    nothing, exactly when the input consists of whitespace only (it may be
    empty) or a request is in flight. Otherwise the user message carries
    the input verbatim, untrimmed; the input box is cleared; the loading
    flag is set; and the request is built from the toggles as they are,
    its contents being the whole history, each message with its role and
    its text (the empty string for a message without text), followed by
    the new message with the input as typed. *)
Theorem send_guard (now : Z) (position : option LatLng) (c : Chat) :
  (handleSend_begin now position c = None <->
   forallb isWhiteSpace (input c) = true \/ isLoading c = true) /\
  (forall c' p,
     handleSend_begin now position c = Some (c', p) ->
     messages c'
     = messages c ++ [mkMessage now user (Some (input c)) None None] /\
     input c' = [] /\
     isLoading c' = true /\
     switches c' = switches c /\
     request p = buildRequest position (switches c) /\
     thinking p = useThinking (switches c) /\
     contents p
     = map (fun m => (role m, match text m with Some t => t | None => [] end))
         (messages c)
       ++ [(user, input c)]).
Proof.
  split; [apply handleSend_begin_none|].
  intros c' p. apply handleSend_begin_sent.
Qed.

Lemma send_guard_witness :
  let history := [mkMessage 1 user (Some (lit "hello")) None None;
                  mkMessage 2 model None None None] in
  handleSend_begin 1000 None (mkChat history (lit " hi ") false initialState)
  = Some (mkChat (history ++ [mkMessage 1000 user (Some (lit " hi "))
                                 None None])
            [] true initialState,
          mkPending (buildRequest None initialState)
            [(user, lit "hello"); (model, []); (user, lit " hi ")] false) /\
  contents (mkPending (buildRequest None initialState)
              [(user, lit "hello"); (model, []); (user, lit " hi ")] false)
  = [(user, lit "hello"); (model, []); (user, lit " hi ")].
Proof.
  cbv zeta. split; [vm_compute; reflexivity|].
  exact (proj2 (proj2 (proj2 (proj2 (proj2 (proj2
           (proj2 (send_guard 1000 None
                     (mkChat [mkMessage 1 user (Some (lit "hello")) None None;
                              mkMessage 2 model None None None]
                        (lit " hi ") false initialState)) _ _
              ltac:(vm_compute; reflexivity)))))))).
Defined.

(** ** Exchanges *)

Lemma alternates_snoc (rs : list Role) (r : Role) :
  r <> system ->
  alternates r rs = true ->
  alternates r (rs ++ [if Nat.even (List.length rs) then r else flip r])
  = true.
Proof.
  revert r; induction rs as [|x rs IH]; intros r Hr H.
  - destruct r; cbn; congruence.
  - destruct x, r; cbn in H; try discriminate; try congruence.
    + cbn [app alternates List.length]. rewrite Nat.even_succ, <- Nat.negb_even.
      specialize (IH model ltac:(discriminate) H).
      destruct (Nat.even (List.length rs)); exact IH.
    + cbn [app alternates List.length]. rewrite Nat.even_succ, <- Nat.negb_even.
      specialize (IH user ltac:(discriminate) H).
      destruct (Nat.even (List.length rs)); exact IH.
Qed.

Lemma chatInv_step (e : ChatEvent) (s : Chat * option Pending) :
  chatInv s -> chatInv (chatStep e s).
Proof.
  destruct s as [c pending]. unfold chatInv. cbn [fst snd].
  intros (Ha & Hl & Hp).
  destruct e as [v | a | now position | now o]; cbn [chatStep fst snd].
  - cbn. auto.
  - cbn. auto.
  - destruct (handleSend_begin now position c) as [[c' p]|] eqn:E;
      [|cbn; auto].
    destruct (handleSend_begin_sent now position c c' p E)
      as (Hm & _ & Hl' & _).
    assert (Hload : isLoading c = false).
    { destruct (isLoading c) eqn:El; [|reflexivity].
      unfold handleSend_begin in E. rewrite El, orb_true_r in E.
      discriminate. }
    cbn [fst snd]. rewrite Hm, Hl', map_app, length_app. cbn [map List.length role].
    rewrite Hload in Hl. symmetry in Hl.
    rewrite <- Nat.negb_even in Hl. apply negb_false_iff in Hl.
    split; [|split].
    + pose proof (alternates_snoc (map role (messages c)) user
                    ltac:(discriminate) Ha) as H.
      rewrite length_map, Hl in H. exact H.
    + rewrite Nat.add_1_r, Nat.odd_succ. now rewrite Hl.
    + split; [discriminate | reflexivity].
  - destruct pending as [p|]; [|cbn; intuition congruence].
    unfold handleSend_settle. cbn [fst snd messages isLoading].
    assert (Hload : isLoading c = true) by (apply Hp; discriminate).
    rewrite Hload in Hl. symmetry in Hl.
    rewrite map_app, length_app. cbn [map List.length].
    assert (Hr : role (replyMessage p now o) = model) by (destruct o; reflexivity).
    rewrite Hr. split; [|split].
    + pose proof (alternates_snoc (map role (messages c)) user
                    ltac:(discriminate) Ha) as H.
      rewrite length_map, <- Nat.negb_odd, Hl in H. exact H.
    + rewrite Nat.add_1_r, Nat.odd_succ, <- Nat.negb_odd, Hl. reflexivity.
    + split; [discriminate | congruence].
Qed.

(** X13. Whatever is typed, toggled, sent and answered, in any order, the
    messages of the conversation alternate between the user and the model,
    beginning with the user; a request is in flight exactly when their
    number is odd, and while it is no second request is issued. *)
Theorem conversation_alternates (es : list ChatEvent) :
  let s := chatRun es (initialChat, None) in
  alternates user (map role (messages (fst s))) = true /\
  isLoading (fst s) = Nat.odd (List.length (messages (fst s))) /\
  (isLoading (fst s) = true <-> snd s <> None) /\
  (isLoading (fst s) = true ->
   forall now position,
     chatStep (Send now position) s = s).
Proof.
  assert (H : forall es s, chatInv s -> chatInv (chatRun es s)).
  { clear es. induction es as [|e es IH]; intros s Hs; [exact Hs|].
    cbn [chatRun]. apply IH. now apply chatInv_step. }
  assert (H0 : chatInv (initialChat, None)).
  { unfold chatInv. cbn. repeat split; congruence. }
  specialize (H es _ H0). cbv zeta.
  destruct (chatRun es (initialChat, None)) as [c pending].
  destruct H as (Ha & Hl & Hp). cbn [fst snd] in *.
  split; [exact Ha|]. split; [exact Hl|]. split; [exact Hp|].
  intros Hload now position. cbn [chatStep].
  unfold handleSend_begin. now rewrite Hload, orb_true_r.
Qed.

Lemma conversation_alternates_witness :
  isLoading (fst (chatRun [Typed (lit "hi"); Send 1 None] (initialChat, None)))
  = true /\
  chatStep (Send 2 None)
    (chatRun [Typed (lit "hi"); Send 1 None] (initialChat, None))
  = chatRun [Typed (lit "hi"); Send 1 None] (initialChat, None).
Proof.
  assert (H : isLoading (fst (chatRun [Typed (lit "hi"); Send 1 None]
                                (initialChat, None))) = true)
    by (vm_compute; reflexivity).
  split; [exact H|].
  destruct (conversation_alternates [Typed (lit "hi"); Send 1 None])
    as (_ & _ & _ & Hblock).
  exact (Hblock H 2 None).
Defined.

(** ** Replies *)

Lemma textOr_nonEmpty (a : option Text) (b : Text) :
  nonEmpty b = true -> nonEmpty (textOr a b) = true.
Proof.
  intros Hb. unfold textOr. destruct a as [t|]; [|exact Hb].
  destruct (nonEmpty t) eqn:E; [exact E | exact Hb].
Qed.

Lemma webLinks_shown (chunks : list GroundingChunk.t) :
  (0 <? List.length (webLinks chunks))%nat
  = existsb (fun c => match GroundingChunk.web c with
                      | Some _ => true | None => false end) chunks.
Proof.
  induction chunks as [|c chunks IH]; [reflexivity|].
  cbn [webLinks existsb]. destruct (GroundingChunk.web c); [reflexivity|].
  exact IH.
Qed.

Lemma mapLinks_shown (chunks : list GroundingChunk.t) :
  (0 <? List.length (mapLinks chunks))%nat
  = existsb (fun c => match GroundingChunk.maps c with
                      | Some _ => true | None => false end) chunks.
Proof.
  induction chunks as [|c chunks IH]; [reflexivity|].
  cbn [mapLinks existsb]. destruct (GroundingChunk.maps c); [reflexivity|].
  exact IH.
Qed.

(** X14. Every settled request, answered or failed, appends exactly one
    model message whose text is not empty, clears the loading flag and
    keeps what was typed meanwhile. A reply shows the SOURCES section
    exactly when some grounding chunk has a web entry and the LOCATIONS
    section exactly when some chunk has a maps entry (never when the
    response has no chunk list), and the thinking badge exactly when the
    Thinking toggle was on as the request was sent; an error message shows
    none of the three. *)
Theorem settled_request_appends_one_reply (p : Pending) (now : Z)
    (o : Outcome) (c : Chat) :
  let c' := handleSend_settle p now o c in
  let r := replyMessage p now o in
  messages c' = messages c ++ [r] /\
  isLoading c' = false /\
  input c' = input c /\
  role r = model /\
  (exists t, text r = Some t /\ nonEmpty t = true) /\
  match o with
  | Replied _ chunks =>
      showsSources r
      = match chunks with
        | Some l => existsb (fun c => match GroundingChunk.web c with
                                      | Some _ => true | None => false end) l
        | None => false
        end /\
      showsLocations r
      = match chunks with
        | Some l => existsb (fun c => match GroundingChunk.maps c with
                                      | Some _ => true | None => false end) l
        | None => false
        end /\
      showsThinking r = thinking p
  | Threw _ =>
      showsSources r = false /\ showsLocations r = false /\
      showsThinking r = false
  end.
Proof.
  cbv zeta. repeat split.
  - destruct o; reflexivity.
  - destruct o as [t chunks | m]; cbn [replyMessage text].
    + eexists. split; [reflexivity|]. now apply textOr_nonEmpty.
    + eexists. split; [reflexivity|]. reflexivity.
  - destruct o as [t [chunks|] | m]; cbn; repeat split;
      try apply webLinks_shown; try apply mapLinks_shown.
    all: now destruct (thinking p).
Qed.

(** ** The request and the header *)

Lemma reduceAll_togglesOn (acts : list Action) (s : State) :
  (togglesOn s <= 1)%nat -> (togglesOn (reduceAll acts s) <= 1)%nat.
Proof.
  revert s; induction acts as [|a acts IH]; intros s Hs; [exact Hs|].
  cbn [reduceAll]. apply IH.
  destruct a as [m'| | |], s as [m [|] [|] [|]]; cbv; repeat constructor.
Qed.

(** X15. When no toggle is on, the model requested is the one chosen in
    the select, and the request carries no tool and no thinking budget; a
    manual selection switches every toggle off and so always leads to such
    a request. When a toggle is on the select has no influence on the
    request: the model is PRO for Thinking, FLASH for Search and MAPS_MODEL
    for Maps, whatever is selected. *)
Theorem selected_model_used_only_without_toggle :
  (forall position m s,
     buildRequest position (reduce (SelectModel m) s)
     = mkRequest m None None None) /\
  (forall position s,
     togglesOn s = 0%nat ->
     buildRequest position s = mkRequest (selectedMode s) None None None) /\
  (forall position s m,
     (0 < togglesOn s)%nat ->
     buildRequest position
       (mkState m (useThinking s) (useSearch s) (useMaps s))
     = buildRequest position s) /\
  (forall position acts,
     let s := reduceAll acts initialState in
     (useThinking s = true -> ChatView.model (buildRequest position s) = PRO) /\
     (useSearch s = true -> ChatView.model (buildRequest position s) = FLASH) /\
     (useMaps s = true -> ChatView.model (buildRequest position s) = MAPS_MODEL)).
Proof.
  split; [reflexivity|]. split; [|split].
  - intros position [m [|] [|] [|]]; cbv; try discriminate. reflexivity.
  - intros position [m0 [|] [|] [|]] m; cbn; try reflexivity.
    intros H. inversion H.
  - intros position acts.
    assert (H : (togglesOn (reduceAll acts initialState) <= 1)%nat).
    { apply reduceAll_togglesOn. cbv. repeat constructor. }
    cbv zeta. destruct (reduceAll acts initialState) as [m [|] [|] [|]];
      cbv in H; repeat split; intros; try reflexivity; try discriminate;
      exfalso; lia.
Qed.

Lemma selected_model_used_only_without_toggle_witness :
  togglesOn (mkState FLASH_LITE false false false) = 0%nat /\
  buildRequest None (mkState FLASH_LITE false false false)
  = mkRequest FLASH_LITE None None None.
Proof.
  split; [reflexivity|].
  exact (proj1 (proj2 selected_model_used_only_without_toggle) None
           (mkState FLASH_LITE false false false) eq_refl).
Defined.

(** X16. In every state the header can reach, a location is attached to
    the request only together with the maps tool and MAPS_MODEL, and it is
    attached exactly when the Maps toggle is on and the lookup yields a
    position; a failed or unavailable lookup still sends the maps request,
    without a location. *)
Theorem location_sent_only_with_maps (acts : list Action)
    (position : option LatLng) :
  let s := reduceAll acts initialState in
  let r := buildRequest position s in
  (toolConfig r <> None ->
   useMaps s = true /\ hasTool googleMaps r = true /\ ChatView.model r = MAPS_MODEL) /\
  (useMaps s = true ->
   toolConfig r = position /\ tools r = Some [googleMaps] /\
   thinkingConfig r = None) /\
  (useMaps s = false -> toolConfig r = None).
Proof.
  assert (H : (togglesOn (reduceAll acts initialState) <= 1)%nat).
  { apply reduceAll_togglesOn. cbv. repeat constructor. }
  cbv zeta. destruct (reduceAll acts initialState) as [m [|] [|] [|]];
    cbv in H; try (exfalso; lia);
    cbn; repeat split; try congruence; try discriminate.
Qed.

Lemma location_sent_only_with_maps_witness :
  useMaps (reduceAll [ClickSearch; ClickMaps] initialState) = true /\
  toolConfig (buildRequest (Some (mkLatLng (1 # 2) (3 # 4)))
                (reduceAll [ClickSearch; ClickMaps] initialState))
  = Some (mkLatLng (1 # 2) (3 # 4)).
Proof.
  assert (H : useMaps (reduceAll [ClickSearch; ClickMaps] initialState) = true)
    by (vm_compute; reflexivity).
  split; [exact H|].
  destruct (location_sent_only_with_maps [ClickSearch; ClickMaps]
              (Some (mkLatLng (1 # 2) (3 # 4)))) as (_ & Hmaps & _).
  exact (proj1 (Hmaps H)).
Defined.

End ChatViewExtra.

(* ===================================================================== *)
(** * The media studio: image results and video polling *)
(* ===================================================================== *)

Module MediaStudioFacts.
Import Js MediaStudio.

(** Evaluates the setters and projections on a state given by its
    fields, by value. *)
Ltac eval_studio :=
  cbv beta iota zeta delta
    [setTab setResultUrl setIsLoading setStatus emit ensureVeoKey
     tab prompt resultUrl isLoading status imgSize aspectRatio selectedFile
     calls aistudio hasSelectedApiKey fst snd negb] in *.

Ltac destruct_studio s :=
  destruct s as [tb pr res ld stt size ar file cs]; eval_studio.

(** ** Image results *)

Lemma scanParts_none (parts : list LiveView.Part) (s : Studio) :
  Forall noInline parts -> scanParts parts s = (s, false).
Proof.
  induction 1 as [|p parts Hp _ IH]; [reflexivity|].
  cbn [scanParts]. unfold noInline in Hp. now rewrite Hp.
Qed.

Lemma scanParts_first (pre post : list LiveView.Part) (part : LiveView.Part)
    (b : LiveView.Blob) (s : Studio) :
  Forall noInline pre ->
  LiveView.inlineData part = Some b ->
  scanParts (pre ++ part :: post) s = (setResultUrl (Some (dataUrl b)) s, true).
Proof.
  intros Hpre Hb. induction Hpre as [|p pre Hp _ IH]; cbn [app scanParts].
  - now rewrite Hb.
  - unfold noInline in Hp. now rewrite Hp.
Qed.

(** X17. Of the parts of an image response only the first one with inline
    data counts: its data becomes the result as a PNG data URL, whatever
    comes before or after it, and even when its data is missing (the URL
    then ends in "undefined"). The status then keeps the text it had while
    the request was running. When no part has inline data, or the response
    has no parts, the result is left as it was and the status names the
    failure. Loading ends in every case. *)
Theorem image_result_is_first_inline_part (nothingFound : string)
    (s : Studio) :
  (forall pre part b post,
     Forall noInline pre ->
     LiveView.inlineData part = Some b ->
     let s' := settleImage nothingFound (Ok (Some (pre ++ part :: post))) s in
     resultUrl s' = Some (dataUrl b) /\
     status s' = status s /\ isLoading s' = false) /\
  (forall pre post,
     Forall noInline pre ->
     resultUrl (settleImage nothingFound
                  (Ok (Some (pre ++ LiveView.mkPart
                                      (Some (LiveView.mkBlob None)) :: post)))
                  s)
     = Some "data:image/png;base64,undefined"%string) /\
  (forall parts,
     Forall noInline parts ->
     let s' := settleImage nothingFound (Ok (Some parts)) s in
     resultUrl s' = resultUrl s /\
     status s' = nothingFound /\ isLoading s' = false) /\
  (let s' := settleImage nothingFound (Ok None) s in
   resultUrl s' = resultUrl s /\
   status s' = nothingFound /\ isLoading s' = false).
Proof.
  split; [|split; [|split]].
  - intros pre part b post Hpre Hb. cbv zeta. unfold settleImage.
    rewrite (scanParts_first pre post part b s Hpre Hb).
    destruct_studio s. auto.
  - intros pre post Hpre. unfold settleImage.
    rewrite (scanParts_first pre post
               (LiveView.mkPart (Some (LiveView.mkBlob None)))
               (LiveView.mkBlob None) s Hpre eq_refl).
    destruct_studio s. reflexivity.
  - intros parts Hp. cbv zeta. unfold settleImage.
    rewrite (scanParts_none parts s Hp). destruct_studio s. auto.
  - cbv zeta. unfold settleImage. cbn [scanParts]. destruct_studio s. auto.
Qed.

Lemma image_result_is_first_inline_part_witness :
  Forall noInline [LiveView.mkPart None] /\
  resultUrl
    (handleGenerateImage_settle
       (Ok (Some [LiveView.mkPart None;
                  LiveView.mkPart (Some (LiveView.mkBlob (Some "QUJD"%string)));
                  LiveView.mkPart (Some (LiveView.mkBlob (Some "REVG"%string)))]))
       (handleGenerateImage_begin (mkEnv None None "k") initialStudio))
  = Some "data:image/png;base64,QUJD"%string.
Proof.
  assert (H : Forall noInline [LiveView.mkPart None])
    by (repeat constructor).
  split; [exact H|].
  exact (proj1 (proj1 (image_result_is_first_inline_part
                         "No image generated. Check prompt."
                         (handleGenerateImage_begin (mkEnv None None "k")
                            initialStudio))
                  [LiveView.mkPart None]
                  (LiveView.mkPart (Some (LiveView.mkBlob (Some "QUJD"%string))))
                  (LiveView.mkBlob (Some "QUJD"%string))
                  [LiveView.mkPart (Some (LiveView.mkBlob (Some "REVG"%string)))]
                  H eq_refl)).
Defined.

Lemma settleImage_no_image (nothingFound : string)
    (o : Outcome (option (list LiveView.Part))) (s : Studio) :
  bringsNoImage o ->
  resultUrl (settleImage nothingFound o s) = resultUrl s /\
  isLoading (settleImage nothingFound o s) = false.
Proof.
  destruct o as [[parts|]|m]; cbn [bringsNoImage]; intros H;
    unfold settleImage.
  - rewrite (scanParts_none parts s H). destruct_studio s. auto.
  - cbn [scanParts]. destruct_studio s. auto.
  - destruct_studio s. auto.
Qed.

(** X18. A result is not tied to the request that produced it.
    [handleEditImage] does nothing without a selected file and, unlike
    [handleGenerateImage], does not clear the previous result: when the
    edit brings no image or fails, the earlier result is still displayed.
    And switching tabs keeps the result, shown as a video on the two Veo
    tabs and as an image on the two image tabs, whatever it is. *)
Theorem result_outlives_its_request (env : Env) (s : Studio) :
  (selectedFile s = None -> handleEditImage_begin s = None) /\
  (forall o s1,
     bringsNoImage o ->
     handleEditImage_begin s = Some s1 ->
     resultUrl (handleEditImage_settle o s1) = resultUrl s) /\
  (forall o,
     bringsNoImage o ->
     resultUrl (handleGenerateImage_settle o
                  (handleGenerateImage_begin env s)) = None) /\
  (forall t u,
     resultUrl s = Some u -> truthy u = true ->
     resultElement (setTab t s)
     = Some (match t with
             | VEO_VIDEO | ANIMATE_IMG => Video u
             | GENERATE_IMG | EDIT_IMG => Img u
             end)).
Proof.
  split; [|split; [|split]].
  - unfold handleEditImage_begin. now intros ->.
  - intros o s1 Ho Hb. unfold handleEditImage_settle.
    destruct (settleImage_no_image "No image returned." o s1 Ho) as (-> & _).
    unfold handleEditImage_begin in Hb.
    destruct (selectedFile s) as [f|] eqn:Ef; [|discriminate].
    inversion Hb; subst. destruct_studio s. reflexivity.
  - intros o Ho. unfold handleGenerateImage_settle.
    destruct (settleImage_no_image "No image generated. Check prompt." o
                (handleGenerateImage_begin env s) Ho) as (-> & _).
    unfold handleGenerateImage_begin.
    destruct env as [[[[|]]|] k1 k2]; destruct_studio s;
      destruct (String.eqb size "1K"); reflexivity.
  - intros t u Hu Ht. unfold resultElement, rendersVideo.
    destruct_studio s. subst res. rewrite Ht.
    destruct t; reflexivity.
Qed.

Lemma result_outlives_its_request_witness :
  resultUrl (mkStudio GENERATE_IMG EmptyString (Some "data:image/png;base64,QUJD"%string)
               false EmptyString "1K" "1:1" None [])
  = Some "data:image/png;base64,QUJD"%string /\
  resultElement
    (setTab VEO_VIDEO
       (mkStudio GENERATE_IMG EmptyString (Some "data:image/png;base64,QUJD"%string)
          false EmptyString "1K" "1:1" None []))
  = Some (Video "data:image/png;base64,QUJD").
Proof.
  split; [reflexivity|].
  exact (proj2 (proj2 (proj2 (result_outlives_its_request
                                (mkEnv None None "k")
                                (mkStudio GENERATE_IMG EmptyString
                                   (Some "data:image/png;base64,QUJD"%string)
                                   false EmptyString "1K" "1:1" None []))))
           VEO_VIDEO "data:image/png;base64,QUJD"%string eq_refl eq_refl).
Defined.


(** ** Video: the request *)

Lemma orElse_truthy (a b : string) :
  truthy b = true -> truthy (orElse a b) = true.
Proof. unfold orElse. destruct (truthy a) eqn:E; auto. Qed.

(** X19. An image is attached to the video request only on the Animate
    tab with a file selected, and the prompt sent with it is never empty:
    an empty prompt becomes "Animate this image". Animate without a file
    sends exactly the request of the plain video tab, and the plain video
    tab ignores a selected file; in both the prompt goes out as typed,
    empty or not. *)
Theorem video_request_shape (s : Studio) :
  (forall f, selectedFile s = Some f ->
             image (videoRequest true s) = Some f /\
             truthy (videoPrompt (videoRequest true s)) = true /\
             (truthy (prompt s) = true ->
              videoPrompt (videoRequest true s) = prompt s)) /\
  (selectedFile s = None -> videoRequest true s = videoRequest false s) /\
  image (videoRequest false s) = None /\
  videoPrompt (videoRequest false s) = prompt s.
Proof.
  unfold videoRequest. repeat split.
  - rewrite H. reflexivity.
  - rewrite H. cbn [videoPrompt]. now apply orElse_truthy.
  - intros Hp. rewrite H. cbn [videoPrompt]. unfold orElse. now rewrite Hp.
  - now intros ->.
Qed.

Lemma video_request_shape_witness :
  selectedFile (mkStudio ANIMATE_IMG EmptyString None false EmptyString "1K" "1:1"
                  (Some (mkFile "image/png" "QUJD")) [])
  = Some (mkFile "image/png" "QUJD") /\
  videoPrompt
    (videoRequest true
       (mkStudio ANIMATE_IMG EmptyString None false EmptyString "1K" "1:1"
          (Some (mkFile "image/png" "QUJD")) []))
  = "Animate this image"%string.
Proof.
  split; [reflexivity|].
  destruct (proj1 (video_request_shape
                     (mkStudio ANIMATE_IMG EmptyString None false EmptyString "1K" "1:1"
                        (Some (mkFile "image/png" "QUJD")) []))
              (mkFile "image/png" "QUJD") eq_refl) as (_ & _ & _).
  reflexivity.
Defined.

(** ** Video: polling *)

Lemma pollCount_app (l l' : list Call) :
  pollCount (l ++ l') = (pollCount l + pollCount l')%nat.
Proof. unfold pollCount. now rewrite filter_app, length_app. Qed.

Lemma pollLoop_waits (ops : list Operation) (operation : Operation)
    (s : Studio) :
  done operation = false ->
  Forall (fun o => done o = false) ops ->
  exists s',
    pollLoop operation (map Ok ops) s = (s', None) /\
    sameButStatus s s' /\
    pollCount (calls s')
    = (pollCount (calls s) + List.length ops + 1)%nat.
Proof.
  intros Hd Hops. revert operation s Hd.
  induction Hops as [|o ops Ho _ IH]; intros operation s Hd;
    cbn [map pollLoop]; rewrite Hd.
  - eexists. split; [reflexivity|]. unfold sameButStatus.
    destruct_studio s. rewrite pollCount_app. cbn. repeat split; lia.
  - destruct (IH o (setStatus ("Rendering... "
                               ++ orElseOpt (state o) "processing")
                       (emit [Wait 5000; GetVideosOperation] s)) Ho)
      as (s' & E & Hsame & Hc).
    exists s'. split; [exact E|]. revert Hsame Hc. unfold sameButStatus.
    destruct_studio s. rewrite pollCount_app. cbn [List.length].
    intros (? & ? & ? & ? & ?) ->. cbn. repeat split; auto; lia.
Qed.

Lemma pollLoop_done (operation : Operation)
    (answers : list (Outcome Operation)) (s : Studio) :
  done operation = true ->
  pollLoop operation answers s = (s, Some (Ok operation)).
Proof. intros H. destruct answers; cbn [pollLoop]; now rewrite H. Qed.

Lemma pollLoop_step (operation o : Operation)
    (rest : list (Outcome Operation)) (s : Studio) :
  done operation = false ->
  pollLoop operation (Ok o :: rest) s
  = pollLoop o rest
      (setStatus ("Rendering... " ++ orElseOpt (state o) "processing")
         (emit [Wait 5000; GetVideosOperation] s)).
Proof. intros H. cbn [pollLoop]. now rewrite H. Qed.

(** Answers after the first one that is done are never asked for. *)
Lemma pollLoop_cut (pre : list Operation) (r : Operation)
    (post : list (Outcome Operation)) (operation : Operation) (s : Studio) :
  done r = true ->
  pollLoop operation (map Ok pre ++ Ok r :: post) s
  = pollLoop operation (map Ok pre ++ [Ok r]) s.
Proof.
  intros Hr. revert operation s.
  induction pre as [|o pre IH]; intros operation s; cbn [map app];
    destruct (done operation) eqn:Hd.
  - now rewrite !pollLoop_done.
  - rewrite !pollLoop_step by exact Hd. now rewrite !pollLoop_done.
  - now rewrite !pollLoop_done.
  - rewrite !pollLoop_step by exact Hd. apply IH.
Qed.

Lemma pollLoop_finishes (pre : list Operation) (r : Operation)
    (operation : Operation) (s : Studio) :
  done operation = false ->
  Forall (fun o => done o = false) pre ->
  done r = true ->
  exists s',
    pollLoop operation (map Ok pre ++ [Ok r]) s = (s', Some (Ok r)) /\
    sameButStatus s s' /\
    status s' = ("Rendering... " ++ orElseOpt (state r) "processing")%string /\
    pollCount (calls s')
    = (pollCount (calls s) + List.length pre + 1)%nat.
Proof.
  intros Hd Hpre Hr. revert operation s Hd.
  induction Hpre as [|o pre Ho _ IH]; intros operation s Hd;
    cbn [map app]; rewrite pollLoop_step by exact Hd.
  - rewrite pollLoop_done by exact Hr. eexists. split; [reflexivity|].
    unfold sameButStatus. destruct_studio s. rewrite pollCount_app. cbn.
    repeat split; lia.
  - destruct (IH o (setStatus ("Rendering... "
                               ++ orElseOpt (state o) "processing")
                       (emit [Wait 5000; GetVideosOperation] s)) Ho)
      as (s' & E & Hsame & Hst & Hc).
    exists s'. split; [exact E|]. revert Hsame Hc.
    unfold sameButStatus.
    destruct_studio s. rewrite pollCount_app. cbn [List.length].
    intros (? & ? & ? & ? & ?) ->. cbn.
    repeat split; auto; lia.
Qed.

Lemma handleVeo_unfold (env : Env) (isAnimation : bool)
    (operation : Operation) (answers : list (Outcome Operation))
    (download : Outcome string) (s : Studio) :
  handleVeo env isAnimation (Ok operation) answers download s
  = match pollLoop operation answers (submittedState env isAnimation s) with
    | (s, None) => Polling s
    | (s, Some (Threw message)) =>
        Returned (setIsLoading false (handleVeo_catch env message s))
    | (s, Some (Ok operation)) => Returned (finishVeo env download operation s)
    end.
Proof.
  unfold handleVeo, finishVeo. fold (submittedState env isAnimation s).
  destruct (pollLoop operation answers (submittedState env isAnimation s))
    as [s1 [[op|m]|]]; try reflexivity.
  destruct (uri op) as [u|]; [|reflexivity].
  destruct (truthy u); [|reflexivity].
  destruct download; reflexivity.
Qed.

Lemma finishVeo_spec (env : Env) (download : Outcome string)
    (operation : Operation) (s : Studio) :
  isLoading (finishVeo env download operation s) = false /\
  pollCount (calls (finishVeo env download operation s))
  = pollCount (calls s) /\
  (forall u objectUrl,
     uri operation = Some u -> truthy u = true -> download = Ok objectUrl ->
     resultUrl (finishVeo env download operation s) = Some objectUrl /\
     status (finishVeo env download operation s) = "Complete"%string) /\
  (uri operation = None \/ uri operation = Some EmptyString ->
   resultUrl (finishVeo env download operation s) = resultUrl s /\
   status (finishVeo env download operation s)
   = "Failed to generate video."%string).
Proof.
  unfold finishVeo, handleVeo_catch.
  destruct (uri operation) as [u|].
  - destruct (truthy u) eqn:Etu.
    + destruct download as [objectUrl | message].
      * destruct_studio s. rewrite pollCount_app.
        split; [reflexivity|]. split; [cbn; lia|]. split.
        -- intros u0 o0 _ _ Ho. inversion Ho; subst. auto.
        -- intros [Hn | Hn]; [discriminate|].
           inversion Hn; subst. discriminate.
      * destruct env as [[a|] k1 k2];
          destruct (match message with
                    | Some m => includes m "Requested entity was not found"
                    | None => false
                    end);
          destruct_studio s; repeat rewrite pollCount_app;
          (split; [reflexivity|]); (split; [cbn; lia|]);
          (split; [intros u0 o0 _ _ Ho; discriminate|]);
          intros [Hn | Hn]; try discriminate;
          inversion Hn; subst; discriminate.
    + destruct_studio s.
      split; [reflexivity|]. split; [reflexivity|]. split.
      * intros u0 o0 Hu Ht. inversion Hu; subst. congruence.
      * auto.
  - destruct_studio s.
    split; [reflexivity|]. split; [reflexivity|]. split.
    + intros u0 o0 Hu. discriminate.
    + auto.
Qed.

Lemma submittedState_loading (env : Env) (isAnimation : bool) (s : Studio) :
  isLoading (submittedState env isAnimation s) = true /\
  resultUrl (submittedState env isAnimation s) = None /\
  pollCount (calls (submittedState env isAnimation s)) = pollCount (calls s).
Proof.
  unfold submittedState.
  destruct env as [[[[|]]|] k1 k2]; destruct_studio s;
    repeat rewrite pollCount_app; cbn; repeat split; lia.
Qed.

(** X20. [handleVeo] polls every five seconds for as long as the operation
    is not done, with no limit: after any number of answers none of which
    is done it is still waiting, still loading, having asked once more
    than it was answered. It leaves the loop at the first answer that is
    done, having asked exactly as many times as that answer's position,
    and what would have been answered later plays no part. It then reports
    "Complete" with the downloaded video when the operation has a video
    address, and "Failed to generate video." without a result when it has
    none; loading ends in both cases. *)
Theorem veo_polls_until_done (env : Env) (isAnimation : bool)
    (operation : Operation) (download : Outcome string) (s : Studio) :
  done operation = false ->
  (forall ops,
     Forall (fun o => done o = false) ops ->
     exists s',
       handleVeo env isAnimation (Ok operation) (map Ok ops) download s
       = Polling s' /\
       isLoading s' = true /\ resultUrl s' = None /\
       pollCount (calls s')
       = (pollCount (calls s) + List.length ops + 1)%nat) /\
  (forall pre r post,
     Forall (fun o => done o = false) pre ->
     done r = true ->
     exists s',
       handleVeo env isAnimation (Ok operation) (map Ok pre ++ Ok r :: post)
         download s = Returned s' /\
       handleVeo env isAnimation (Ok operation) (map Ok pre ++ [Ok r])
         download s = Returned s' /\
       isLoading s' = false /\
       pollCount (calls s')
       = (pollCount (calls s) + List.length pre + 1)%nat /\
       (forall u objectUrl,
          uri r = Some u -> truthy u = true -> download = Ok objectUrl ->
          resultUrl s' = Some objectUrl /\ status s' = "Complete"%string) /\
       (uri r = None \/ uri r = Some EmptyString ->
        resultUrl s' = None /\
        status s' = "Failed to generate video."%string)).
Proof.
  intros Hd. split.
  - intros ops Hops. rewrite handleVeo_unfold.
    destruct (pollLoop_waits ops operation
                (submittedState env isAnimation s) Hd Hops)
      as (s' & E & (_ & _ & Hres & Hload & _) & Hc).
    rewrite E. exists s'. split; [reflexivity|].
    destruct (submittedState_loading env isAnimation s) as (Hl & Hr & Hp).
    rewrite Hload, Hres, Hc, Hl, Hr, Hp. auto.
  - intros pre r post Hpre Hr. rewrite !handleVeo_unfold.
    rewrite (pollLoop_cut pre r post operation _ Hr).
    destruct (pollLoop_finishes pre r operation
                (submittedState env isAnimation s) Hd Hpre Hr)
      as (s1 & E1 & (_ & _ & Hres1 & Hload1 & _) & Hst1 & Hc1).
    rewrite E1.
    destruct (submittedState_loading env isAnimation s) as (Hl & Hr0 & Hp0).
    rewrite Hr0 in Hres1. rewrite Hp0 in Hc1.
    destruct (finishVeo_spec env download r s1) as (F1 & F2 & F3 & F4).
    exists (finishVeo env download r s1).
    split; [reflexivity|]. split; [reflexivity|]. split; [exact F1|].
    split; [rewrite F2; exact Hc1|]. split; [exact F3|].
    intros Hu. destruct (F4 Hu) as (R1 & R2). rewrite R1, Hres1. auto.
Qed.


Lemma veo_polls_until_done_witness :
  done (mkOperation false None None) = false /\
  exists s',
    handleVeo (mkEnv None (Some "env-key"%string) "k") false
      (Ok (mkOperation false None None))
      [Ok (mkOperation false (Some "RUNNING"%string) None);
       Ok (mkOperation true None (Some "https://v/1?alt=media"%string));
       Ok (mkOperation true None None)]
      (Ok "blob:1"%string) initialStudio = Returned s' /\
    isLoading s' = false /\
    pollCount (calls s') = 2%nat.
Proof.
  split; [reflexivity|].
  destruct (proj2 (veo_polls_until_done (mkEnv None (Some "env-key"%string) "k")
                     false (mkOperation false None None) (Ok "blob:1"%string)
                     initialStudio eq_refl)
              [mkOperation false (Some "RUNNING"%string) None]
              (mkOperation true None (Some "https://v/1?alt=media"%string))
              [Ok (mkOperation true None None)]
              ltac:(repeat constructor) eq_refl)
    as (s' & E & _ & Hl & Hc & _).
  exists s'. split; [exact E|]. split; [exact Hl | exact Hc].
Defined.

(** ** Video: errors *)

Lemma prefix_app (sub b : string) : prefix sub (sub ++ b) = true.
Proof.
  induction sub as [|c sub IH].
  - cbn [append]. destruct b; reflexivity.
  - cbn [append prefix].
    destruct (Ascii.ascii_dec c c); [exact IH | congruence].
Qed.

Lemma includes_app (a sub b : string) :
  includes (a ++ sub ++ b) sub = true.
Proof.
  induction a as [|c a IH].
  - cbn [append]. destruct (sub ++ b)%string eqn:E; cbn [includes];
      rewrite <- E, prefix_app; reflexivity.
  - cbn [append includes]. rewrite IH. apply orb_true_r.
Qed.

(** X21. Not every failure of a video request is reported. When the error
    message contains "Requested entity was not found" and [window.aistudio]
    is absent, [handleVeo] ends with the status it set while starting, so
    no error text is shown; with [window.aistudio] present it opens the key
    selection and asks to try again. Every other error is shown as
    "Error: " followed by its message, "Error: undefined" when the error
    has none. Loading ends and no result is set in all these cases. *)
Theorem veo_key_error_reporting (env : Env) (isAnimation : bool)
    (answers : list (Outcome Operation)) (download : Outcome string)
    (s : Studio) :
  let started := if isAnimation
                 then "Animating (this takes minutes)..."%string
                 else "Generating Video (this takes minutes)..."%string in
  (forall a b,
     exists s',
       handleVeo env isAnimation
         (Threw (Some (a ++ "Requested entity was not found" ++ b)%string))
         answers download s = Returned s' /\
       isLoading s' = false /\ resultUrl s' = None /\
       status s' = match aistudio env with
                   | Some _ => "Key reset. Please try again."%string
                   | None => started
                   end /\
       (aistudio env <> None ->
        exists before, calls s' = before ++ [OpenSelectKey])) /\
  (forall m,
     includes m "Requested entity was not found" = false ->
     exists s',
       handleVeo env isAnimation (Threw (Some m)) answers download s
       = Returned s' /\
       isLoading s' = false /\ resultUrl s' = None /\
       status s' = ("Error: " ++ m)%string) /\
  (exists s',
     handleVeo env isAnimation (Threw None) answers download s = Returned s' /\
     isLoading s' = false /\ resultUrl s' = None /\
     status s' = "Error: undefined"%string).
Proof.
  cbv zeta. unfold handleVeo, handleVeo_catch. split; [|split].
  - intros a b. rewrite includes_app.
    destruct env as [[[[|]]|] k1 k2]; destruct isAnimation; destruct_studio s;
      eexists; (split; [reflexivity|]);
      cbn [isLoading resultUrl status calls aistudio];
      repeat split; try congruence;
      intros _; eexists; reflexivity.
  - intros m Hm. rewrite Hm.
    destruct env as [[[[|]]|] k1 k2]; destruct isAnimation; destruct_studio s;
      eexists; (split; [reflexivity|]); cbn; repeat split.
  - destruct env as [[[[|]]|] k1 k2]; destruct isAnimation; destruct_studio s;
      eexists; (split; [reflexivity|]); cbn; repeat split.
Qed.

Lemma veo_key_error_reporting_witness :
  includes "quota exceeded" "Requested entity was not found" = false /\
  exists s',
    handleVeo (mkEnv None None "k") false (Threw (Some "quota exceeded"%string))
      [] (Ok "blob:1"%string) initialStudio = Returned s' /\
    status s' = "Error: quota exceeded"%string.
Proof.
  split; [reflexivity|].
  destruct (proj1 (proj2 (veo_key_error_reporting (mkEnv None None "k") false
                            [] (Ok "blob:1"%string) initialStudio))
              "quota exceeded"%string eq_refl) as (s' & E & _ & _ & Hs).
  exists s'. split; [exact E | exact Hs].
Defined.

End MediaStudioFacts.

(* ===================================================================== *)
(** * The audio lab and the video analysis *)
(* ===================================================================== *)

Module AudioLabFacts.
Import Js AudioLab.

Lemma contextCount_app (l l' : list LiveView.Call) :
  contextCount (l ++ l') = (contextCount l + contextCount l')%nat.
Proof. unfold contextCount. now rewrite filter_app, length_app. Qed.

Lemma lab_closeCount_app (c : nat) (l l' : list LiveView.Call) :
  LiveView.closeCount c (l ++ l')
  = (LiveView.closeCount c l + LiveView.closeCount c l')%nat.
Proof. unfold LiveView.closeCount. now rewrite filter_app, length_app. Qed.

Lemma handleTTS_settle_counts (dec : string -> LiveView.AudioBuffer)
    (o : Outcome (option LiveView.Content)) (l : Lab) :
  contextCount (calls (handleTTS_settle dec o l))
  = (contextCount (calls l) + if audible o then 1 else 0)%nat /\
  (forall c, LiveView.closeCount c (calls (handleTTS_settle dec o l))
             = LiveView.closeCount c (calls l)) /\
  isProcessing (handleTTS_settle dec o l) = false.
Proof.
  unfold handleTTS_settle, audible.
  destruct o as [content | m];
    [|cbn [calls isProcessing]; repeat split; lia].
  destruct (audioOf content) as [base64|];
    [|cbn [calls isProcessing]; repeat split; lia].
  destruct (truthy base64); cbn [calls isProcessing];
    [|repeat split; lia].
  rewrite contextCount_app. split; [reflexivity|]. split; [|reflexivity].
  intros c. rewrite lab_closeCount_app. cbn. lia.
Qed.

(** X22. [handleTTS] does nothing for an empty text. Every response that
    carries audio creates a fresh audio context to play it, and no context
    is ever closed: after any series of speech requests as many contexts
    have been created as there were audible responses, and [close()] has
    been called on none. *)
Theorem speech_contexts_are_never_closed
    (dec : string -> LiveView.AudioBuffer)
    (os : list (Outcome (option LiveView.Content))) (l : Lab) :
  (text l = EmptyString -> handleTTS_begin l = None) /\
  contextCount (calls (settleAll dec os l))
  = (contextCount (calls l) + List.length (filter audible os))%nat /\
  (forall c, LiveView.closeCount c (calls (settleAll dec os l))
             = LiveView.closeCount c (calls l)).
Proof.
  split; [unfold handleTTS_begin; now intros ->|].
  revert l; induction os as [|o os IH]; intros l; cbn [settleAll filter].
  - split; [cbn [List.length]; lia | reflexivity].
  - destruct (IH (handleTTS_settle dec o l)) as (H1 & H2).
    destruct (handleTTS_settle_counts dec o l) as (C1 & C2 & _).
    split.
    + rewrite H1, C1. destruct (audible o); cbn [List.length]; lia.
    + intros c. now rewrite H2, C2.
Qed.

Lemma speech_contexts_are_never_closed_witness :
  text initialLab = EmptyString /\
  contextCount
    (calls (settleAll LiveView.exampleDecoder
              [Ok (Some (LiveView.mkContent
                           (Some [LiveView.mkPart
                                    (Some (LiveView.mkBlob
                                             (Some "AAAA"%string)))])));
               Ok None;
               Ok (Some (LiveView.mkContent
                           (Some [LiveView.mkPart
                                    (Some (LiveView.mkBlob
                                             (Some "AA"%string)))])))]
              initialLab))
  = 2%nat.
Proof.
  split; [reflexivity|].
  destruct (speech_contexts_are_never_closed LiveView.exampleDecoder
              [Ok (Some (LiveView.mkContent
                           (Some [LiveView.mkPart
                                    (Some (LiveView.mkBlob
                                             (Some "AAAA"%string)))])));
               Ok None;
               Ok (Some (LiveView.mkContent
                           (Some [LiveView.mkPart
                                    (Some (LiveView.mkBlob
                                             (Some "AA"%string)))])))]
              initialLab) as (_ & H & _).
  exact H.
Defined.

End AudioLabFacts.

Module VideoAnalysisFacts.
Import Js VideoAnalysis.

Lemma orElseOpt_truthy (a : option string) (b : string) :
  truthy b = true -> truthy (orElseOpt a b) = true.
Proof.
  intros Hb. unfold orElseOpt, orElse. destruct a as [s|]; [|exact Hb].
  destruct (truthy s) eqn:E; [exact E | exact Hb].
Qed.

(** X23. Without a file [analyze] does nothing and the button is
    disabled. With one, however the request settles (a text, an empty or
    missing text, an exception with or without a message), the report is
    not empty afterwards, so the Analysis Report panel is rendered, loading
    has ended and the button is enabled again. A failure replaces the
    previous report by its error text. *)
Theorem analysis_always_reports (a : Analysis)
    (o : Outcome (option string)) :
  (file a = None -> analyze_begin a = None /\ buttonDisabled a = true) /\
  (forall f,
     file a = Some f ->
     exists a1,
       analyze_begin a = Some (a1, f) /\
       buttonDisabled a1 = true /\
       showsReport (analyze_settle o a1) = true /\
       isLoading (analyze_settle o a1) = false /\
       buttonDisabled (analyze_settle o a1) = false /\
       (forall m, o = Threw m ->
                  analysis (analyze_settle o a1)
                  = ("Error: " ++ interpolate m)%string)).
Proof.
  split.
  - unfold analyze_begin, buttonDisabled. now intros ->.
  - intros f Hf. destruct a as [fl an ld]. cbn [file] in Hf. subst fl.
    eexists. split; [reflexivity|]. split; [reflexivity|].
    unfold showsReport, buttonDisabled.
    destruct o as [t | m]; cbn [analyze_settle file isLoading analysis].
    + split; [now apply orElseOpt_truthy|]. repeat split. discriminate.
    + repeat split. intros m0 H. now inversion H.
Qed.

Lemma analysis_always_reports_witness :
  file (mkAnalysis (Some (MediaStudio.mkFile "video/mp4" "AAAA")) EmptyString false)
  = Some (MediaStudio.mkFile "video/mp4" "AAAA") /\
  exists a1,
    analyze_begin
      (mkAnalysis (Some (MediaStudio.mkFile "video/mp4" "AAAA")) EmptyString false)
    = Some (a1, MediaStudio.mkFile "video/mp4" "AAAA") /\
    showsReport (analyze_settle (Ok (Some EmptyString)) a1) = true.
Proof.
  split; [reflexivity|].
  destruct (proj2 (analysis_always_reports
                     (mkAnalysis (Some (MediaStudio.mkFile "video/mp4" "AAAA"))
                        EmptyString false) (Ok (Some EmptyString)))
              (MediaStudio.mkFile "video/mp4" "AAAA") eq_refl)
    as (a1 & E & _ & H & _).
  exists a1. split; [exact E | exact H].
Defined.

End VideoAnalysisFacts.

(* ===================================================================== *)
(** * The realtime session when handlers overlap *)
(* ===================================================================== *)

Module LiveViewAsyncFacts.
Import LiveView LiveViewLog LiveViewAsync LiveViewFacts.

Section AsyncFacts.

Variable dec : string -> AudioBuffer.

(** ** The two halves of the handler *)

Lemma playDecoded_calls (b : AudioBuffer) (w : World) :
  calls (playDecoded b w)
  = calls w ++ [SourceStart (nextId w) (nextStartTimeRef w) b].
Proof. reflexivity. Qed.

Lemma playDecoded_cursor (b : AudioBuffer) (w : World) :
  nextStartTimeRef (playDecoded b w) = nextStartTimeRef w + duration b.
Proof. reflexivity. Qed.

Lemma playDecoded_sources (b : AudioBuffer) (w : World) :
  sourcesRef (playDecoded b w) = setAdd (nextId w) (sourcesRef w).
Proof. reflexivity. Qed.

Lemma playDecoded_context (b : AudioBuffer) (w : World) :
  audioContextRef (playDecoded b w) = audioContextRef w.
Proof. reflexivity. Qed.

Lemma scheduleChunk_split (now : Time) (p : string) (w : World) :
  scheduleChunk dec now p w
  = playDecoded (dec p) (setNextStartTime (Z.max (nextStartTimeRef w) now) w).
Proof. reflexivity. Qed.

Lemma interruptBlock_quiet (now : Time) (msg : LiveServerMessage) (w : World) :
  isInterrupted msg = false -> interruptBlock now msg w = w.
Proof. unfold interruptBlock. now intros ->. Qed.

(** [onmessage_begin] in terms of [chunkOf]. *)
Lemma onmessage_begin_unfold (now : Time) (msg : LiveServerMessage)
    (w : World) :
  onmessage_begin now msg w
  = match chunkOf msg, audioContextRef w with
    | Some p, Some ctx =>
        (setNextStartTime (Z.max (nextStartTimeRef w) now) w,
         Some (mkSuspended msg p ctx now))
    | _, _ => (interruptBlock now msg w, None)
    end.
Proof.
  unfold onmessage_begin, chunkOf.
  destruct (base64Audio msg) as [payload|]; [|reflexivity].
  destruct (truthy payload); destruct (audioContextRef w); reflexivity.
Qed.

(** The handler of the sequential model is the two halves run one after
    the other at one reading of the clock. *)
Lemma onmessage_split (now : Time) (msg : LiveServerMessage) (w : World) :
  onmessage dec now msg w
  = match onmessage_begin now msg w with
    | (w1, Some k) => onmessage_resume dec now k w1
    | (w1, None) => w1
    end.
Proof.
  rewrite onmessage_unfold, onmessage_begin_unfold. cbv zeta.
  destruct (chunkOf msg) as [p|]; [|reflexivity].
  destruct (audioContextRef w) as [c|]; [|reflexivity].
  reflexivity.
Qed.

(** A run of the sequential model is the run of tasks in which every
    handler resumes at once. *)
Lemma sequential_run (tr : list (Time * Event)) (w : World) :
  performAll dec (sequential tr) (mkLive w []) = mkLive (run dec tr w) [].
Proof.
  revert w; induction tr as [|[now e] tr IH]; intros w; [reflexivity|].
  destruct e; cbn [sequential performAll perform world awaiting run];
    try apply IH.
  cbn [step]. rewrite onmessage_split.
  destruct (onmessage_begin now msg w) as [w1 [k|]];
    cbn [app nth_error perform world awaiting]; apply IH.
Qed.

(** ** One task *)

Lemma perform_arrival (now : Time) (msg : LiveServerMessage) (s : Live) :
  perform dec now (Callback (OnMessage msg)) s
  = match chunkOf msg, audioContextRef (world s) with
    | Some p, Some ctx =>
        mkLive (setNextStartTime (Z.max (nextStartTimeRef (world s)) now)
                  (world s))
          (awaiting s ++ [mkSuspended msg p ctx now])
    | _, _ => mkLive (interruptBlock now msg (world s)) (awaiting s)
    end.
Proof.
  cbn [perform]. rewrite onmessage_begin_unfold.
  destruct (chunkOf msg); [destruct (audioContextRef (world s))|];
    cbn; now rewrite ?app_nil_r.
Qed.

Lemma perform_decoded (now : Time) (i : nat) (k : Suspended) (s : Live) :
  nth_error (awaiting s) i = Some k ->
  perform dec now (Decoded i) s
  = mkLive (interruptBlock now (suspendedMsg k)
              (playDecoded (dec (suspendedAudio k)) (world s)))
      (dropAt i (awaiting s)).
Proof. intros H. cbn [perform]. now rewrite H. Qed.

Lemma perform_decoded_none (now : Time) (i : nat) (s : Live) :
  nth_error (awaiting s) i = None -> perform dec now (Decoded i) s = s.
Proof. intros H. cbn [perform]. now rewrite H. Qed.

Lemma dropAt_incl (A : Type) (i : nat) (q : list A) (x : A) :
  In x (dropAt i q) -> In x q.
Proof.
  unfold dropAt. intros H. apply in_app_or in H as [H|H].
  - rewrite <- (firstn_skipn i q). apply in_or_app. now left.
  - rewrite <- (firstn_skipn (S i) q). apply in_or_app. now right.
Qed.

Lemma quietSuspended_In (q : list Suspended) (k : Suspended) :
  quietSuspended q = true -> In k q -> isInterrupted (suspendedMsg k) = false.
Proof.
  unfold quietSuspended. intros H Hin.
  rewrite forallb_forall in H. specialize (H k Hin).
  now destruct (isInterrupted (suspendedMsg k)).
Qed.

Lemma quietSuspended_dropAt (i : nat) (q : list Suspended) :
  quietSuspended q = true -> quietSuspended (dropAt i q) = true.
Proof.
  unfold quietSuspended. rewrite !forallb_forall.
  intros H k Hin. apply H. eapply dropAt_incl, Hin.
Qed.

(** The log only grows. *)
Lemma interruptBlock_calls (now : Time) (msg : LiveServerMessage) (w : World) :
  exists new, calls (interruptBlock now msg w) = calls w ++ new
              /\ scheduled new = [].
Proof.
  unfold interruptBlock. destruct (isInterrupted msg).
  - exists (map SourceStop (sourcesRef w)). split; [|apply scheduled_stops].
    destruct_world w; reflexivity.
  - exists []. split; [symmetry; apply app_nil_r | reflexivity].
Qed.

Lemma perform_calls (now : Time) (t : Task) (s : Live) :
  exists new, calls (world (perform dec now t s)) = calls (world s) ++ new.
Proof.
  destruct t as [e|i].
  - destruct e; try (cbn [perform world]; apply step_calls).
    rewrite perform_arrival.
    destruct (chunkOf msg); [destruct (audioContextRef (world s))|];
      cbn [world].
    1: exists []; symmetry; apply app_nil_r.
    all: destruct (interruptBlock_calls now msg (world s)) as (new & H & _);
      now exists new.
  - destruct (nth_error (awaiting s) i) as [k|] eqn:E.
    + rewrite (perform_decoded now i k s E). cbn [world].
      destruct (interruptBlock_calls now (suspendedMsg k)
                  (playDecoded (dec (suspendedAudio k)) (world s)))
        as (new & H & _).
      rewrite H, playDecoded_calls, <- app_assoc. eexists. reflexivity.
    + rewrite (perform_decoded_none now i s E).
      exists []. symmetry. apply app_nil_r.
Qed.

Lemma performAll_calls (tr : list (Time * Task)) (s : Live) :
  exists new,
    calls (world (performAll dec tr s)) = calls (world s) ++ new.
Proof.
  revert s; induction tr as [|[now t] tr IH]; intros s; cbn [performAll].
  - exists []. symmetry. apply app_nil_r.
  - destruct (IH (perform dec now t s)) as [n2 H2].
    destruct (perform_calls now t s) as [n1 H1].
    exists (n1 ++ n2). rewrite H2, H1. apply eq_sym, app_assoc.
Qed.

(** ** Quiet tasks: the cursor and the schedule *)

(** A quiet task either starts nothing, leaving the cursor or (the arrival
    of a chunk) raising it to the clock, or starts one source at the cursor
    and moves the cursor to its end. *)
Lemma perform_quiet (now : Time) (t : Task) (s : Live) :
  isQuietTask t = true ->
  quietSuspended (awaiting s) = true ->
  let s' := perform dec now t s in
  quietSuspended (awaiting s') = true /\
  audioContextRef (world s') = audioContextRef (world s) /\
  ((scheduled (calls (world s')) = scheduled (calls (world s)) /\
    awaiting s' = awaiting s /\
    nextStartTimeRef (world s') = nextStartTimeRef (world s) /\
    (isArrival t = false \/ audioContextRef (world s) = None))
   \/
   (exists msg p ctx,
      t = Callback (OnMessage msg) /\ chunkOf msg = Some p /\
      scheduled (calls (world s')) = scheduled (calls (world s)) /\
      awaiting s' = awaiting s ++ [mkSuspended msg p ctx now] /\
      nextStartTimeRef (world s') = Z.max (nextStartTimeRef (world s)) now)
   \/
   (exists i k,
      t = Decoded i /\ nth_error (awaiting s) i = Some k /\
      scheduled (calls (world s'))
      = scheduled (calls (world s))
        ++ [(nextStartTimeRef (world s), pendingDuration dec k)] /\
      awaiting s' = dropAt i (awaiting s) /\
      nextStartTimeRef (world s')
      = nextStartTimeRef (world s) + pendingDuration dec k)).
Proof.
  intros Hq Hs. cbv zeta. destruct t as [e|i].
  - cbn [isQuietTask] in Hq.
    destruct e.
    4: { rewrite perform_arrival.
         assert (Hi : isInterrupted msg = false).
         { unfold isQuietEvent in Hq. cbn in Hq.
           now destruct (isInterrupted msg). }
         destruct (chunkOf msg) as [p|] eqn:Hc;
           [destruct (audioContextRef (world s)) as [ctx|] eqn:Ec|];
           cbn [world awaiting]; rewrite ?interruptBlock_quiet by exact Hi.
         - split; [|split; [exact Ec|]].
           + unfold quietSuspended in *. rewrite forallb_app, Hs.
             cbn. now rewrite Hi.
           + right; left. exists msg, p, ctx. repeat split; auto.
         - split; [exact Hs|]. split; [congruence|]. left. auto.
         - split; [exact Hs|]. split; [reflexivity|]. left.
           repeat split; auto. left. cbn. now rewrite Hc. }
    all: cbn [perform world awaiting];
      (split; [exact Hs|]);
      destruct (step_quiet_other dec now _ (world s) Hq eq_refl)
        as (Hn & Ha & Hsch);
      split; [exact Ha | left; repeat split; auto].
  - destruct (nth_error (awaiting s) i) as [k|] eqn:E.
    + rewrite (perform_decoded now i k s E). cbn [world awaiting].
      assert (Hi : isInterrupted (suspendedMsg k) = false).
      { eapply quietSuspended_In; [exact Hs|]. eapply nth_error_In, E. }
      rewrite (interruptBlock_quiet _ _ _ Hi).
      split; [now apply quietSuspended_dropAt|].
      split; [apply playDecoded_context|].
      right; right. exists i, k. repeat split; auto.
      rewrite playDecoded_calls, scheduled_app. reflexivity.
    + rewrite (perform_decoded_none now i s E).
      split; [exact Hs|]. split; [reflexivity|]. left. repeat split; auto.
Qed.

(** ** Chains *)

Lemma lastEnd_snoc (c s d : Time) (sched : list (Time * Time)) :
  lastEnd c (sched ++ [(s, d)]) = s + d.
Proof. unfold lastEnd. now rewrite fold_left_app. Qed.

Lemma chainFrom_snoc (late : list Time) (c s d : Time)
    (sched : list (Time * Time)) :
  chainFrom late c sched ->
  s = lastEnd c sched \/ (lastEnd c sched < s /\ In s late) ->
  chainFrom late c (sched ++ [(s, d)]).
Proof.
  revert c; induction sched as [|[s0 d0] sched IH]; intros c Hc Hs.
  - cbn in *. auto.
  - cbn in Hc. destruct Hc as [H0 Hc]. cbn [app chainFrom].
    split; [exact H0|]. apply IH; assumption.
Qed.

Lemma chainFrom_nth (late : list Time) (sched : list (Time * Time)) :
  forall (c : Time) (n : nat) (s d s' d' : Time),
    chainFrom late c sched ->
    nth_error sched n = Some (s, d) ->
    nth_error sched (S n) = Some (s', d') ->
    s' = s + d \/ (s + d < s' /\ In s' late).
Proof.
  induction sched as [|[s0 d0] sched IH]; intros c n s d s' d' Hc Hn Hn'.
  - destruct n; discriminate.
  - cbn in Hc. destruct Hc as [_ Hc]. destruct n as [|n].
    + cbn in Hn. inversion Hn; subst.
      destruct sched as [|[s1 d1] sched]; [discriminate|].
      cbn in Hn'. inversion Hn'; subst. cbn in Hc. tauto.
    + cbn in Hn, Hn'. eapply IH; eauto.
Qed.

(** When nothing among [late] is later than the cursor, every start is
    the end of the entry before it. *)
Lemma chainFrom_tight (late : list Time) (sched : list (Time * Time)) :
  forall c : Time,
    chainFrom late c sched ->
    (forall t, In t late -> t <= c) ->
    (forall s d, In (s, d) sched -> 0 <= d) ->
    chainFrom [] c sched.
Proof.
  induction sched as [|[s0 d0] sched IH]; intros c Hc Hl Hd; [exact I|].
  cbn in Hc. destruct Hc as [H0 Hc].
  assert (E : s0 = c).
  { destruct H0 as [H0|[H0 H1]]; [exact H0|]. specialize (Hl s0 H1). lia. }
  subst s0. cbn. split; [now left|].
  assert (0 <= d0) by (apply (Hd c d0); now left).
  apply IH; [exact Hc| |].
  - intros t Ht. specialize (Hl t Ht). lia.
  - intros s d Hin. apply (Hd s d). now right.
Qed.

Lemma chainFrom_backToBack (sched : list (Time * Time)) (c : Time) :
  chainFrom [] c sched ->
  backToBack sched /\
  (forall s d, nth_error sched 0 = Some (s, d) -> s = c).
Proof.
  intros Hc. split.
  - intros n s d s' d' Hn Hn'.
    destruct (chainFrom_nth [] sched c n s d s' d' Hc Hn Hn') as [H|[_ []]].
    exact H.
  - intros s d H. destruct sched as [|[s0 d0] sched]; [discriminate|].
    cbn in H. inversion H; subst. cbn in Hc.
    destruct Hc as [[H0|[_ []]] _]. exact H0.
Qed.

Lemma arrivalStamps_cons (now : Time) (t : Task) (tr : list (Time * Task)) :
  arrivalStamps ((now, t) :: tr)
  = if isArrival t then now :: arrivalStamps tr else arrivalStamps tr.
Proof. unfold arrivalStamps. cbn. now destruct (isArrival t). Qed.

(** ** A quiet run follows a chain *)

Lemma performAll_chain (late : list Time) (tr : list (Time * Task)) :
  forall (s : Live) (c0 : Time) (sched0 : list (Time * Time)),
    forallb (fun tt => isQuietTask (snd tt)) tr = true ->
    quietSuspended (awaiting s) = true ->
    incl (arrivalStamps tr) late ->
    chainFrom late c0 sched0 ->
    cursorFollows late c0 sched0 (nextStartTimeRef (world s)) ->
    exists new,
      scheduled (calls (world (performAll dec tr s)))
      = scheduled (calls (world s)) ++ new /\
      chainFrom late c0 (sched0 ++ new) /\
      cursorFollows late c0 (sched0 ++ new)
        (nextStartTimeRef (world (performAll dec tr s))).
Proof.
  induction tr as [|[now t] tr IH]; intros s c0 sched0 Hq Hs Hl Hc Hf.
  - exists []. cbn [performAll]. rewrite !app_nil_r. auto.
  - cbn [forallb snd] in Hq. apply andb_prop in Hq as [Hq Hall].
    rewrite arrivalStamps_cons in Hl. cbn [performAll].
    destruct (perform_quiet now t s Hq Hs) as (Hs' & _ & Hstep).
    destruct Hstep as [(Hsch & _ & Hcur & _)
                      |[(msg & p & ctx & -> & Hp & Hsch & _ & Hcur)
                       |(i & k & -> & Hk & Hsch & _ & Hcur)]].
    + destruct (IH (perform dec now t s) c0 sched0 Hall Hs') as (new & A & B & C).
      * destruct (isArrival t); [|exact Hl].
        intros x Hx. apply Hl. now right.
      * exact Hc.
      * now rewrite Hcur.
      * exists new. rewrite A, Hsch. auto.
    + cbn [isArrival] in Hl. rewrite Hp in Hl.
      destruct (IH (perform dec now (Callback (OnMessage msg)) s) c0 sched0
                  Hall Hs') as (new & A & B & C).
      * intros x Hx. apply Hl. now right.
      * exact Hc.
      * rewrite Hcur. unfold cursorFollows in *.
        assert (Hnow : In now late) by (apply Hl; now left).
        destruct (Z.max_spec (nextStartTimeRef (world s)) now)
          as [[Hlt ->]|[Hge ->]]; [|exact Hf].
        destruct Hf as [Hf|[Hf _]]; right; split; auto; lia.
      * exists new. rewrite A, Hsch. auto.
    + cbn [isArrival] in Hl.
      set (e := (nextStartTimeRef (world s), pendingDuration dec k)) in *.
      destruct (IH (perform dec now (Decoded i) s) c0 (sched0 ++ [e])
                  Hall Hs') as (new & A & B & C).
      * exact Hl.
      * apply chainFrom_snoc; [exact Hc | exact Hf].
      * left. subst e. now rewrite lastEnd_snoc, Hcur.
      * exists (e :: new). rewrite A, Hsch, <- !app_assoc in *.
        cbn [app] in *. auto.
Qed.

(** The sources started by a quiet run, read off the log. *)
Lemma performAll_schedule (late : list Time) (tr : list (Time * Task))
    (s : Live) :
  forallb (fun tt => isQuietTask (snd tt)) tr = true ->
  quietSuspended (awaiting s) = true ->
  incl (arrivalStamps tr) late ->
  chainFrom late (nextStartTimeRef (world s))
    (scheduled (since (world s) (world (performAll dec tr s)))).
Proof.
  intros Hq Hs Hl.
  destruct (performAll_chain late tr s (nextStartTimeRef (world s)) []
              Hq Hs Hl I) as (new & A & B & _).
  { now left. }
  destruct (performAll_calls tr s) as [cs Hcs].
  rewrite (calls_since _ _ _ Hcs).
  rewrite Hcs, scheduled_app in A. apply app_inv_head in A.
  now rewrite A.
Qed.

(** ** Decodes that settle in arrival order *)

Lemma arrivals_not_arrival (now : Time) (t : Task) (tr : list (Time * Task)) :
  isArrival t = false -> arrivals ((now, t) :: tr) = arrivals tr.
Proof.
  destruct t as [e|i]; [destruct e|]; try reflexivity.
  cbn. now destruct (chunkOf msg).
Qed.

Lemma performAll_fifo (tr : list (Time * Task)) :
  forall s : Live,
    forallb (fun tt => isQuietTask (snd tt)) tr = true ->
    isFifo tr = true ->
    quietSuspended (awaiting s) = true ->
    audioContextRef (world s) <> None ->
    exists new,
      scheduled (calls (world (performAll dec tr s)))
      = scheduled (calls (world s)) ++ new /\
      map snd new
      ++ map (pendingDuration dec) (awaiting (performAll dec tr s))
      = map (pendingDuration dec) (awaiting s)
        ++ map (fun p => duration (dec p)) (arrivals tr).
Proof.
  induction tr as [|[now t] tr IH]; intros s Hq Hf Hs Hctx.
  - exists []. cbn. now rewrite !app_nil_r.
  - cbn [forallb snd] in Hq. apply andb_prop in Hq as [Hq Hall].
    unfold isFifo in Hf. cbn [forallb snd] in Hf.
    apply andb_prop in Hf as [Hf0 Hf]. fold (isFifo tr) in Hf.
    cbn [performAll].
    destruct (perform_quiet now t s Hq Hs) as (Hs' & Hctx' & Hstep).
    destruct (IH (perform dec now t s) Hall Hf Hs') as (new & A & B).
    { now rewrite Hctx'. }
    destruct Hstep as [(Hsch & Haw & _ & Harr)
                      |[(msg & p & ctx & -> & Hp & Hsch & Haw & _)
                       |(i & k & -> & Hk & Hsch & Haw & _)]].
    + destruct Harr as [Harr|Harr]; [|contradiction].
      exists new. rewrite A, Hsch, B, Haw, (arrivals_not_arrival now t tr Harr).
      auto.
    + exists new. rewrite A, Hsch, B, Haw. split; [reflexivity|].
      cbn [arrivals]. rewrite Hp, map_app, <- app_assoc. reflexivity.
    + apply Nat.eqb_eq in Hf0. subst i.
      destruct (awaiting s) as [|k0 q'] eqn:Eq; [discriminate|].
      cbn in Hk. inversion Hk; subst k0.
      exists ((nextStartTimeRef (world s), pendingDuration dec k) :: new).
      rewrite A, Hsch, <- app_assoc. split; [reflexivity|].
      cbn [map snd app]. rewrite B, Haw. reflexivity.
Qed.

Lemma performAll_quiet_inv (tr : list (Time * Task)) :
  forall s : Live,
    forallb (fun tt => isQuietTask (snd tt)) tr = true ->
    quietSuspended (awaiting s) = true ->
    quietSuspended (awaiting (performAll dec tr s)) = true /\
    audioContextRef (world (performAll dec tr s))
    = audioContextRef (world s).
Proof.
  induction tr as [|[now t] tr IH]; intros s Hq Hs; [auto|].
  cbn [forallb snd] in Hq. apply andb_prop in Hq as [Hq Hall].
  cbn [performAll].
  destruct (perform_quiet now t s Hq Hs) as (Hs' & Hctx & _).
  destruct (IH _ Hall Hs') as (A & B). split; [exact A|]. now rewrite B.
Qed.

(** Between two decodes only arrivals move the cursor: it ends at the
    latest of where it stood and the readings at which chunks arrived. *)
Lemma callbacks_cursor (mid : list (Time * Task)) :
  forall s : Live,
    forallb (fun tt => isQuietTask (snd tt)) mid = true ->
    forallb (fun tt => negb (isDecoded (snd tt))) mid = true ->
    quietSuspended (awaiting s) = true ->
    audioContextRef (world s) <> None ->
    nextStartTimeRef (world (performAll dec mid s))
    = fold_left Z.max (arrivalStamps mid) (nextStartTimeRef (world s)) /\
    scheduled (calls (world (performAll dec mid s)))
    = scheduled (calls (world s)).
Proof.
  induction mid as [|[now t] mid IH]; intros s Hq Hd Hs Hctx; [auto|].
  cbn [forallb snd] in Hq, Hd.
  apply andb_prop in Hq as [Hq Hall]. apply andb_prop in Hd as [Hd Hdall].
  cbn [performAll]. rewrite arrivalStamps_cons.
  destruct (perform_quiet now t s Hq Hs) as (Hs' & Hctx' & Hstep).
  destruct (IH (perform dec now t s) Hall Hdall Hs') as (A & B).
  { now rewrite Hctx'. }
  destruct Hstep as [(Hsch & _ & Hcur & Harr)
                    |[(msg & p & ctx & -> & Hp & Hsch & _ & Hcur)
                     |(i & k & -> & _)]].
  - destruct Harr as [Harr|Harr]; [|contradiction].
    rewrite Harr, A, B, Hcur, Hsch. auto.
  - cbn [isArrival]. rewrite Hp. cbn [fold_left].
    rewrite A, B, Hcur, Hsch. auto.
  - discriminate Hd.
Qed.

Lemma prefix_firstn (A : Type) (a x l : list A) :
  a ++ x = l -> a = firstn (List.length a) l.
Proof.
  intros <-. rewrite firstn_app, Nat.sub_diag, firstn_all. cbn.
  now rewrite app_nil_r.
Qed.

Lemma since_arrival (now : Time) (msg : LiveServerMessage) (s : Live)
    (tr : list (Time * Task)) :
  chunkOf msg <> None -> audioContextRef (world s) <> None ->
  exists k,
    perform dec now (Callback (OnMessage msg)) s
    = mkLive (setNextStartTime (Z.max (nextStartTimeRef (world s)) now)
                (world s))
        (awaiting s ++ [k]) /\
    suspendedMsg k = msg /\ arrivedAt k = now /\
    chunkOf msg = Some (suspendedAudio k).
Proof.
  intros Hc Hctx. rewrite perform_arrival.
  destruct (chunkOf msg) as [p|]; [|congruence].
  destruct (audioContextRef (world s)) as [ctx|]; [|congruence].
  eexists. split; [reflexivity|]. cbn. auto.
Qed.

(** C1 (amended). In a started session, along every run of tasks without
    an interruption signal and without a new [startSession], whatever
    handlers are suspended at its beginning and however arrivals and
    decodes interleave: sources are started in the order in which decodes
    settle; consecutive starts never overlap, start(n+1) >= start(n) +
    duration(n), and start(n+1) is exactly start(n) + duration(n) unless it
    is the clock reading at which some chunk arrived, later than the end of
    chunk n: the start that follows another is the later of the end of that
    one and the latest reading at which a chunk arrived in between. Once a
    chunk has arrived at a reading t0 not before the cursor
    and no chunk arrives at a later reading, the first start is t0 and
    every start is exactly back-to-back; if moreover decodes settle in
    arrival order the durations follow the arrival order. In particular
    chunks of 200 ms, 150 ms and 300 ms that arrive without delay and are
    decoded in arrival order start at t0, t0 + 200 ms and
    (t0 + 200 ms) + 150 ms. *)
Theorem chunks_back_to_back_unless_late (w : World) (q : list Suspended) :
  audioContextRef w <> None ->
  quietSuspended q = true ->
  (forall tr : list (Time * Task),
     forallb (fun tt => isQuietTask (snd tt)) tr = true ->
     let sched :=
       scheduled (since w (world (performAll dec tr (mkLive w q)))) in
     (forall s d,
        nth_error sched 0 = Some (s, d) ->
        s = nextStartTimeRef w
        \/ (nextStartTimeRef w < s /\ In s (arrivalStamps tr))) /\
     (forall n s d s' d',
        nth_error sched n = Some (s, d) ->
        nth_error sched (S n) = Some (s', d') ->
        s <= s' /\
        s + d <= s' /\
        (s' = s + d \/ In s' (arrivalStamps tr)) /\
        ((forall t, In t (arrivalStamps tr) -> t <= s + d) -> s' = s + d)) /\
     (forall pre r1 i k1 mid r2 j k2 post,
        tr = pre ++ (r1, Decoded i) :: mid ++ (r2, Decoded j) :: post ->
        forallb (fun tt => negb (isDecoded (snd tt))) mid = true ->
        let sA := performAll dec pre (mkLive w q) in
        let sB := performAll dec mid (perform dec r1 (Decoded i) sA) in
        nth_error (awaiting sA) i = Some k1 ->
        nth_error (awaiting sB) j = Some k2 ->
        let s1 := nextStartTimeRef (world sA) in
        let d1 := pendingDuration dec k1 in
        scheduled (since (world sA) (world (perform dec r2 (Decoded j) sB)))
        = [(s1, d1);
           (fold_left Z.max (arrivalStamps mid) (s1 + d1),
            pendingDuration dec k2)]))
  /\
  (forall (t0 : Time) (m1 : LiveServerMessage) (tr : list (Time * Task)),
     chunkOf m1 <> None ->
     isInterrupted m1 = false ->
     nextStartTimeRef w <= t0 ->
     forallb (fun tt => isQuietTask (snd tt)) tr = true ->
     (forall t, In t (arrivalStamps tr) -> t <= t0) ->
     let run := (t0, Callback (OnMessage m1)) :: tr in
     let sched :=
       scheduled (since w (world (performAll dec run (mkLive w q)))) in
     backToBack sched /\
     (forall s d, nth_error sched 0 = Some (s, d) -> s = t0) /\
     (isFifo tr = true ->
      map snd sched
      = firstn (List.length sched)
          (map (pendingDuration dec) q
           ++ map (fun p => duration (dec p)) (arrivals run))))
  /\
  (forall (t0 : Time) (m1 : LiveServerMessage) (p1 p2 p3 : string)
          (tr : list (Time * Task)),
     chunkOf m1 = Some p1 ->
     isInterrupted m1 = false ->
     nextStartTimeRef w <= t0 ->
     forallb (fun tt => isQuietTask (snd tt)) tr = true ->
     isFifo tr = true ->
     (forall t, In t (arrivalStamps tr) -> t <= t0) ->
     arrivals tr = [p2; p3] ->
     duration (dec p1) = ms 200 ->
     duration (dec p2) = ms 150 ->
     duration (dec p3) = ms 300 ->
     let run := (t0, Callback (OnMessage m1)) :: tr in
     let sched :=
       scheduled (since w (world (performAll dec run (mkLive w [])))) in
     List.length sched = 3%nat ->
     sched = [(t0, ms 200); (t0 + ms 200, ms 150);
              (t0 + ms 200 + ms 150, ms 300)]).
Proof.
  intros Hctx Hq.
  assert (NoDelay :
    forall (q0 : list Suspended) (t0 : Time) (m1 : LiveServerMessage)
           (tr : list (Time * Task)),
      quietSuspended q0 = true ->
      chunkOf m1 <> None ->
      isInterrupted m1 = false ->
      nextStartTimeRef w <= t0 ->
      forallb (fun tt => isQuietTask (snd tt)) tr = true ->
      (forall t, In t (arrivalStamps tr) -> t <= t0) ->
      let run := (t0, Callback (OnMessage m1)) :: tr in
      let sched :=
        scheduled (since w (world (performAll dec run (mkLive w q0)))) in
      backToBack sched /\
      (forall s d, nth_error sched 0 = Some (s, d) -> s = t0) /\
      (isFifo tr = true ->
       map snd sched
       = firstn (List.length sched)
           (map (pendingDuration dec) q0
            ++ map (fun p => duration (dec p)) (arrivals run)))).
  { intros q0 t0 m1 tr Hq0 Hc Hi Hle Hall Hl run sched. subst run sched.
    cbn [performAll].
    destruct (since_arrival t0 m1 (mkLive w q0) tr Hc Hctx)
      as (k & -> & Hkm & _ & Hkp).
    cbn [world awaiting].
    set (w1 := setNextStartTime (Z.max (nextStartTimeRef w) t0) w).
    assert (Hq1 : quietSuspended (q0 ++ [k]) = true).
    { unfold quietSuspended in *. rewrite forallb_app, Hq0. cbn.
      now rewrite Hkm, Hi. }
    assert (E : since w (world (performAll dec tr (mkLive w1 (q0 ++ [k]))))
                = since w1 (world (performAll dec tr (mkLive w1 (q0 ++ [k]))))).
    { reflexivity. }
    rewrite E.
    assert (Hcur : nextStartTimeRef w1 = t0).
    { subst w1. cbn. lia. }
    pose proof (performAll_schedule (arrivalStamps tr) tr
                  (mkLive w1 (q0 ++ [k])) Hall Hq1 (incl_refl _)) as Hch.
    cbn [world] in Hch. rewrite Hcur in Hch.
    apply chainFrom_tight in Hch; [|exact Hl|].
    2: { intros s d Hin. eapply scheduled_nonneg, Hin. }
    destruct (chainFrom_backToBack _ _ Hch) as [Hb Hf].
    split; [exact Hb|]. split; [exact Hf|].
    intros Hfifo.
    destruct (performAll_fifo tr (mkLive w1 (q0 ++ [k])) Hall Hfifo Hq1)
      as (new & A & B).
    { exact Hctx. }
    destruct (performAll_calls tr (mkLive w1 (q0 ++ [k]))) as [cs Hcs].
    cbn [world awaiting] in *.
    rewrite (calls_since _ _ _ Hcs).
    rewrite Hcs, scheduled_app in A. apply app_inv_head in A. rewrite A.
    rewrite <- (length_map snd new).
    cbn [arrivals]. rewrite Hkp. cbn [map].
    replace (map (pendingDuration dec) q0
             ++ duration (dec (suspendedAudio k))
                :: map (fun p => duration (dec p)) (arrivals tr))
      with (map (pendingDuration dec) (q0 ++ [k])
            ++ map (fun p => duration (dec p)) (arrivals tr))
      by (rewrite map_app, <- app_assoc; reflexivity).
    rewrite <- B. eapply prefix_firstn. reflexivity. }
  split; [|split].
  - intros tr Hall sched. subst sched.
    pose proof (performAll_schedule (arrivalStamps tr) tr (mkLive w q)
                  Hall Hq (incl_refl _)) as Hch.
    cbn [world] in Hch. split; [|split].
    + intros s d H0.
      destruct (scheduled (since w (world (performAll dec tr (mkLive w q)))))
        as [|[s0 d0] rest]; [discriminate|].
      cbn in H0. inversion H0; subst. cbn in Hch. tauto.
    + intros n s d s' d' Hn Hn'.
      assert (Hd : 0 <= d).
      { eapply scheduled_nonneg, nth_error_In, Hn. }
      destruct (chainFrom_nth _ _ _ n s d s' d' Hch Hn Hn') as [H|[H1 H2]].
      * split; [lia|]. split; [lia|]. split; [now left | auto].
      * split; [lia|]. split; [lia|]. split; [now right|].
        intros Hl. specialize (Hl s' H2). lia.
    + intros pre r1 i k1 mid r2 j k2 post -> Hmid sA sB Hk1 Hk2 s1 d1.
      rewrite forallb_app in Hall. apply andb_prop in Hall as [Hpre Hrest].
      cbn [forallb snd] in Hrest. apply andb_prop in Hrest as [_ Hrest].
      rewrite forallb_app in Hrest. apply andb_prop in Hrest as [Hmidq _].
      destruct (performAll_quiet_inv pre (mkLive w q) Hpre Hq) as (HqA & HcA).
      fold sA in HqA, HcA. cbn [world] in HcA.
      destruct (perform_quiet r1 (Decoded i) sA eq_refl HqA)
        as (Hq1 & Hc1 & Hstep1).
      destruct Hstep1 as [(_ & Haw & _)|[(msg & p & ctx & Hd & _)
                                       |(i' & k' & Hd & Hk' & Hsch1 & _ & Hcur1)]].
      { exfalso. unfold perform in Haw. rewrite Hk1 in Haw. cbn in Haw.
        assert (Hl : List.length (dropAt i (awaiting sA))
                     = List.length (awaiting sA)) by now rewrite Haw.
        unfold dropAt in Hl. rewrite length_app, length_firstn,
          length_skipn in Hl.
        assert (i < List.length (awaiting sA))%nat
          by (apply nth_error_Some; congruence).
        lia. }
      { discriminate Hd. }
      inversion Hd; subst i'. rewrite Hk1 in Hk'. inversion Hk'; subst k'.
      destruct (callbacks_cursor mid (perform dec r1 (Decoded i) sA)
                  Hmidq Hmid Hq1) as (HcurB & HschB).
      { rewrite Hc1, HcA. exact Hctx. }
      fold sB in HcurB, HschB.
      destruct (performAll_quiet_inv mid (perform dec r1 (Decoded i) sA)
                  Hmidq Hq1) as (HqB & _). fold sB in HqB.
      destruct (perform_quiet r2 (Decoded j) sB eq_refl HqB)
        as (_ & _ & Hstep2).
      destruct Hstep2 as [(_ & Haw & _)|[(msg & p & ctx & Hd2 & _)
                                       |(j' & k'' & Hd2 & Hk'' & Hsch2 & _)]].
      { exfalso. unfold perform in Haw. rewrite Hk2 in Haw. cbn in Haw.
        assert (Hl : List.length (dropAt j (awaiting sB))
                     = List.length (awaiting sB)) by now rewrite Haw.
        unfold dropAt in Hl. rewrite length_app, length_firstn,
          length_skipn in Hl.
        assert (j < List.length (awaiting sB))%nat
          by (apply nth_error_Some; congruence).
        lia. }
      { discriminate Hd2. }
      inversion Hd2; subst j'. rewrite Hk2 in Hk''. inversion Hk''; subst k''.
      destruct (perform_calls r1 (Decoded i) sA) as [n1 Hn1].
      destruct (performAll_calls mid (perform dec r1 (Decoded i) sA))
        as [n2 Hn2]. fold sB in Hn2.
      destruct (perform_calls r2 (Decoded j) sB) as [n3 Hn3].
      assert (Hall3 : calls (world (perform dec r2 (Decoded j) sB))
                      = calls (world sA) ++ (n1 ++ n2 ++ n3)).
      { rewrite Hn3, Hn2, Hn1, <- !app_assoc. reflexivity. }
      rewrite (calls_since _ _ _ Hall3).
      rewrite Hn3, scheduled_app in Hsch2. apply app_inv_head in Hsch2.
      rewrite Hn2, scheduled_app in HschB.
      rewrite <- (app_nil_r (scheduled (calls (world (perform dec r1
                                                        (Decoded i) sA)))))
        in HschB at 2.
      apply app_inv_head in HschB.
      rewrite Hn1, scheduled_app in Hsch1. apply app_inv_head in Hsch1.
      rewrite !scheduled_app, Hsch1, HschB, Hsch2, HcurB, Hcur1.
      reflexivity.
  - intros t0 m1 tr. apply NoDelay. exact Hq.
  - intros t0 m1 p1 p2 p3 tr Hc Hi Hle Hall Hfifo Hl Harr D1 D2 D3 run sched
           Hlen.
    destruct (NoDelay [] t0 m1 tr eq_refl) as (Hb & Hf & Hd); auto.
    { congruence. }
    specialize (Hd Hfifo). fold run in Hb, Hf, Hd. fold sched in Hb, Hf, Hd.
    subst run. cbn [arrivals map app] in Hd. rewrite Hc, Harr in Hd.
    cbn [map] in Hd. rewrite D1, D2, D3, Hlen in Hd. cbn [firstn] in Hd.
    destruct sched as [|[s1 d1] [|[s2 d2] [|[s3 d3] [|]]]]; try discriminate.
    cbn in Hd. inversion Hd; subst.
    assert (s1 = t0) by (apply (Hf s1 (ms 200)); reflexivity). subst s1.
    assert (s2 = t0 + ms 200)
      by (apply (Hb 0%nat t0 (ms 200) s2 (ms 150)); reflexivity).
    subst s2.
    assert (s3 = t0 + ms 200 + ms 150)
      by (apply (Hb 1%nat (t0 + ms 200) (ms 150) s3 (ms 300)); reflexivity).
    subst s3. reflexivity.
Qed.

(** ** No chunk starts before it arrived *)

Lemma interruptBlock_cursor (now : Time) (msg : LiveServerMessage)
    (w : World) :
  nextStartTimeRef (interruptBlock now msg w) = nextStartTimeRef w \/
  nextStartTimeRef (interruptBlock now msg w) = now.
Proof.
  unfold interruptBlock. destruct (isInterrupted msg); [|now left].
  destruct_world w; auto.
Qed.

Lemma arrivedBy_later (t t' : Time) (s : Live) :
  arrivedBy t s -> t <= t' -> arrivedBy t' s.
Proof. intros H Hle k Hk. destruct (H k Hk). split; lia. Qed.

Lemma perform_arrivedBy (t0 now : Time) (t : Task) (s : Live) :
  isRestart t = false ->
  t0 <= now ->
  arrivedBy t0 s ->
  arrivedBy now (perform dec now t s).
Proof.
  intros Hr Hle Ha. destruct t as [e|i].
  - destruct e; try discriminate.
    3: { rewrite perform_arrival.
         destruct (chunkOf msg) as [p|];
           [destruct (audioContextRef (world s)) as [ctx|]|].
         - intros k Hk. cbn [world awaiting nextStartTimeRef
                               setNextStartTime] in *.
           apply in_app_or in Hk as [Hk|[<-|[]]].
           + destruct (Ha k Hk). split; lia.
           + cbn. split; lia.
         - intros k Hk. cbn [world awaiting] in *. destruct (Ha k Hk).
           destruct (interruptBlock_cursor now msg (world s)) as [-> | ->];
             split; lia.
         - intros k Hk. cbn [world awaiting] in *. destruct (Ha k Hk).
           destruct (interruptBlock_cursor now msg (world s)) as [-> | ->];
             split; lia. }
    all: intros k Hk; cbn [perform world awaiting] in *;
      match goal with
      | Hin : In _ _, Hby : arrivedBy _ _ |- _ => destruct (Hby _ Hin)
      end;
      match goal with
      | |- context [step ?d ?n ?e (world ?x)] =>
          destruct (step_cursor d n e (world x) eq_refl)
            as [Hc|[Hc _]]; [|discriminate Hc]
      end; split; lia.
  - destruct (nth_error (awaiting s) i) as [k0|] eqn:E.
    + rewrite (perform_decoded now i k0 s E).
      intros k Hk. cbn [world awaiting] in *.
      apply dropAt_incl in Hk. destruct (Ha k Hk).
      pose proof (duration_nonneg (dec (suspendedAudio k0))).
      destruct (interruptBlock_cursor now (suspendedMsg k0)
                  (playDecoded (dec (suspendedAudio k0)) (world s)))
        as [-> | ->]; rewrite ?playDecoded_cursor; split; lia.
    + rewrite (perform_decoded_none now i s E).
      eapply arrivedBy_later; eauto.
Qed.

Lemma performAll_arrivedBy (pre : list (Time * Task)) :
  forall (s : Live) (t now : Time) (task : Task) (post : list (Time * Task)),
    arrivedBy t s ->
    clockFrom t (pre ++ (now, task) :: post) = true ->
    forallb (fun tt => negb (isRestart (snd tt))) pre = true ->
    arrivedBy now (performAll dec pre s).
Proof.
  induction pre as [|[n1 t1] pre IH]; intros s t now task post Ha Hc Hr.
  - cbn in Hc. apply andb_prop in Hc as [Hc _]. apply Z.leb_le in Hc.
    eapply arrivedBy_later; eauto.
  - cbn [app clockFrom] in Hc. apply andb_prop in Hc as [Hle Hc].
    apply Z.leb_le in Hle.
    cbn [forallb snd] in Hr. apply andb_prop in Hr as [Hr1 Hr].
    cbn [performAll]. eapply IH; [|exact Hc|exact Hr].
    apply (perform_arrivedBy t); auto. now destruct (isRestart t1).
Qed.

(** C2 (amended). Along every run of tasks of a session without a new
    [startSession], stamped by a clock that does not run backwards: when
    the message of a chunk is handled no source is started, and the cursor
    is raised to max(cursor, now) for the clock reading of that moment;
    when the decode of a suspended handler settles, exactly one source is
    started, at the value the cursor has then, and the cursor is advanced by
    exactly the decoded duration of the chunk (lines 237-239); that start is
    never earlier than the clock reading at which the chunk arrived. When
    the handler resumes before anything else runs, the start is max(cursor,
    now) of the arrival. The cursor is initialised by [startSession] to the
    reading of the output clock taken when the output context is created,
    and neither the rest of [startSession] nor [onopen] changes it. *)
Theorem chunk_starts_at_clamped_cursor (s0 : Live) (t : Time)
    (tr : list (Time * Task)) :
  arrivedBy t s0 ->
  clockFrom t tr = true ->
  forallb (fun tt => negb (isRestart (snd tt))) tr = true ->
  (forall pre now task post,
     tr = pre ++ (now, task) :: post ->
     let s1 := performAll dec pre s0 in
     let s2 := perform dec now task s1 in
     let cursor := nextStartTimeRef (world s1) in
     (forall msg p ctx,
        task = Callback (OnMessage msg) ->
        chunkOf msg = Some p ->
        audioContextRef (world s1) = Some ctx ->
        since (world s1) (world s2) = [] /\
        nextStartTimeRef (world s2) = Z.max cursor now /\
        awaiting s2 = awaiting s1 ++ [mkSuspended msg p ctx now]) /\
     (forall i k,
        task = Decoded i ->
        nth_error (awaiting s1) i = Some k ->
        let b := dec (suspendedAudio k) in
        scheduled (since (world s1) (world s2)) = [(cursor, duration b)] /\
        (exists rest,
           since (world s1) (world s2)
           = SourceStart (nextId (world s1)) cursor b :: rest) /\
        world s2
        = interruptBlock now (suspendedMsg k) (playDecoded b (world s1)) /\
        nextStartTimeRef (playDecoded b (world s1)) = cursor + duration b /\
        (isInterrupted (suspendedMsg k) = false ->
         nextStartTimeRef (world s2) = cursor + duration b) /\
        arrivedAt k <= cursor))
  /\
  (forall w q now now' msg p,
     chunkOf msg = Some p ->
     audioContextRef w <> None ->
     scheduled
       (since w (world (performAll dec
                          [(now, Callback (OnMessage msg));
                           (now', Decoded (List.length q))] (mkLive w q))))
     = [(Z.max (nextStartTimeRef w) now, duration (dec p))])
  /\
  (forall t0 w0, nextStartTimeRef (startSession_begin t0 w0) = t0) /\
  (forall r w0,
     nextStartTimeRef (startSession_resume r w0) = nextStartTimeRef w0) /\
  (forall w0, nextStartTimeRef (onopen w0) = nextStartTimeRef w0).
Proof.
  intros Ha Hc Hr. split; [|split; [|repeat split]].
  - intros pre now task post -> s1 s2 cursor.
    assert (Hr' := Hr). rewrite forallb_app in Hr'.
    apply andb_prop in Hr' as [Hpre _].
    pose proof (performAll_arrivedBy pre s0 t now task post Ha Hc Hpre)
      as Hinv. fold s1 in Hinv.
    split.
    + intros msg p ctx -> Hp Hctx. subst s2.
      rewrite perform_arrival, Hp, Hctx. cbn [world awaiting].
      repeat split. apply calls_since. symmetry. apply app_nil_r.
    + intros i k -> Hk b. subst s2.
      rewrite (perform_decoded now i k s1 Hk). cbn [world].
      destruct (interruptBlock_calls now (suspendedMsg k)
                  (playDecoded b (world s1))) as (rest & Hcalls & Hrest).
      rewrite playDecoded_calls, <- app_assoc in Hcalls.
      fold b. rewrite (calls_since _ _ _ Hcalls).
      cbn [app scheduled]. rewrite Hrest.
      split; [reflexivity|]. split; [now exists rest|].
      split; [reflexivity|]. split; [apply playDecoded_cursor|].
      split.
      * intros Hi. rewrite (interruptBlock_quiet _ _ _ Hi).
        apply playDecoded_cursor.
      * apply Hinv. eapply nth_error_In, Hk.
  - intros w q now now' msg p Hp Hctx. cbn [performAll].
    rewrite perform_arrival, Hp. cbn [world awaiting].
    destruct (audioContextRef w) as [ctx|]; [|congruence].
    set (k := mkSuspended msg p ctx now).
    set (w1 := setNextStartTime (Z.max (nextStartTimeRef w) now) w).
    assert (Hk : nth_error (awaiting (mkLive w1 (q ++ [k]))) (List.length q)
                 = Some k).
    { cbn [awaiting]. rewrite nth_error_app2, Nat.sub_diag by lia.
      reflexivity. }
    rewrite (perform_decoded now' _ k _ Hk). cbn [world].
    destruct (interruptBlock_calls now' (suspendedMsg k)
                (playDecoded (dec (suspendedAudio k)) w1))
      as (rest & Hcalls & Hrest).
    rewrite playDecoded_calls, <- app_assoc in Hcalls.
    assert (Hw : calls w1 = calls w) by reflexivity.
    rewrite Hw in Hcalls. rewrite (calls_since _ _ _ Hcalls).
    cbn [app scheduled]. rewrite Hrest. reflexivity.
  - intros [|name message] w0; reflexivity.
Qed.

(** ** Runs written out *)

Lemma perform_chunk (now : Time) (msg : LiveServerMessage) (p : string)
    (ctx : nat) (w : World) (q : list Suspended) :
  chunkOf msg = Some p ->
  audioContextRef w = Some ctx ->
  perform dec now (Callback (OnMessage msg)) (mkLive w q)
  = mkLive (setNextStartTime (Z.max (nextStartTimeRef w) now) w)
      (q ++ [mkSuspended msg p ctx now]).
Proof. intros Hp Hc. rewrite perform_arrival. cbn. now rewrite Hp, Hc. Qed.

Lemma perform_interruption (now : Time) (msg : LiveServerMessage) (w : World)
    (q : list Suspended) :
  chunkOf msg = None ->
  isInterrupted msg = true ->
  perform dec now (Callback (OnMessage msg)) (mkLive w q)
  = mkLive (interrupt now w) q.
Proof.
  intros Hp Hi. rewrite perform_arrival. cbn. rewrite Hp.
  unfold interruptBlock. now rewrite Hi.
Qed.

Lemma dropAt_last (A : Type) (q : list A) (k : A) :
  dropAt (List.length q) (q ++ [k]) = q.
Proof.
  unfold dropAt. rewrite firstn_app, firstn_all, Nat.sub_diag. cbn [firstn].
  rewrite skipn_all2 by (rewrite length_app; cbn; lia).
  now rewrite !app_nil_r.
Qed.

Lemma perform_decoded_last (now : Time) (k : Suspended) (w : World)
    (q : list Suspended) :
  isInterrupted (suspendedMsg k) = false ->
  perform dec now (Decoded (List.length q)) (mkLive w (q ++ [k]))
  = mkLive (playDecoded (dec (suspendedAudio k)) w) q.
Proof.
  intros Hi.
  assert (Hk : nth_error (awaiting (mkLive w (q ++ [k]))) (List.length q)
               = Some k).
  { cbn [awaiting]. rewrite nth_error_app2, Nat.sub_diag by lia.
    reflexivity. }
  rewrite (perform_decoded now _ k _ Hk). cbn [world awaiting].
  now rewrite dropAt_last, (interruptBlock_quiet _ _ _ Hi).
Qed.

(** X2. An interruption stops what is scheduled, not what is being
    decoded. A chunk whose message arrived before the interruption and whose
    decode settles after it is started all the same, at the clock reading of
    the interruption, wherever the cursor stood before; it is then the only
    scheduled source and the cursor stands at its end. A chunk that arrives
    after the interruption, with no handler resuming in between, starts at
    its own arrival time. *)
Theorem interruption_spares_chunk_being_decoded (w : World)
    (q : list Suspended) (t ti tr : Time) (msg msgI : LiveServerMessage)
    (p : string) :
  audioContextRef w <> None ->
  chunkOf msg = Some p ->
  isInterrupted msg = false ->
  chunkOf msgI = None ->
  isInterrupted msgI = true ->
  (let s := performAll dec [(t, Callback (OnMessage msg));
                            (ti, Callback (OnMessage msgI));
                            (tr, Decoded (List.length q))] (mkLive w q) in
   since w (world s)
   = map SourceStop (sourcesRef w) ++ [SourceStart (nextId w) ti (dec p)] /\
   sourcesRef (world s) = [nextId w] /\
   nextStartTimeRef (world s) = ti + duration (dec p) /\
   awaiting s = q)
  /\
  (ti <= t ->
   let s := performAll dec [(ti, Callback (OnMessage msgI));
                            (t, Callback (OnMessage msg));
                            (tr, Decoded (List.length q))] (mkLive w q) in
   since w (world s)
   = map SourceStop (sourcesRef w) ++ [SourceStart (nextId w) t (dec p)] /\
   sourcesRef (world s) = [nextId w] /\
   nextStartTimeRef (world s) = t + duration (dec p) /\
   awaiting s = q).
Proof.
  intros Hctx Hp Hi HpI HiI.
  destruct (audioContextRef w) as [ctx|] eqn:Ec; [clear Hctx|congruence].
  split.
  - cbn [performAll].
    rewrite (perform_chunk t msg p ctx w q Hp Ec).
    rewrite (perform_interruption ti msgI _ _ HpI HiI).
    rewrite perform_decoded_last by exact Hi.
    cbn [world awaiting suspendedAudio].
    set (w3 := playDecoded (dec p)
                 (interrupt ti
                    (setNextStartTime (Z.max (nextStartTimeRef w) t) w))).
    assert (Hc : calls w3 = calls w ++ map SourceStop (sourcesRef w)
                            ++ [SourceStart (nextId w) ti (dec p)]).
    { subst w3. destruct w; cbn in Ec; subst.
      cbv beta iota zeta delta
        [playDecoded interrupt setNextStartTime setSources emit fresh
         calls sourcesRef nextStartTimeRef nextId audioContextRef
         isActive status error inputAudioContextRef sessionPromiseRef
         streamRef canvasRef].
      now rewrite <- app_assoc. }
    rewrite (calls_since _ _ _ Hc).
    subst w3. destruct w; cbn in Ec; subst. repeat split.
  - intros Hle. cbn [performAll].
    rewrite (perform_interruption ti msgI _ _ HpI HiI).
    assert (Ec' : audioContextRef (interrupt ti w) = Some ctx).
    { destruct w; cbn in Ec; subst. reflexivity. }
    rewrite (perform_chunk t msg p ctx _ q Hp Ec').
    rewrite perform_decoded_last by exact Hi.
    cbn [world awaiting suspendedAudio].
    set (w3 := playDecoded (dec p) _).
    assert (Hc : calls w3 = calls w ++ map SourceStop (sourcesRef w)
                            ++ [SourceStart (nextId w) t (dec p)]).
    { subst w3. destruct w; cbn in Ec; subst.
      cbv beta iota zeta delta
        [playDecoded interrupt setNextStartTime setSources emit fresh
         calls sourcesRef nextStartTimeRef nextId audioContextRef
         isActive status error inputAudioContextRef sessionPromiseRef
         streamRef canvasRef].
      rewrite <- app_assoc. now rewrite (Z.max_r ti t Hle). }
    rewrite (calls_since _ _ _ Hc).
    subst w3. destruct w; cbn in Ec; subst.
    cbv beta iota zeta delta
      [playDecoded interrupt setNextStartTime setSources emit fresh
       calls sourcesRef nextStartTimeRef nextId audioContextRef
       isActive status error inputAudioContextRef sessionPromiseRef
       streamRef canvasRef].
    rewrite (Z.max_r ti t Hle). repeat split.
Qed.

(** X11. [stopSession] does not end the scheduling of playback: it leaves
    the output context ref set. The message of a chunk that arrives after
    the stop (the connection is closed asynchronously) still passes the
    guard of line 222, and when its decode settles the source is started on
    the closed context and added to the set of scheduled sources; and a
    chunk that was being decoded when the session was stopped is started
    after the stop in the same way. *)
Theorem chunk_after_stop_is_still_scheduled (w : World)
    (q : list Suspended) (now t : Time) (msg : LiveServerMessage)
    (p : string) :
  audioContextRef w <> None ->
  chunkOf msg = Some p ->
  isInterrupted msg = false ->
  (let s0 := mkLive (stopSession w) q in
   let s1 := perform dec now (Callback (OnMessage msg)) s0 in
   let s2 := perform dec t (Decoded (List.length q)) s1 in
   isActive (world s0) = false /\
   since (world s0) (world s1) = [] /\
   List.length (awaiting s1) = S (List.length q) /\
   since (world s1) (world s2)
   = [SourceStart (nextId w) (Z.max (nextStartTimeRef w) now) (dec p)] /\
   In (nextId w) (sourcesRef (world s2)) /\
   isActive (world s2) = false)
  /\
  (let s1 := perform dec now (Callback (OnMessage msg)) (mkLive w q) in
   let s2 := perform dec t (Callback StopSession) s1 in
   let s3 := perform dec t (Decoded (List.length q)) s2 in
   isActive (world s2) = false /\
   since (world s2) (world s3)
   = [SourceStart (nextId w) (Z.max (nextStartTimeRef w) now) (dec p)] /\
   In (nextId w) (sourcesRef (world s3)) /\
   isActive (world s3) = false).
Proof.
  intros Hctx Hp Hi.
  destruct (audioContextRef w) as [ctx|] eqn:Ec; [clear Hctx|congruence].
  split.
  - assert (Ec' : audioContextRef (stopSession w) = Some ctx).
    { destruct_world w; cbn in Ec; congruence. }
    cbv zeta. rewrite (perform_chunk now msg p ctx _ q Hp Ec').
    rewrite perform_decoded_last by exact Hi.
    cbn [world awaiting suspendedAudio].
    split; [destruct_world w; reflexivity|].
    split; [apply calls_since; symmetry; apply app_nil_r|].
    split; [rewrite length_app; cbn; lia|].
    split.
    { apply calls_since. rewrite playDecoded_calls.
      destruct_world w; reflexivity. }
    split.
    { rewrite playDecoded_sources.
      replace (nextId (setNextStartTime
                         (Z.max (nextStartTimeRef (stopSession w)) now)
                         (stopSession w))) with (nextId w)
        by (destruct_world w; reflexivity).
      apply setAdd_has. }
    destruct_world w; reflexivity.
  - cbv zeta. rewrite (perform_chunk now msg p ctx _ q Hp Ec).
    change (perform dec t (Callback StopSession)
              (mkLive (setNextStartTime (Z.max (nextStartTimeRef w) now) w)
                 (q ++ [mkSuspended msg p ctx now])))
      with (mkLive (stopSession
                      (setNextStartTime (Z.max (nextStartTimeRef w) now) w))
              (q ++ [mkSuspended msg p ctx now])).
    rewrite perform_decoded_last by exact Hi.
    cbn [world awaiting suspendedAudio].
    split; [destruct_world w; reflexivity|].
    split.
    { apply calls_since. rewrite playDecoded_calls.
      destruct_world w; reflexivity. }
    split.
    { rewrite playDecoded_sources.
      replace (nextId (stopSession
                         (setNextStartTime (Z.max (nextStartTimeRef w) now) w)))
        with (nextId w) by (destruct_world w; reflexivity).
      apply setAdd_has. }
    destruct_world w; reflexivity.
Qed.

End AsyncFacts.

(** ** Closed instances *)

(** C1, as stated, fails. In a started session two 200 ms chunks arrive at
    clock 0 and at clock 500 ms, each decoded at once: the second starts at
    500 ms, not at 0 + 200 ms. A 200 ms chunk and a 150 ms chunk arrive
    together and the second is decoded first: it is started first, at 0,
    and the chunk that arrived first starts at 150 ms. And in double
    arithmetic the third start of the 200/150/300 ms scenario from
    t0 = 0.048 s, which the cursor accumulates as (t0 + 0.2) + 0.15, is not
    the double t0 + 0.35. *)
Lemma late_chunk_breaks_back_to_back :
  ~ backToBack
      (scheduled
         (since activeWorld
            (world (performAll exampleDecoder
                      [(0, Callback (OnMessage (audioMessage "AAAA")));
                       (0, Decoded 0);
                       (ms 500, Callback (OnMessage (audioMessage "AAAA")));
                       (ms 500, Decoded 0)]
                      (mkLive activeWorld []))))) /\
  scheduled
    (since activeWorld
       (world (performAll exampleDecoder
                 [(0, Callback (OnMessage (audioMessage "AAAA")));
                  (0, Callback (OnMessage (audioMessage "AAA")));
                  (ms 5, Decoded 1);
                  (ms 5, Decoded 0)]
                 (mkLive activeWorld []))))
  = [(0, ms 150); (ms 150, ms 200)] /\
  (let t0 := Binary64.seconds 1152 in
   let d200 := Binary64.seconds 4800 in
   let d150 := Binary64.seconds 3600 in
   let d300 := Binary64.seconds 7200 in
   Binary64.startsFrom t0 [d200; d150; d300]
   = [t0; Binary64.add t0 d200; Binary64.add (Binary64.add t0 d200) d150] /\
   Binary64.add (Binary64.add t0 d200) d150
   <> Binary64.add t0 (Binary64.seconds 8400)).
Proof.
  split; [|split; [|split]].
  - intros H.
    specialize (H O 0 4800 12000 4800 eq_refl eq_refl).
    vm_compute in H. discriminate H.
  - vm_compute. reflexivity.
  - reflexivity.
  - vm_compute. discriminate.
Qed.

Lemma chunks_back_to_back_unless_late_witness :
  audioContextRef activeWorld <> None /\
  quietSuspended [] = true /\
  scheduled
    (since activeWorld
       (world (performAll exampleDecoder
                 [(ms 10, Callback (OnMessage (audioMessage "AAAA")));
                  (ms 10, Callback (OnMessage (audioMessage "AAA")));
                  (ms 10, Decoded 0);
                  (ms 10, Callback (OnMessage (audioMessage "AAAAAA")));
                  (ms 30, Decoded 0);
                  (ms 31, Decoded 0)]
                 (mkLive activeWorld []))))
  = [(ms 10, ms 200); (ms 10 + ms 200, ms 150);
     (ms 10 + ms 200 + ms 150, ms 300)].
Proof.
  assert (Hctx : audioContextRef activeWorld <> None)
    by (vm_compute; discriminate).
  split; [exact Hctx|]. split; [reflexivity|].
  apply (proj2 (proj2 (chunks_back_to_back_unless_late exampleDecoder
                         activeWorld [] Hctx eq_refl))
           (ms 10) (audioMessage "AAAA") "AAAA"%string "AAA"%string
           "AAAAAA"%string
           [(ms 10, Callback (OnMessage (audioMessage "AAA")));
            (ms 10, Decoded 0);
            (ms 10, Callback (OnMessage (audioMessage "AAAAAA")));
            (ms 30, Decoded 0);
            (ms 31, Decoded 0)]).
  - reflexivity.
  - reflexivity.
  - vm_compute. discriminate.
  - reflexivity.
  - reflexivity.
  - intros t Ht. vm_compute in Ht.
    destruct Ht as [<-|[<-|[]]]; unfold ms; lia.
  - reflexivity.
  - reflexivity.
  - reflexivity.
  - reflexivity.
  - vm_compute. reflexivity.
Defined.

(** C2, as stated, fails. The session is started at clock 0, the
    microphone is granted at 100 ms and the connection opens at 150 ms: the
    cursor is then still 0, the reading taken when the output context was
    created. A chunk arrives at 10 ms and its decode settles at 50 ms: the
    source is started at 10 ms, the cursor clamped on arrival, which at the
    moment of scheduling is neither max(cursor, clock) = 50 ms nor in the
    future. While a chunk that arrived at 20 ms with the cursor at 200 ms
    is being decoded, an interruption is handled at 20 ms: the source is
    started at 20 ms, not at max(200 ms, 20 ms). *)
Lemma chunk_start_can_lie_in_the_past :
  (let opened := run exampleDecoder [(0, StartSession);
                                     (ms 100, MicSettled MicGranted);
                                     (ms 150, OnOpen)] initialWorld in
   isActive opened = true /\
   nextStartTimeRef opened = 0 /\
   nextStartTimeRef opened <> ms 150) /\
  (let s1 := perform exampleDecoder (ms 10)
               (Callback (OnMessage (audioMessage "AAAA")))
               (mkLive activeWorld []) in
   let s2 := perform exampleDecoder (ms 50) (Decoded 0) s1 in
   nextStartTimeRef (world s1) = ms 10 /\
   scheduled (since (world s1) (world s2)) = [(ms 10, ms 200)] /\
   ms 10 < ms 50 /\
   ms 10 <> Z.max (nextStartTimeRef (world s1)) (ms 50)) /\
  (let s := performAll exampleDecoder
              [(ms 20, Callback (OnMessage (audioMessage "AAA")));
               (ms 20, Callback (OnMessage interruptedMessage));
               (ms 20, Decoded 0)]
              (mkLive playingWorld []) in
   nextStartTimeRef playingWorld = ms 200 /\
   scheduled (since playingWorld (world s)) = [(ms 20, ms 150)] /\
   ms 20 <> Z.max (nextStartTimeRef playingWorld) (ms 20) /\
   sourcesRef (world s) = [5%nat] /\
   nextStartTimeRef (world s) = ms 170).
Proof.
  vm_compute. repeat split; discriminate.
Qed.

Lemma chunk_starts_at_clamped_cursor_witness :
  arrivedBy 0 (mkLive activeWorld []) /\
  (let s1 := performAll exampleDecoder
               [(ms 10, Callback (OnMessage (audioMessage "AAAA")));
                (ms 20, Callback (OnMessage interruptedMessage))]
               (mkLive activeWorld []) in
   let s2 := perform exampleDecoder (ms 50) (Decoded 0) s1 in
   scheduled (since (world s1) (world s2)) = [(ms 20, ms 200)] /\
   ms 10 <= nextStartTimeRef (world s1)).
Proof.
  assert (Ha : arrivedBy 0 (mkLive activeWorld [])) by (intros k []).
  split; [exact Ha|].
  pose proof (proj1 (chunk_starts_at_clamped_cursor exampleDecoder
                       (mkLive activeWorld []) 0
                       [(ms 10, Callback (OnMessage (audioMessage "AAAA")));
                        (ms 20, Callback (OnMessage interruptedMessage));
                        (ms 50, Decoded 0)]
                       Ha eq_refl eq_refl)
                [(ms 10, Callback (OnMessage (audioMessage "AAAA")));
                 (ms 20, Callback (OnMessage interruptedMessage))]
                (ms 50) (Decoded 0) [] eq_refl) as [_ H].
  specialize (H 0%nat
                (mkSuspended (audioMessage "AAAA") "AAAA" 1 (ms 10))
                eq_refl ltac:(vm_compute; reflexivity)).
  cbv zeta in H. destruct H as (A & _ & _ & _ & _ & B).
  split; [exact A | exact B].
Defined.

Lemma interruption_spares_chunk_being_decoded_witness :
  audioContextRef playingWorld <> None /\
  (let s := performAll exampleDecoder
              [(ms 20, Callback (OnMessage (audioMessage "AAA")));
               (ms 30, Callback (OnMessage interruptedMessage));
               (ms 40, Decoded 0)] (mkLive playingWorld []) in
   since playingWorld (world s)
   = [SourceStop 4; SourceStart 5 (ms 30) (exampleDecoder "AAA")] /\
   sourcesRef (world s) = [5%nat] /\
   nextStartTimeRef (world s) = ms 30 + ms 150).
Proof.
  assert (Hctx : audioContextRef playingWorld <> None)
    by (vm_compute; discriminate).
  split; [exact Hctx|].
  destruct (proj1 (interruption_spares_chunk_being_decoded exampleDecoder
                     playingWorld [] (ms 20) (ms 30) (ms 40)
                     (audioMessage "AAA") interruptedMessage "AAA"
                     Hctx eq_refl eq_refl eq_refl eq_refl))
    as (A & B & C & _).
  split; [exact A|]. split; [exact B | exact C].
Defined.

Lemma chunk_after_stop_is_still_scheduled_witness :
  audioContextRef activeWorld <> None /\
  (let s0 := mkLive (stopSession activeWorld) [] in
   let s1 := perform exampleDecoder (ms 30)
               (Callback (OnMessage (audioMessage "AAAA"))) s0 in
   let s2 := perform exampleDecoder (ms 40) (Decoded 0) s1 in
   isActive (world s0) = false /\
   since (world s1) (world s2)
   = [SourceStart 4 (ms 30) (exampleDecoder "AAAA")] /\
   In 4%nat (sourcesRef (world s2))).
Proof.
  assert (Hctx : audioContextRef activeWorld <> None)
    by (vm_compute; discriminate).
  split; [exact Hctx|].
  destruct (proj1 (chunk_after_stop_is_still_scheduled exampleDecoder
                     activeWorld [] (ms 30) (ms 40) (audioMessage "AAAA")
                     "AAAA" Hctx eq_refl eq_refl))
    as (A & _ & _ & B & C & _).
  split; [exact A|]. split; [exact B | exact C].
Defined.

End LiveViewAsyncFacts.
